(** * pgtyped query actions: a shallow embedding of
    [packages/query/src/actions.ts] and the properties of its
    authentication handshake, type prober, explain validator and catalog
    aggregation. *)

From Stdlib Require Import ZArith Lia List Ascii String Bool.
From Stdlib Require Import DecimalString DecimalZ DecimalPos DecimalFacts.
From stdpp Require Import base option list strings gmap fin_maps.

Import ListNotations.
Local Open Scope string_scope.
Local Open Scope Z_scope.

(** ** Strings

    A JavaScript string is modelled by a [string] holding its UTF-8 bytes
    (well-formed text).  The two characters the escaper looks for, the double
    quote (U+0022) and NUL (U+0000), are single bytes in UTF-8 and occur in
    no multi-byte sequence, so replacing them byte by byte is what the
    regular expression does code unit by code unit. *)

Module Str.

Definition dquote : ascii := Ascii.ascii_of_nat 34.
Definition nul : ascii := Ascii.zero.

(** [str.replace(re, by)] for a global regular expression [re] matching
    single characters: every matching character is replaced by [by]. *)
Fixpoint replace_chars (matches : ascii -> bool) (by_ : string) (s : string)
  : string :=
  match s with
  | EmptyString => EmptyString
  | String c rest =>
      if matches c then by_ ++ replace_chars matches by_ rest
      else String c (replace_chars matches by_ rest)
  end.

(** [parts.join(sep)]. *)
Fixpoint join (sep : string) (parts : list string) : string :=
  match parts with
  | [] => ""
  | [p] => p
  | p :: rest => p ++ sep ++ join sep rest
  end.

(** [needle] occurs in [hay] as a contiguous piece of text. *)
Definition occurs (needle hay : string) : Prop :=
  exists pre post, hay = pre ++ needle ++ post.

Fixpoint occursb (needle hay : string) : bool :=
  String.prefix needle hay ||
  match hay with
  | EmptyString => false
  | String _ rest => occursb needle rest
  end.

Fixpoint last_char (s : string) : option ascii :=
  match s with
  | EmptyString => None
  | String c EmptyString => Some c
  | String _ rest => last_char rest
  end.

Fixpoint drop_last (s : string) : string :=
  match s with
  | EmptyString => EmptyString
  | String _ EmptyString => EmptyString
  | String c rest => String c (drop_last rest)
  end.

Fixpoint mem (c : ascii) (s : string) : bool :=
  match s with
  | EmptyString => false
  | String d rest => Ascii.eqb c d || mem c rest
  end.

(** The line feed of a template literal that spans lines. *)
Definition nl : string := String (Ascii.ascii_of_nat 10) EmptyString.

Fixpoint map (f : ascii -> ascii) (s : string) : string :=
  match s with
  | EmptyString => EmptyString
  | String c rest => String (f c) (map f rest)
  end.

End Str.

(** ** Identifier escaper *)

(** The character class of the regular expression of the replacement: a
    double quote or a NUL character. *)
Definition quote_or_nul (c : ascii) : bool :=
  Ascii.eqb c Str.dquote || Ascii.eqb c Str.nul.

(** [escapeSqlIdentifier]: the template literal wraps the replaced text in a
    pair of double quotes. *)
Definition escapeSqlIdentifier (str : string) : string :=
  String Str.dquote
    (Str.replace_chars quote_or_nul (String Str.dquote (String Str.dquote ""))
       str
     ++ String Str.dquote "").

(** The un-escaper of the round-trip property, written after the property's
    words (it is not part of the program): strip the outer double quotes,
    then collapse every doubled double-quote back to a single character. *)
Module Unescape.

Definition strip_outer_quotes (s : string) : option string :=
  match s with
  | String c rest =>
      if Ascii.eqb c Str.dquote then
        match Str.last_char rest with
        | Some d =>
            if Ascii.eqb d Str.dquote then Some (Str.drop_last rest)
            else None
        | None => None
        end
      else None
  | EmptyString => None
  end.

Fixpoint collapse_doubled_quotes (s : string) : string :=
  match s with
  | EmptyString => EmptyString
  | String c rest =>
      match rest with
      | String d rest' =>
          if Ascii.eqb c Str.dquote && Ascii.eqb d Str.dquote
          then String Str.dquote (collapse_doubled_quotes rest')
          else String c (collapse_doubled_quotes rest)
      | EmptyString => String c EmptyString
      end
  end.

Definition unescape (s : string) : option string :=
  option_map collapse_doubled_quotes (strip_outer_quotes s).

End Unescape.

(** ** MD5 credential hasher *)

(** Node's [crypto] module is not part of the repository; its MD5 is the
    function of RFC 1321, written out here on 32-bit words held in [Z], and a
    [Hash] object is the text it has been fed so far.  A [Buffer] is a
    [string] too: its bytes. *)
Module Crypto.

Definition w32 (x : Z) : Z := x mod 2 ^ 32.
Definition add32 (x y : Z) : Z := w32 (x + y).
Definition not32 (x : Z) : Z := Z.lxor x 0xffffffff.
Definition rotl32 (x n : Z) : Z :=
  w32 (Z.lor (Z.shiftl x n) (Z.shiftr x (32 - n))).

Definition K : list Z :=
  [ 0xd76aa478; 0xe8c7b756; 0x242070db; 0xc1bdceee;
    0xf57c0faf; 0x4787c62a; 0xa8304613; 0xfd469501;
    0x698098d8; 0x8b44f7af; 0xffff5bb1; 0x895cd7be;
    0x6b901122; 0xfd987193; 0xa679438e; 0x49b40821;
    0xf61e2562; 0xc040b340; 0x265e5a51; 0xe9b6c7aa;
    0xd62f105d; 0x02441453; 0xd8a1e681; 0xe7d3fbc8;
    0x21e1cde6; 0xc33707d6; 0xf4d50d87; 0x455a14ed;
    0xa9e3e905; 0xfcefa3f8; 0x676f02d9; 0x8d2a4c8a;
    0xfffa3942; 0x8771f681; 0x6d9d6122; 0xfde5380c;
    0xa4beea44; 0x4bdecfa9; 0xf6bb4b60; 0xbebfbc70;
    0x289b7ec6; 0xeaa127fa; 0xd4ef3085; 0x04881d05;
    0xd9d4d039; 0xe6db99e5; 0x1fa27cf8; 0xc4ac5665;
    0xf4292244; 0x432aff97; 0xab9423a7; 0xfc93a039;
    0x655b59c3; 0x8f0ccc92; 0xffeff47d; 0x85845dd1;
    0x6fa87e4f; 0xfe2ce6e0; 0xa3014314; 0x4e0811a1;
    0xf7537e82; 0xbd3af235; 0x2ad7d2bb; 0xeb86d391 ].

Definition shifts : list Z :=
  [ 7; 12; 17; 22; 7; 12; 17; 22; 7; 12; 17; 22; 7; 12; 17; 22;
    5; 9; 14; 20; 5; 9; 14; 20; 5; 9; 14; 20; 5; 9; 14; 20;
    4; 11; 16; 23; 4; 11; 16; 23; 4; 11; 16; 23; 4; 11; 16; 23;
    6; 10; 15; 21; 6; 10; 15; 21; 6; 10; 15; 21; 6; 10; 15; 21 ].

Definition bytes_of (s : string) : list Z :=
  List.map (fun c => Z.of_N (N_of_ascii c)) (list_ascii_of_string s).

Definition string_of_bytes (l : list Z) : string :=
  string_of_list_ascii (List.map (fun b => ascii_of_N (Z.to_N b)) l).

(** Little-endian bytes of [x], [n] of them. *)
Fixpoint le_bytes (n : nat) (x : Z) : list Z :=
  match n with
  | O => []
  | S n' => x mod 256 :: le_bytes n' (x / 256)
  end.

Fixpoint le_word (bs : list Z) : Z :=
  match bs with
  | [] => 0
  | b :: rest => b + 256 * le_word rest
  end.

Fixpoint words (n : nat) (bs : list Z) : list Z :=
  match n with
  | O => []
  | S n' => le_word (firstn 4 bs) :: words n' (skipn 4 bs)
  end.

Definition pad (msg : list Z) : list Z :=
  let len := Z.of_nat (List.length msg) in
  let zeros := Z.to_nat ((55 - len) mod 64) in
  msg ++ [0x80] ++ List.repeat 0 zeros ++ le_bytes 8 (8 * len mod 2 ^ 64).

Record state := State { sa : Z; sb : Z; sc : Z; sd : Z }.

Definition step (M : list Z) (st : state) (i : nat) : state :=
  let '(State a b c d) := st in
  let r := Nat.div i 16 in
  let '(f, g) :=
    match r with
    | 0%nat => (Z.lor (Z.land b c) (Z.land (not32 b) d), i)
    | 1%nat => (Z.lor (Z.land d b) (Z.land (not32 d) c),
                Nat.modulo (5 * i + 1) 16)
    | 2%nat => (Z.lxor b (Z.lxor c d), Nat.modulo (3 * i + 5) 16)
    | _ => (Z.lxor c (Z.lor b (not32 d)), Nat.modulo (7 * i) 16)
    end in
  let f' := add32 (add32 (add32 f a) (nth i K 0)) (nth g M 0) in
  State d (add32 b (rotl32 f' (nth i shifts 0))) b c.

Definition block (st : state) (bs : list Z) : state :=
  let M := words 16 bs in
  let '(State a b c d) := fold_left (step M) (seq 0 64) st in
  State (add32 (sa st) a) (add32 (sb st) b)
        (add32 (sc st) c) (add32 (sd st) d).

Fixpoint blocks (n : nat) (st : state) (bs : list Z) : state :=
  match n with
  | O => st
  | S n' => blocks n' (block st (firstn 64 bs)) (skipn 64 bs)
  end.

(** The 16 bytes of the MD5 digest of [msg]. *)
Definition md5 (msg : string) : string :=
  let padded := pad (bytes_of msg) in
  let '(State a b c d) :=
    blocks (Nat.div (List.length padded) 64)
           (State 0x67452301 0xefcdab89 0x98badcfe 0x10325476) padded in
  string_of_bytes (le_bytes 4 a ++ le_bytes 4 b ++ le_bytes 4 c ++ le_bytes 4 d).

Definition hex_digit (n : N) : ascii :=
  if (n <? 10)%N then ascii_of_N (48 + n) else ascii_of_N (87 + n).

(** [digest('hex')]: two lowercase hexadecimal digits per byte. *)
Fixpoint hex (s : string) : string :=
  match s with
  | EmptyString => EmptyString
  | String c rest =>
      let n := N_of_ascii c in
      String (hex_digit (n / 16)) (String (hex_digit (n mod 16)) (hex rest))
  end.

(** [createHash('md5')], [update] and [digest('hex')]. *)
Definition Hash := string.
Definition createHash_md5 : Hash := EmptyString.
Definition update (h : Hash) (data : string) : Hash := h ++ data.
Definition digest_hex (h : Hash) : string := hex (md5 h).

End Crypto.

(** [generateHash username password salt]. *)
Definition generateHash (username password : string) (salt : string) : string :=
  let hash := fun str : string =>
    Crypto.digest_hex (Crypto.update Crypto.createHash_md5 str) in
  let shadow := hash (password ++ username) in
  let result := Crypto.createHash_md5 in
  let result := Crypto.update result shadow in
  let result := Crypto.update result salt in
  "md5" ++ Crypto.digest_hex result.

(** ** JavaScript values used by the actions *)

Module Js.

(** The text of an integer-valued number in a template literal.  The
    numbers rendered this way are the 32-bit and 16-bit integers of a row
    description, far below the range where JavaScript switches to
    exponent notation. *)
Definition string_of_Z (z : Z) : string :=
  NilZero.string_of_int (Z.to_int z).

(** Truthiness of an optional string: [undefined] and the empty text are
    falsy. *)
Definition truthy (s : option string) : bool :=
  match s with
  | Some EmptyString => false
  | Some _ => true
  | None => false
  end.

(** [list.indexOf(x)]: the first index of [x], or -1. *)
Fixpoint indexOf (x : string) (l : list string) : Z :=
  match l with
  | [] => -1
  | y :: rest =>
      if String.eqb y x then 0
      else let i := indexOf x rest in if i =? -1 then -1 else i + 1
  end.

(** A thrown value, of which the actions read [message]. *)
Record Exn := { message : string }.

(** [new Error(msg)]. *)
Definition Error (msg : string) : Exn := {| message := msg |}.

(** The names of the members of [Object.prototype].  An object made by a
    literal inherits them: the [in] operator and indexing find them on every
    such object, whatever its own entries are. *)
Definition Object_prototype : list string :=
  [ "constructor"; "__defineGetter__"; "__defineSetter__"; "hasOwnProperty";
    "__lookupGetter__"; "__lookupSetter__"; "isPrototypeOf";
    "propertyIsEnumerable"; "toString"; "valueOf"; "__proto__";
    "toLocaleString" ].

Definition inherited (key : string) : bool :=
  existsb (String.eqb key) Object_prototype.

End Js.

(** ** Mappable types *)

(** Modelled from the spec: [MappableType], [isEnum] (module [type.ts] is not
    among the sources).  A mappable type is a scalar named by its type name,
    an enum with its ordered labels, or an array wrapping an element type.
    At run time a read through the prototype chain can put a member of
    [Object.prototype] where the declaration has a mappable type:
    [Inherited] stands for such a value, which is no scalar, no enum and no
    array. *)
Inductive MappableType : Type :=
| Scalar (name : string)
| Enum (name : string) (enumValues : list string)
| Array (name : string) (elementType : MappableType)
| Inherited (member : string).

Definition isEnum (typ : MappableType) : bool :=
  match typ with
  | Enum _ _ => true
  | _ => false
  end.

Definition enumValues_of (typ : MappableType) : list string :=
  match typ with
  | Enum _ vs => vs
  | _ => []
  end.

(** [TypeCategory.ARRAY]. *)
Definition TypeCategory_ARRAY : string := "A".

Record TypeRow := {
  oid : string;
  typeName : string;
  typeKind : string;
  enumLabel : string;
  typeCategory : option string;
  elementTypeOid : option string
}.

(** A JavaScript object used as a map from catalog keys to values is a
    [gmap] of its own entries.  [obj[key]] finds the own entry of the key or,
    when there is none, the member of [Object.prototype] that the key names;
    and [key in obj] holds exactly when [obj[key]] finds something, no entry
    of these maps being [undefined]. *)
Definition object_get (obj : gmap string MappableType) (key : string)
  : option MappableType :=
  match obj !! key with
  | Some v => Some v
  | None => if Js.inherited key then Some (Inherited key) else None
  end.

Section Catalog.

(** [DatabaseTypeKind.Enum] of [type.ts], the type-kind text of an enum
    type; the constant is declared outside the sources and left open. *)
Variable DatabaseTypeKind_Enum : string.

(** The reducer of the first pass of [reduceTypeRows]. *)
Definition enumTypes_step (typeMap : gmap string MappableType) (r : TypeRow)
  : gmap string MappableType :=
  let typ := default (Scalar (typeName r)) (object_get typeMap (oid r)) in
  <[ oid r :=
       Enum (typeName r)
            ((if isEnum typ then enumValues_of typ else []) ++ [enumLabel r]) ]>
    typeMap.

Definition is_enum_row (r : TypeRow) : bool :=
  String.eqb (typeKind r) DatabaseTypeKind_Enum.

Definition enumTypes_of (typeRows : list TypeRow) : gmap string MappableType :=
  fold_left enumTypes_step (List.filter is_enum_row typeRows) ∅.

(** The reducer of the second pass, over every row. *)
Definition typeMap_step (enumTypes : gmap string MappableType)
    (typeMap : gmap string MappableType) (r : TypeRow)
  : gmap string MappableType :=
  let typ := default (Scalar (typeName r)) (object_get typeMap (oid r)) in
  match object_get enumTypes (oid r) with
  | Some e => <[ oid r := e ]> typeMap
  | None =>
      let elementEnum :=
        if bool_decide (typeCategory r = Some TypeCategory_ARRAY)
           && Js.truthy (elementTypeOid r)
        then elementTypeOid r ≫= object_get enumTypes
        else None in
      match elementEnum with
      | Some e => <[ oid r := Array (typeName r) e ]> typeMap
      | None => <[ oid r := typ ]> typeMap
      end
  end.

(** [reduceTypeRows]: aggregate the rows of the types catalog. *)
Definition reduceTypeRows (typeRows : list TypeRow)
  : gmap string MappableType :=
  let enumTypes := enumTypes_of typeRows in
  fold_left (typeMap_step enumTypes) typeRows ∅.

End Catalog.

(** ** The message channel *)

(** Modelled from the spec: the message channel (the [AsyncQueue] and the
    message catalogue of the wire package, which are not among the sources).
    [send] enqueues a message; [reply] suspends until the next message
    arrives and fails when it is not one of the expected types; the result
    tells which expected type matched. *)

Inductive PreparedObjectType : Type := Portal | Statement.

Record TypeField := {
  name : string;
  tableOID : Z;
  columnAttrNumber : Z;
  typeOID : Z;
  typeSize : Z;
  typeModifier : Z;
  formatCode : Z
}.

Record StartupParams := {
  user : string;
  database : string;
  client_encoding : string;
  application_name : string
}.

Module messages.

(** Messages of the client. *)
Inductive client : Type :=
| startupMessage (params : StartupParams)
| passwordMessage (password : string)
| SASLInitialResponse (mechanism : string) (responseLength : Z)
    (response : string)
| SASLResponse (response : string)
| query (query : string)
| parse (name : string) (query : string) (dataTypes : list Z)
| describe (name : string) (type : PreparedObjectType)
| close (target : PreparedObjectType) (targetName : string)
| flush
| sync.

(** Message types of the server, as [reply] is told to expect them. *)
Inductive kind : Type :=
| readyForQuery
| authenticationCleartextPassword
| authenticationMD5Password
| authenticationSASL
| AuthenticationSASLContinue
| authenticationSASLFinal
| authenticationOk
| parameterStatus
| backendKeyData
| rowDescription
| dataRow
| commandComplete
| errorResponse
| parseComplete
| parameterDescription
| noData
| closeComplete.

Definition kind_eqb (a b : kind) : bool :=
  match a, b with
  | readyForQuery, readyForQuery
  | authenticationCleartextPassword, authenticationCleartextPassword
  | authenticationMD5Password, authenticationMD5Password
  | authenticationSASL, authenticationSASL
  | AuthenticationSASLContinue, AuthenticationSASLContinue
  | authenticationSASLFinal, authenticationSASLFinal
  | authenticationOk, authenticationOk
  | parameterStatus, parameterStatus
  | backendKeyData, backendKeyData
  | rowDescription, rowDescription
  | dataRow, dataRow
  | commandComplete, commandComplete
  | errorResponse, errorResponse
  | parseComplete, parseComplete
  | parameterDescription, parameterDescription
  | noData, noData
  | closeComplete, closeComplete => true
  | _, _ => false
  end.

End messages.

(** What the server sent, with the payload the actions read.  The field
    after which an action tells two results apart ([trxStatus], [salt],
    [SASLMechanisms], [fields], [params], [commandTag], [SASLData]) is the
    constructor here.  The mechanism list of a SASL request may be absent,
    which the optional chaining of [startup] provides for. *)
Inductive ServerMessage : Type :=
| ReadyForQuery (trxStatus : string)
| AuthenticationCleartextPassword
| AuthenticationMD5Password (salt : string)
| AuthenticationSASL (SASLMechanisms : option (list string))
| SASLContinue (SASLData : string)
| AuthenticationSASLFinal (SASLData : string)
| AuthenticationOk
| ParameterStatus
| BackendKeyData
| RowDescription (fields : list TypeField)
| DataRow (columns : list string)
| CommandComplete (commandTag : string)
| ErrorResponse (fields : gmap string string)
| ParseComplete
| ParameterDescription (params : list Z)
| NoData
| CloseComplete.

Definition kind_of (m : ServerMessage) : messages.kind :=
  match m with
  | ReadyForQuery _ => messages.readyForQuery
  | AuthenticationCleartextPassword => messages.authenticationCleartextPassword
  | AuthenticationMD5Password _ => messages.authenticationMD5Password
  | AuthenticationSASL _ => messages.authenticationSASL
  | SASLContinue _ => messages.AuthenticationSASLContinue
  | AuthenticationSASLFinal _ => messages.authenticationSASLFinal
  | AuthenticationOk => messages.authenticationOk
  | ParameterStatus => messages.parameterStatus
  | BackendKeyData => messages.backendKeyData
  | RowDescription _ => messages.rowDescription
  | DataRow _ => messages.dataRow
  | CommandComplete _ => messages.commandComplete
  | ErrorResponse _ => messages.errorResponse
  | ParseComplete => messages.parseComplete
  | ParameterDescription _ => messages.parameterDescription
  | NoData => messages.noData
  | CloseComplete => messages.closeComplete
  end.

Definition expected (m : ServerMessage) (types : list messages.kind) : bool :=
  existsb (messages.kind_eqb (kind_of m)) types.

(** What happened on the channel, in order. *)
Inductive Event : Type :=
| Connected (host : string) (port : Z)
| Sent (m : messages.client)
| Received (m : ServerMessage).

(** A line of [console.error]: its text and the value printed after it. *)
Record ConsoleLine := { line_text : string; line_value : option Js.Exn }.

(** The state the actions share: the messages the server will deliver from
    now on (a finite script; once it is used up an awaited reply never
    arrives), the events so far, the error console, and whether the
    transport refuses the connection. *)
Record World := {
  incoming : list ServerMessage;
  trace : list Event;
  console : list ConsoleLine;
  connectError : option Js.Exn
}.

(** How an awaited action ends: it returns, it throws, it never resumes, or
    the process has exited. *)
Inductive Outcome (A : Type) : Type :=
| Returned (a : A)
| Thrown (e : Js.Exn)
| Pending
| Exited (code : Z).
Arguments Returned {A} a.
Arguments Thrown {A} e.
Arguments Pending {A}.
Arguments Exited {A} code.

Definition Async (A : Type) : Type := World -> Outcome A * World.

#[global] Instance Async_ret : MRet Async :=
  fun A (a : A) (w : World) => (Returned a, w).

#[global] Instance Async_bind : MBind Async :=
  fun A B (f : A -> Async B) (m : Async A) (w : World) =>
    match m w with
    | (Returned a, w') => f a w'
    | (Thrown e, w') => (Thrown e, w')
    | (Pending, w') => (Pending, w')
    | (Exited c, w') => (Exited c, w')
    end.

Definition throw {A} (e : Js.Exn) : Async A := fun w => (Thrown e, w).

(** [try { body } catch (e) { handler e }]. *)
Definition try_catch {A} (body : Async A) (handler : Js.Exn -> Async A)
  : Async A :=
  fun w =>
    match body w with
    | (Thrown e, w') => handler e w'
    | r => r
    end.

(** [try { body } finally { cleanup }]: the cleanup runs once the body has
    returned or thrown, and the body's completion stands unless the cleanup
    itself does not complete. *)
Definition try_finally {A} (body : Async A) (cleanup : Async unit) : Async A :=
  fun w =>
    match body w with
    | (Returned a, w') =>
        match cleanup w' with
        | (Returned _, w'') => (Returned a, w'')
        | (Thrown e, w'') => (Thrown e, w'')
        | (Pending, w'') => (Pending, w'')
        | (Exited c, w'') => (Exited c, w'')
        end
    | (Thrown e, w') =>
        match cleanup w' with
        | (Returned _, w'') => (Thrown e, w'')
        | (Thrown e', w'') => (Thrown e', w'')
        | (Pending, w'') => (Pending, w'')
        | (Exited c, w'') => (Exited c, w'')
        end
    | (Pending, w') => (Pending, w')
    | (Exited c, w') => (Exited c, w')
    end.

Definition log_event (ev : Event) (w : World) : World :=
  {| incoming := incoming w; trace := trace w ++ [ev];
     console := console w; connectError := connectError w |}.

Definition console_error (text : string) (value : option Js.Exn) : Async unit :=
  fun w =>
    (Returned tt,
     {| incoming := incoming w; trace := trace w;
        console := console w ++ [ {| line_text := text; line_value := value |} ];
        connectError := connectError w |}).

Definition process_exit {A} (code : Z) : Async A := fun w => (Exited code, w).

(** A loop [while (true)] whose every round awaits a reply; [body] says
    whether to go round again ([inl]) or to break ([inr]).  A round uses up
    one message of the script, so one round more than the script is long
    cannot be reached; the loop is cut there. *)
Fixpoint loop_rounds {S A} (rounds : nat) (body : S -> Async (S + A)) (s : S)
  : Async A :=
  match rounds with
  | O => fun w => (Pending, w)
  | Datatypes.S rounds' =>
      fun w =>
        match body s w with
        | (Returned (inl s'), w') => loop_rounds rounds' body s' w'
        | (Returned (inr a), w') => (Returned a, w')
        | (Thrown e, w') => (Thrown e, w')
        | (Pending, w') => (Pending, w')
        | (Exited c, w') => (Exited c, w')
        end
  end.

Definition while_true {S A} (body : S -> Async (S + A)) (s : S) : Async A :=
  fun w => loop_rounds (Datatypes.S (List.length (incoming w))) body s w.

(** ** Data of the actions *)

Module Options.
(** The options of [startup]; [password] and [ssl] are optional. *)
Record t := {
  host : string;
  password : option string;
  port : Z;
  user : string;
  dbName : string;
  ssl : option bool
}.
End Options.

(** [IParseError].  The four fields are read off the error payload of the
    server, or set by the explain validator; a field that is [undefined] or
    not set is [None]. *)
Record IParseError := {
  errorCode : option string;
  hint : option string;
  message : option string;
  position : option string
}.

Module TypeData.
(** The non-error alternative of [TypeData]; a parameter is its [oid]. *)
Record t := {
  fields : list TypeField;
  params : list Z
}.
End TypeData.

(** [TypeData]: a parse error (the alternative that has [errorCode]) or the
    fields and parameters. *)
Definition TypeData : Type := IParseError + TypeData.t.

(** An entry of [returnTypes].  [columnName] and [nullable] are spread from
    the attribute map and [comment] from the comment map; each is [None]
    when the entry has no such value. *)
Record ReturnType := {
  returnName : string;
  columnName : option string;
  type : option MappableType;
  nullable : option bool;
  comment : option string
}.

(** A value of the attribute map. *)
Record Attribute := {
  attr_columnName : option string;
  attr_nullable : bool
}.

Section Actions.

(** Declared outside the sources and left open: the constant
    [DatabaseTypeKind.Enum]; the SASL helpers of [sasl-helpers.ts]
    ([createInitialSASLResponse] draws a nonce, so what it returned is what
    is given here; the two others return or throw); the error with which
    [reply] fails on a message it was not told to expect; the placeholder
    mapping type of the runtime package; and JavaScript's conversion
    [Number] with the text of its result in a template literal. *)
Variable DatabaseTypeKind_Enum : string.

Variable createInitialSASLResponse : string * string.
Variable createClientSASLContinueResponse :
  string -> string -> string -> Js.Exn + (string * string).
Variable checkServerFinalMessage : string -> string -> option Js.Exn.

Variable unexpectedMessage : list messages.kind -> ServerMessage -> Js.Exn.

Variable QueryParameter : Type.

Variable JsNumber : Type.
Variable Number : option string -> JsNumber.
Variable string_of_Number : JsNumber -> string.

Record InterpolatedQuery := {
  iq_query : string;
  iq_mapping : list QueryParameter
}.

Record ParamMetadata := {
  mapping : list QueryParameter;
  params : list (option MappableType)
}.

Record IQueryTypes := {
  paramMetadata : ParamMetadata;
  returnTypes : list ReturnType
}.

Record ColumnComment := {
  cc_tableOID : JsNumber;
  cc_columnAttrNumber : JsNumber;
  cc_comment : option string
}.

(** *** The channel's operations *)

Definition connect (options : Options.t) : Async unit :=
  fun w =>
    match connectError w with
    | Some e => (Thrown e, w)
    | None =>
        (Returned tt,
         log_event (Connected (Options.host options) (Options.port options)) w)
    end.

Definition send (m : messages.client) : Async unit :=
  fun w => (Returned tt, log_event (Sent m) w).

Definition reply (types : list messages.kind) : Async ServerMessage :=
  fun w =>
    match incoming w with
    | [] => (Pending, w)
    | m :: rest =>
        let w' :=
          {| incoming := rest; trace := trace w ++ [Received m];
             console := console w; connectError := connectError w |} in
        if expected m types then (Returned m, w')
        else (Thrown (unexpectedMessage types m), w')
    end.

(** *** Authentication *)

Definition SCRAM_SHA_256 : string := "SCRAM-SHA-256".

(** The round of the loop that drains the messages after the SASL
    exchange: it breaks on [readyForQuery]. *)
Definition drain_round (_ : unit) : Async (unit + unit) :=
  res ← reply [messages.parameterStatus; messages.backendKeyData;
               messages.readyForQuery];
  match res with
  | ReadyForQuery _ => mret (inr tt)
  | _ => mret (inl tt)
  end.

(** The SASL branch of [startup], entered with the password and the
    mechanisms the server advertised. *)
Definition startup_sasl (password : string)
    (SASLMechanisms : option (list string)) : Async unit :=
  if match SASLMechanisms with
     | Some l => Js.indexOf SCRAM_SHA_256 l =? -1
     | None => false
     end
  then throw (Js.Error "SASL: Only mechanism SCRAM-SHA-256 is currently supported")
  else
    let '(clientNonce, initialSASLResponse) := createInitialSASLResponse in
    send (messages.SASLInitialResponse SCRAM_SHA_256
            (Z.of_nat (String.length initialSASLResponse))
            initialSASLResponse);;
    SASLContinueResult ← reply [messages.AuthenticationSASLContinue];
    match
      match SASLContinueResult with
      | SASLContinue SASLData =>
          createClientSASLContinueResponse password clientNonce SASLData
      | _ => inl (Js.Error "SASLData")
      end
    with
    | inl e => throw e
    | inr (SASLContinueResponse, calculatedServerSignature) =>
        send (messages.SASLResponse SASLContinueResponse);;
        finalSASL ← reply [messages.authenticationSASLFinal];
        reply [messages.authenticationOk];;
        while_true drain_round tt;;
        match finalSASL with
        | AuthenticationSASLFinal SASLData =>
            match checkServerFinalMessage SASLData calculatedServerSignature with
            | Some e => throw e
            | None => mret tt
            end
        | _ => throw (Js.Error "SASL: No final SASL data returned")
        end
    end.

Definition startup (options : Options.t) : Async unit :=
  try_catch
    (connect options;;
     let startupParams :=
       {| user := Options.user options;
          database := Options.dbName options;
          client_encoding := "'utf-8'";
          application_name := "pgtyped" |} in
     send (messages.startupMessage startupParams);;
     result ← reply [messages.readyForQuery;
                     messages.authenticationCleartextPassword;
                     messages.authenticationMD5Password;
                     messages.authenticationSASL];
     match result with
     | ReadyForQuery _ => mret tt
     | _ =>
         if negb (Js.truthy (Options.password options))
         then throw (Js.Error "password required for hash auth")
         else
           let password := default EmptyString (Options.password options) in
           match result with
           | AuthenticationSASL SASLMechanisms =>
               startup_sasl password SASLMechanisms
           | _ =>
               let password :=
                 match result with
                 | AuthenticationMD5Password salt =>
                     generateHash (Options.user options) password salt
                 | _ => password
                 end in
               send (messages.passwordMessage password);;
               reply [messages.authenticationOk];;
               reply [messages.readyForQuery];;
               mret tt
           end
     end)
    (fun e =>
       console_error ("Connection failed: " ++ Js.message e) None;;
       process_exit 1).

(** *** Simple query runner *)

(** A round of the row loop: break on [commandComplete], else push the
    row.  (The calls of the debug logger are left out.) *)
Definition row_round (resultRows : list (list string))
  : Async (list (list string) + list (list string)) :=
  result ← reply [messages.dataRow; messages.commandComplete];
  match result with
  | CommandComplete _ => mret (inr resultRows)
  | DataRow columns => mret (inl (resultRows ++ [columns])%list)
  | _ => throw (Js.Error "Cannot read properties of undefined (reading 'map')")
  end.

Definition runQuery (query : string) : Async (list (list string)) :=
  send (messages.query query);;
  reply [messages.rowDescription];;
  while_true row_round [].

(** *** Type prober *)

(** The statement name of a query: the hexadecimal MD5 digest of its text. *)
Definition uniqueName_of (query : string) : string :=
  Crypto.digest_hex (Crypto.update Crypto.createHash_md5 query).

(** The parse error read off the field-coded payload of an error response. *)
Definition parseError_of (errorFields : gmap string string) : IParseError :=
  {| errorCode := errorFields !! "R";
     hint := errorFields !! "H";
     message := errorFields !! "M";
     position := errorFields !! "P" |}.

Definition getTypeData (query : string) : Async TypeData :=
  let uniqueName := uniqueName_of query in
  send (messages.parse uniqueName query []);;
  send (messages.describe uniqueName Statement);;
  send (messages.close Statement uniqueName);;
  send messages.flush;;
  parseResult ← reply [messages.errorResponse; messages.parseComplete];
  send messages.sync;;
  match parseResult with
  | ErrorResponse errorFields => mret (inl (parseError_of errorFields))
  | _ =>
      paramsResult ← reply [messages.parameterDescription; messages.noData];
      let params :=
        match paramsResult with
        | ParameterDescription params => params
        | _ => []
        end in
      fieldsResult ← reply [messages.rowDescription; messages.noData];
      let fields :=
        match fieldsResult with
        | RowDescription fields => fields
        | _ => []
        end in
      reply [messages.closeComplete];;
      mret (inr {| TypeData.fields := fields; TypeData.params := params |})
  end.

(** *** Explain validator *)

(** The text of the explain query for a statement and its parameters. *)
Definition explain_text (uniqueName : string) (length : nat) : string :=
  let params := List.repeat "null" length in
  "explain execute " ++ escapeSqlIdentifier uniqueName
    ++ (if Nat.eqb (List.length params) 0 then EmptyString
        else " (" ++ Str.join ", " params ++ ")")
    ++ ";".

(** The body of the [try] block, given the reply to the parse. *)
Definition explain_body (uniqueName : string) (typeData : TypeData.t)
    (parseResult : ServerMessage)
  : Async (IParseError + list (option string)) :=
  match parseResult with
  | ErrorResponse errorFields => mret (inl (parseError_of errorFields))
  | _ =>
      let length := List.length (TypeData.params typeData) in
      explain ← runQuery (explain_text uniqueName length);
      mret (inr (List.map (fun e : list string => head e) explain))
  end.

(** The [catch] block. *)
Definition explain_catch (e : Js.Exn)
  : Async (IParseError + list (option string)) :=
  console_error "Error occurred whilst testing query:" (Some e);;
  mret (inl {| errorCode := Some "_ERROR";
               hint := None;
               message := Some (Js.message e);
               position := None |}).

(** The [finally] block. *)
Definition explain_finally (uniqueName : string) : Async unit :=
  send (messages.close Statement uniqueName);;
  send messages.flush;;
  send messages.sync;;
  reply [messages.closeComplete];;
  mret tt.

Definition explainQuery (query : string) (typeData : TypeData)
  : Async (IParseError + list (option string)) :=
  match typeData with
  | inl err => mret (inl err)
  | inr typeData =>
      let uniqueName := uniqueName_of query in
      send (messages.parse uniqueName query []);;
      send messages.flush;;
      parseResult ← reply [messages.errorResponse; messages.parseComplete];
      try_finally
        (try_catch (explain_body uniqueName typeData parseResult)
                   explain_catch)
        (explain_finally uniqueName)
  end.

(** *** Catalog and column metadata *)

(** A column of a result row, for a field declared as a string: a column
    the row does not have is [undefined], read here as the empty text (the
    rows of the catalog query have all six columns). *)
Definition column (i : nat) (row : list string) : string :=
  default EmptyString (row !! i).

Definition typeRow_of (row : list string) : TypeRow :=
  {| oid := column 0 row;
     typeName := column 1 row;
     typeKind := column 2 row;
     enumLabel := column 3 row;
     elementTypeOid := row !! 4%nat;
     typeCategory := row !! 5%nat |}.

Definition typesCatalog_text (typeOIDs : list Z) : string :=
  let concatenatedTypeOids := Str.join "," (List.map Js.string_of_Z typeOIDs) in
  Str.nl
  ++ "SELECT pt.oid, pt.typname, pt.typtype, pe.enumlabel, pt.typelem, pt.typcategory"
  ++ Str.nl ++ "FROM pg_type pt"
  ++ Str.nl ++ "LEFT JOIN pg_enum pe ON pt.oid = pe.enumtypid"
  ++ Str.nl ++ "WHERE pt.oid IN (" ++ concatenatedTypeOids ++ ")"
  ++ Str.nl ++ "OR pt.oid IN (SELECT typelem FROM pg_type ptn WHERE ptn.oid IN ("
  ++ concatenatedTypeOids ++ "));" ++ Str.nl.

Definition runTypesCatalogQuery (typeOIDs : list Z) : Async (list TypeRow) :=
  rows ← (if (0 <? List.length typeOIDs)%nat
          then runQuery (typesCatalog_text typeOIDs)
          else mret []);
  mret (List.map typeRow_of rows).

(** The predicate of the comment lookup for one field. *)
Definition commentMatcher (f : TypeField) : string :=
  "(objoid=" ++ Js.string_of_Z (tableOID f) ++ " and objsubid="
    ++ Js.string_of_Z (columnAttrNumber f) ++ ")".

Definition comments_text (columnFields : list TypeField) : string :=
  let matchers := List.map commentMatcher columnFields in
  let selection := Str.join " or " matchers in
  "SELECT" ++ Str.nl ++ "      objoid, objsubid, description" ++ Str.nl
    ++ "     FROM pg_description WHERE " ++ selection ++ ";".

Definition getComments (fields : list TypeField) : Async (list ColumnComment) :=
  let columnFields := List.filter (fun f => 0 <? columnAttrNumber f) fields in
  if Nat.eqb (List.length columnFields) 0 then mret []
  else
    descriptionRows ← runQuery (comments_text columnFields);
    mret (List.map
            (fun row : list string =>
               {| cc_tableOID := Number (row !! 0%nat);
                  cc_columnAttrNumber := Number (row !! 1%nat);
                  cc_comment := row !! 2%nat |})
            descriptionRows).

(** *** Type inference *)

Definition doTestRuns : bool := true.

(** The predicate of the attribute lookup for one field. *)
Definition attrMatcher (f : TypeField) : string :=
  "(attrelid = " ++ Js.string_of_Z (tableOID f) ++ " and attnum = "
    ++ Js.string_of_Z (columnAttrNumber f) ++ ")".

(** [attrSelection], as the template literal renders it: the predicates
    joined, or the text of [false]. *)
Definition attrSelection (fields : list TypeField) : string :=
  if (0 <? List.length fields)%nat
  then Str.join " or " (List.map attrMatcher fields)
  else "false".

Definition attributes_text (fields : list TypeField) : string :=
  "SELECT" ++ Str.nl
    ++ "      (attrelid || ':' || attnum) AS attid, attname, attnotnull"
    ++ Str.nl ++ "     FROM pg_attribute WHERE " ++ attrSelection fields ++ ";".

(** The key under which a row of the attribute query is stored: its first
    column, or the text of [undefined] when the row has none. *)
Definition attid_of (row : list string) : string :=
  default "undefined" (row !! 0%nat).

Definition attrMap_of (attributeRows : list (list string))
  : gmap string Attribute :=
  fold_left
    (fun acc row =>
       <[ attid_of row :=
            {| attr_columnName := row !! 1%nat;
               attr_nullable := negb (bool_decide (row !! 2%nat = Some "t")) |} ]>
         acc)
    attributeRows ∅.

Definition getAttid (col : TypeField) : string :=
  Js.string_of_Z (tableOID col) ++ ":" ++ Js.string_of_Z (columnAttrNumber col).

Definition commentMap_of (commentRows : list ColumnComment)
  : gmap string (option string) :=
  fold_left
    (fun commentMap c =>
       <[ string_of_Number (cc_tableOID c) ++ ":"
            ++ string_of_Number (cc_columnAttrNumber c) := cc_comment c ]>
         commentMap)
    commentRows ∅.

(** The entry of [returnTypes] for one field.  The keys read here and for
    the parameters are the decimal text of a number, or two of them around a
    colon: such a key names no member of [Object.prototype], so that
    indexing finds own entries only. *)
Definition returnType_of (typeMap : gmap string MappableType)
    (attrMap : gmap string Attribute)
    (commentMap : gmap string (option string)) (f : TypeField) : ReturnType :=
  let attr := attrMap !! getAttid f in
  let c := mjoin (commentMap !! getAttid f) in
  {| columnName := attr ≫= attr_columnName;
     nullable := attr_nullable <$> attr;
     comment := if Js.truthy c then c else None;
     returnName := name f;
     type := typeMap !! Js.string_of_Z (typeOID f) |}.

(** [getTypes] from the catalog lookups on, for type data that is no
    error. *)
Definition getTypes_resolve (queryData : InterpolatedQuery)
    (typeData : TypeData.t) : Async (IParseError + IQueryTypes) :=
  let params := TypeData.params typeData in
  let fields := TypeData.fields typeData in
  let paramTypeOIDs := params in
  let returnTypesOIDs := List.map typeOID fields in
  let usedTypesOIDs := (paramTypeOIDs ++ returnTypesOIDs)%list in
  typeRows ← runTypesCatalogQuery usedTypesOIDs;
  commentRows ← getComments fields;
  let typeMap := reduceTypeRows DatabaseTypeKind_Enum typeRows in
  attributeRows ← runQuery (attributes_text fields);
  let attrMap := attrMap_of attributeRows in
  let commentMap := commentMap_of commentRows in
  let returnTypes := List.map (returnType_of typeMap attrMap commentMap) fields in
  let paramMetadata :=
    {| params := List.map (fun oid => typeMap !! Js.string_of_Z oid) params;
       mapping := iq_mapping queryData |} in
  mret (inr {| paramMetadata := paramMetadata; returnTypes := returnTypes |}).

Definition getTypes (queryData : InterpolatedQuery)
  : Async (IParseError + IQueryTypes) :=
  typeData ← getTypeData (iq_query queryData);
  match typeData with
  | inl err => mret (inl err)
  | inr data =>
      if doTestRuns then
        testRunResult ← explainQuery (iq_query queryData) typeData;
        match testRunResult with
        | inl err => mret (inl err)
        | inr _ => getTypes_resolve queryData data
        end
      else getTypes_resolve queryData data
  end.

End Actions.

Arguments iq_query {QueryParameter} _.
Arguments iq_mapping {QueryParameter} _.
Arguments mapping {QueryParameter} _.
Arguments params {QueryParameter} _.
Arguments paramMetadata {QueryParameter} _.
Arguments returnTypes {QueryParameter} _.
Arguments cc_tableOID {JsNumber} _.
Arguments cc_columnAttrNumber {JsNumber} _.
Arguments cc_comment {JsNumber} _.
Arguments commentMap_of {JsNumber} string_of_Number commentRows.

(** * Vocabulary of the properties *)

(** What un-escaping makes of a character: a NUL comes back as a double
    quote, every other character as itself. *)
Definition nul_as_quote (c : ascii) : ascii :=
  if Ascii.eqb c Str.nul then Str.dquote else c.

(** The rows of an oid, and those of them that are of enum type-kind, in
    row order. *)
Definition rows_of (o : string) (typeRows : list TypeRow) : list TypeRow :=
  List.filter (fun r => String.eqb (oid r) o) typeRows.

Definition enum_rows_of (DatabaseTypeKind_Enum o : string)
    (typeRows : list TypeRow) : list TypeRow :=
  List.filter
    (fun r => is_enum_row DatabaseTypeKind_Enum r && String.eqb (oid r) o)
    typeRows.

(** A row is an array of enum when its type-category is the array one and its
    element type oid is set (not the empty text) and resolved to an enum. *)
Definition is_array_of_enum (DatabaseTypeKind_Enum : string)
    (typeRows : list TypeRow) (r : TypeRow) : Prop :=
  typeCategory r = Some TypeCategory_ARRAY
  /\ exists e n vs,
       elementTypeOid r = Some e /\ e <> EmptyString
       /\ reduceTypeRows DatabaseTypeKind_Enum typeRows !! e = Some (Enum n vs).

(** Rows as the types catalog has them.  An oid of [pg_type] is a number, so
    that the oid and the element type oid of a row are decimal texts: they
    are not empty and name no member of [Object.prototype]; and a type of
    enum type-kind is not of the array category. *)
Definition catalog_key (key : string) : bool :=
  negb (String.eqb key EmptyString) && negb (Js.inherited key).

Definition catalog_row (DatabaseTypeKind_Enum : string) (r : TypeRow) : bool :=
  catalog_key (oid r)
  && match elementTypeOid r with
     | Some e => catalog_key e
     | None => true
     end
  && negb (is_enum_row DatabaseTypeKind_Enum r
           && bool_decide (typeCategory r = Some TypeCategory_ARRAY)).

(** A value that is a mappable type of the declaration all through: a
    scalar, an enum, or an array that wraps such a value. *)
Fixpoint mappable (t : MappableType) : bool :=
  match t with
  | Scalar _ | Enum _ _ => true
  | Array _ e => mappable e
  | Inherited _ => false
  end.

(** The element type oid of a row, if any, names no member of
    [Object.prototype]. *)
Definition own_element (r : TypeRow) : bool :=
  match elementTypeOid r with
  | Some e => negb (Js.inherited e)
  | None => true
  end.

(** The second pass of [reduceTypeRows] over a given table of enums. *)
Definition second_pass (enumTypes : gmap string MappableType)
    (typeRows : list TypeRow) : gmap string MappableType :=
  fold_left (typeMap_step enumTypes) typeRows ∅.

(** The element enum of a row, if the row is read as an array of enum. *)
Definition elementEnum_of (enumTypes : gmap string MappableType) (r : TypeRow)
  : option MappableType :=
  if bool_decide (typeCategory r = Some TypeCategory_ARRAY)
     && Js.truthy (elementTypeOid r)
  then elementTypeOid r ≫= object_get enumTypes
  else None.

(** Sample catalog rows: an enum with two labels, its array type and a
    scalar, with the type-kind text of enums being e. *)
Module SampleRows.

Definition mood (label : string) : TypeRow :=
  {| oid := "100"; typeName := "mood"; typeKind := "e"; enumLabel := label;
     typeCategory := Some "E"; elementTypeOid := Some "0" |}.

Definition mood_array : TypeRow :=
  {| oid := "300"; typeName := "_mood"; typeKind := "b";
     enumLabel := EmptyString;
     typeCategory := Some "A"; elementTypeOid := Some "100" |}.

Definition int4 : TypeRow :=
  {| oid := "23"; typeName := "int4"; typeKind := "b";
     enumLabel := EmptyString;
     typeCategory := Some "N"; elementTypeOid := Some "0" |}.

Definition rows : list TypeRow := [mood_array; mood "a"; int4; mood "b"].

(** Rows that the types catalog does not have: a row of enum type-kind that
    also carries the array category and names itself as its element type; a
    row whose oid names a member of [Object.prototype]; and a row of the
    array category whose element type oid names one. *)
Definition odd : TypeRow :=
  {| oid := "1"; typeName := "t"; typeKind := "e"; enumLabel := "a";
     typeCategory := Some "A"; elementTypeOid := Some "1" |}.

Definition named_constructor : TypeRow :=
  {| oid := "constructor"; typeName := "x"; typeKind := "b";
     enumLabel := EmptyString;
     typeCategory := Some "N"; elementTypeOid := Some "0" |}.

Definition array_of_toString : TypeRow :=
  {| oid := "400"; typeName := "_x"; typeKind := "b";
     enumLabel := EmptyString;
     typeCategory := Some "A"; elementTypeOid := Some "toString" |}.

End SampleRows.

(** An event that is the arrival of a server message. *)
Definition is_received (ev : Event) : bool :=
  match ev with
  | Received _ => true
  | _ => false
  end.

(** The world after some more events, and after some messages of the script
    were consumed. *)
Definition with_events (w : World) (evs : list Event)
    (rest : list ServerMessage) : World :=
  {| incoming := rest; trace := trace w ++ evs;
     console := console w; connectError := connectError w |}.

(** An action that, whatever the world, only lets messages arrive: it sends
    nothing and leaves the console alone. *)
Definition only_receives {A} (m : Async A) : Prop :=
  forall w, exists evs rest,
    snd (m w) = with_events w evs rest /\ forallb is_received evs = true.

(** What [getTypeData] sends before it awaits the reply to the parse. *)
Definition probe_events (query : string) : list Event :=
  let uniqueName := uniqueName_of query in
  [ Sent (messages.parse uniqueName query []);
    Sent (messages.describe uniqueName Statement);
    Sent (messages.close Statement uniqueName);
    Sent messages.flush ].

(** The cleanup of [explainQuery]: close the prepared statement, flush, sync,
    and the arrival of close-complete. *)
Definition cleanup_events (query : string) : list Event :=
  [ Sent (messages.close Statement (uniqueName_of query));
    Sent messages.flush;
    Sent messages.sync;
    Received CloseComplete ].

(** What the cleanup of [explainQuery] sends before it awaits
    close-complete. *)
Definition cleanup_sent (query : string) : list Event :=
  [ Sent (messages.close Statement (uniqueName_of query));
    Sent messages.flush;
    Sent messages.sync ].

(** An action that stops short of completing only to wait for a message when
    the script holds none, and that never ends the process. *)
Definition waits_on_silence {A} (m : Async A) : Prop :=
  forall w, match fst (m w) with
            | Pending => incoming (snd (m w)) = []
            | Exited _ => False
            | _ => True
            end.

(** An action that only adds events to the trace. *)
Definition grows {A} (m : Async A) : Prop :=
  forall w, exists evs, trace (snd (m w)) = (trace w ++ evs)%list.

(** The parse error into which the explain validator turns an exception. *)
Definition normalized_error (e : Js.Exn) : IParseError :=
  {| errorCode := Some "_ERROR";
     hint := None;
     message := Some (Js.message e);
     position := None |}.

(** The world once [explainQuery] has received the reply [m] to its parse. *)
Definition after_parse (query : string) (w : World) (m : ServerMessage)
    (rest : list ServerMessage) : World :=
  with_events w
    [ Sent (messages.parse (uniqueName_of query) query []);
      Sent messages.flush;
      Received m ] rest.

(** The world with one more line on the error console. *)
Definition with_console (w : World) (l : ConsoleLine) : World :=
  {| incoming := incoming w; trace := trace w;
     console := console w ++ [l]; connectError := connectError w |}.

(** The line the explain validator writes when it catches [e]. *)
Definition explain_console_line (e : Js.Exn) : ConsoleLine :=
  {| line_text := "Error occurred whilst testing query:";
     line_value := Some e |}.

(** Sample instances of what the actions leave open, and sample worlds. *)
Module Sample.

(** [reply] fails with the message of the server error it met, or with a
    fixed text on any other message it was not told to expect. *)
Definition unexpected (types : list messages.kind) (m : ServerMessage) : Js.Exn :=
  match m with
  | ErrorResponse errorFields =>
      Js.Error (default "server error" (errorFields !! "M"))
  | _ => Js.Error "unexpected message"
  end.

(** A world whose server will deliver [script], with nothing on the trace
    or the console yet. *)
Definition world (script : list ServerMessage) : World :=
  {| incoming := script; trace := []; console := []; connectError := None |}.

Definition permission_denied : gmap string string :=
  {[ "M" := "permission denied for table user_emails" ]}.

Definition syntax_error : gmap string string :=
  <[ "R" := "scanner_yyerror" ]>
    (<[ "M" := "syntax error at end of input" ]>
       (<[ "P" := "8" ]> ∅)).

Definition no_params : TypeData.t :=
  {| TypeData.fields := []; TypeData.params := [] |}.

End Sample.

(** The exit paths of [explainQuery] for type data that is no error, given
    the reply [m] to its parse and the world [w1] in which the reply has
    arrived: the parse error is returned, the plan is returned, or the
    exception of the explain query is returned as a parse error. *)
Definition exit_path
    (unexpectedMessage : list messages.kind -> ServerMessage -> Js.Exn)
    (query : string) (data : TypeData.t) (m : ServerMessage) (w1 : World)
    (v : IParseError + list (option string)) : Prop :=
  let text :=
    explain_text (uniqueName_of query) (List.length (TypeData.params data)) in
  (exists errorFields,
     m = ErrorResponse errorFields /\ v = inl (parseError_of errorFields))
  \/ (exists explain w2,
        m = ParseComplete
        /\ runQuery unexpectedMessage text w1 = (Returned explain, w2)
        /\ v = inr (List.map (fun e : list string => head e) explain))
  \/ (exists e w2,
        m = ParseComplete
        /\ runQuery unexpectedMessage text w1 = (Thrown e, w2)
        /\ v = inl (normalized_error e)).

(** The options with the password left out. *)
Definition without_password (options : Options.t) : Options.t :=
  {| Options.host := Options.host options;
     Options.password := None;
     Options.port := Options.port options;
     Options.user := Options.user options;
     Options.dbName := Options.dbName options;
     Options.ssl := Options.ssl options |}.

(** The handshake up to the arrival of the server's first message [m]. *)
Definition startup_events (options : Options.t) (m : ServerMessage)
  : list Event :=
  [ Connected (Options.host options) (Options.port options);
    Sent (messages.startupMessage
            {| user := Options.user options;
               database := Options.dbName options;
               client_encoding := "'utf-8'";
               application_name := "pgtyped" |});
    Received m ].

(** The world in which [startup] has failed fatally on the first message [m]
    of the server: nothing was sent after the startup message, and the
    failure is on the console. *)
Definition startup_failed (options : Options.t) (w : World)
    (m : ServerMessage) (rest : list ServerMessage) (reason : string) : World :=
  with_console (with_events w (startup_events options m) rest)
    {| line_text := "Connection failed: " ++ reason; line_value := None |}.

(** The server's first message asks for a password. *)
Definition requests_authentication (m : ServerMessage) : bool :=
  match m with
  | AuthenticationCleartextPassword
  | AuthenticationMD5Password _
  | AuthenticationSASL _ => true
  | _ => false
  end.

Definition is_SASLInitialResponse (ev : Event) : bool :=
  match ev with
  | Sent (messages.SASLInitialResponse _ _ _) => true
  | _ => false
  end.

Module SampleSASL.

Definition createInitialSASLResponse : string * string :=
  ("nonce", "n,,n=*,r=nonce").

Definition createClientSASLContinueResponse
    (password clientNonce SASLData : string) : Js.Exn + (string * string) :=
  inr ("c=biws," ++ SASLData ++ ",p=proof", "signature").

Definition checkServerFinalMessage (SASLData signature : string)
  : option Js.Exn :=
  if String.eqb SASLData ("v=" ++ signature) then None
  else Some (Js.Error "SASL: Server signature does not match").

Definition options (password : option string) : Options.t :=
  {| Options.host := "localhost";
     Options.password := password;
     Options.port := 5432;
     Options.user := "postgres";
     Options.dbName := "test";
     Options.ssl := None |}.

Definition startup : Options.t -> Async unit :=
  startup createInitialSASLResponse createClientSASLContinueResponse
          checkServerFinalMessage Sample.unexpected.

End SampleSASL.

(** ** Scanning a query text for a column number

    In the text of a comment lookup the four characters that end
    [objsubid=] are followed by the column number of a predicate.  The
    scanner reads a text from left to right and remembers how much of these
    four characters it has just read; it fails when they are followed by
    anything but a digit from 1 to 9. *)
Module Scan.

Definition nonzero_digit (c : ascii) : bool :=
  let n := nat_of_ascii c in (49 <=? n)%nat && (n <=? 57)%nat.

Definition digit_or_minus (c : ascii) : bool :=
  let n := nat_of_ascii c in
  ((48 <=? n)%nat && (n <=? 57)%nat) || (n =? 45)%nat.

Fixpoint all_chars (p : ascii -> bool) (s : string) : bool :=
  match s with
  | EmptyString => true
  | String c rest => p c && all_chars p rest
  end.

(** The character awaited in state [q], one of the four of [bid=]. *)
Definition awaited (q : nat) : option ascii :=
  match q with
  | 0%nat => Some "b"%char
  | 1%nat => Some "i"%char
  | 2%nat => Some "d"%char
  | 3%nat => Some "="%char
  | _ => None
  end.

Definition step (q : nat) (c : ascii) : option nat :=
  match q with
  | 4%nat => if nonzero_digit c then Some 0%nat else None
  | _ =>
      if bool_decide (awaited q = Some c) then Some (S q)
      else if Ascii.eqb c "b" then Some 1%nat
      else Some 0%nat
  end.

Fixpoint run (q : option nat) (s : string) : option nat :=
  match s with
  | EmptyString => q
  | String c rest => run (q ≫= fun k => step k c) rest
  end.

End Scan.

(** The texts of the simple queries among some events. *)
Fixpoint sent_queries (evs : list Event) : list string :=
  match evs with
  | [] => []
  | Sent (messages.query q) :: rest => q :: sent_queries rest
  | _ :: rest => sent_queries rest
  end.

(** A sample run of [getTypes]: a query with a computed column and a table
    column, and a server that answers every step. *)
Module SampleQuery.

Definition Number (s : option string) : option Z :=
  s ≫= fun text => option_map Z.of_int (NilZero.int_of_string text).

Definition string_of_Number (n : option Z) : string :=
  match n with
  | Some z => Js.string_of_Z z
  | None => "NaN"
  end.

Definition one : TypeField :=
  {| name := "one"; tableOID := 0; columnAttrNumber := 0; typeOID := 23;
     typeSize := 4; typeModifier := -1; formatCode := 0 |}.

Definition id : TypeField :=
  {| name := "id"; tableOID := 16384; columnAttrNumber := 1; typeOID := 23;
     typeSize := 4; typeModifier := -1; formatCode := 0 |}.

Definition queryData : InterpolatedQuery unit :=
  {| iq_query := "SELECT 1 AS one, id FROM users"; iq_mapping := [] |}.

Definition script : list ServerMessage :=
  [ ParseComplete; ParameterDescription []; RowDescription [one; id];
    CloseComplete;
    ParseComplete; RowDescription []; DataRow ["Seq Scan on users"];
    CommandComplete "EXPLAIN"; CloseComplete;
    RowDescription [];
    DataRow ["23"; "int4"; "b"; EmptyString; "0"; "N"];
    CommandComplete "SELECT 1";
    RowDescription []; CommandComplete "SELECT 0";
    RowDescription []; DataRow ["16384:1"; "id"; "t"];
    CommandComplete "SELECT 1" ].

Abbreviation getTypes :=
  (getTypes "e" Sample.unexpected unit (option Z) Number string_of_Number).

End SampleQuery.

(** The result of the sample run and the worlds between its stages. *)
Module SampleRun.

Definition result : IQueryTypes unit :=
  {| paramMetadata := {| mapping := []; params := [] |};
     returnTypes :=
       [ {| returnName := "one"; columnName := None;
            type := Some (Scalar "int4"); nullable := None; comment := None |};
         {| returnName := "id"; columnName := Some "id";
            type := Some (Scalar "int4"); nullable := Some false;
            comment := None |} ] |}.

Definition data : TypeData.t :=
  {| TypeData.fields := [SampleQuery.one; SampleQuery.id];
     TypeData.params := [] |}.

Definition w0 : World := Sample.world SampleQuery.script.

Definition w1 : World :=
  snd (getTypeData Sample.unexpected (iq_query SampleQuery.queryData) w0).

Definition w2 : World :=
  snd (explainQuery Sample.unexpected (iq_query SampleQuery.queryData)
         (inr data) w1).

Definition w3 : World :=
  snd (runTypesCatalogQuery Sample.unexpected
         (TypeData.params data ++ List.map typeOID (TypeData.fields data))%list
         w2).

Definition w4 : World :=
  snd (getComments Sample.unexpected (option Z) SampleQuery.Number
         (TypeData.fields data) w3).

Definition typeRows : list TypeRow :=
  [ {| oid := "23"; typeName := "int4"; typeKind := "b";
       enumLabel := EmptyString; typeCategory := Some "N";
       elementTypeOid := Some "0" |} ].

Definition attributeRows : list (list string) := [["16384:1"; "id"; "t"]].

End SampleRun.

(** * Vocabulary of further properties *)

(** How many characters of a string a predicate holds for. *)
Fixpoint count_chars (p : ascii -> bool) (s : string) : nat :=
  match s with
  | EmptyString => 0%nat
  | String c rest => ((if p c then 1 else 0) + count_chars p rest)%nat
  end.

(** Every double quote of the text stands in a pair of two adjacent ones. *)
Fixpoint quotes_paired (s : string) : bool :=
  match s with
  | EmptyString => true
  | String c rest =>
      if Ascii.eqb c Str.dquote then
        match rest with
        | String d rest' => Ascii.eqb d Str.dquote && quotes_paired rest'
        | EmptyString => false
        end
      else quotes_paired rest
  end.

(** A lowercase hexadecimal digit. *)
Definition is_lower_hex (c : ascii) : bool :=
  let n := nat_of_ascii c in
  ((48 <=? n)%nat && (n <=? 57)%nat) || ((97 <=? n)%nat && (n <=? 102)%nat).

(** The parameters and the fields a probe reads off the two replies that
    describe a statement: an empty sequence where the reply is no-data. *)
Definition params_of (paramsResult : ServerMessage) : list Z :=
  match paramsResult with
  | ParameterDescription params => params
  | _ => []
  end.

Definition fields_of (fieldsResult : ServerMessage) : list TypeField :=
  match fieldsResult with
  | RowDescription fields => fields
  | _ => []
  end.

Definition received_rows (rows : list (list string)) : list Event :=
  List.map (fun r => Received (DataRow r)) rows.

(** What [explainQuery] does on the channel when the explain query runs
    through: the parse, the explain query with its answer, the cleanup. *)
Definition explain_events (query : string) (data : TypeData.t)
    (fields : list TypeField) (rows : list (list string)) (tag : string)
  : list Event :=
  ([ Sent (messages.parse (uniqueName_of query) query []);
     Sent messages.flush;
     Received ParseComplete;
     Sent (messages.query
             (explain_text (uniqueName_of query)
                (List.length (TypeData.params data))));
     Received (RowDescription fields) ]
   ++ received_rows rows
   ++ [Received (CommandComplete tag)]
   ++ cleanup_events query)%list.

(** The type data of a statement with no parameter and no result column. *)
Definition no_types : TypeData.t :=
  {| TypeData.fields := []; TypeData.params := [] |}.

(** Further sample worlds. *)
Module SampleMore.

(** The probe of a statement without parameters and result columns. *)
Definition no_data_script : list ServerMessage :=
  [ParseComplete; NoData; NoData; CloseComplete].

(** The probe succeeds, the second parse is refused. *)
Definition refused_script : list ServerMessage :=
  [ ParseComplete; NoData; NoData; CloseComplete;
    ErrorResponse Sample.syntax_error; CloseComplete ].

Definition begin_query : InterpolatedQuery unit :=
  {| iq_query := "BEGIN"; iq_mapping := [tt] |}.

Definition refused_w1 : World :=
  snd (getTypeData Sample.unexpected "BEGIN" (Sample.world refused_script)).

Definition refused_w2 : World :=
  snd (explainQuery Sample.unexpected "BEGIN" (inr no_types) refused_w1).

Definition plan_script : list ServerMessage :=
  [ ParseComplete; RowDescription []; DataRow ["Seq Scan on users"];
    DataRow []; CommandComplete "EXPLAIN"; CloseComplete; ReadyForQuery "I" ].

End SampleMore.

(** A mappable type whose array, if it is one, wraps an enum. *)
Definition well_shaped (t : MappableType) : bool :=
  match t with
  | Array _ e => isEnum e
  | _ => true
  end.

(** An action that leaves the console alone and does not end the process. *)
Definition quiet {A} (m : Async A) : Prop :=
  forall w, console (snd (m w)) = console w
            /\ forall c, fst (m w) <> Exited c.

(** The line [startup] writes when it fails on the exception [e]. *)
Definition connection_failed (e : Js.Exn) : ConsoleLine :=
  {| line_text := "Connection failed: " ++ Js.message e; line_value := None |}.

(** A message the drain loop of the SASL branch passes over. *)
Definition is_drained (m : ServerMessage) : bool :=
  match m with
  | ParameterStatus | BackendKeyData => true
  | _ => false
  end.

(** The password [startup] sends on a request for a cleartext or an MD5
    password. *)
Definition password_for (options : Options.t) (password : string)
    (m : ServerMessage) : string :=
  match m with
  | AuthenticationMD5Password salt =>
      generateHash (Options.user options) password salt
  | _ => password
  end.

Definition requests_password (m : ServerMessage) : bool :=
  match m with
  | AuthenticationCleartextPassword | AuthenticationMD5Password _ => true
  | _ => false
  end.

Module SampleRows2.

Definition renamed : TypeRow :=
  {| oid := "23"; typeName := "integer"; typeKind := "b";
     enumLabel := EmptyString;
     typeCategory := Some "N"; elementTypeOid := Some "0" |}.

Definition rows : list TypeRow := [SampleRows.int4; renamed].

End SampleRows2.

(** What the SASL exchange adds to the handshake when it runs to the
    ready-for-query that ends the drain loop. *)
Definition sasl_events (initialSASLResponse SASLContinueResponse : string)
    (SASLData finalData : string) (drained : list ServerMessage)
    (trxStatus : string) : list Event :=
  ([ Sent (messages.SASLInitialResponse SCRAM_SHA_256
             (Z.of_nat (String.length initialSASLResponse))
             initialSASLResponse);
     Received (SASLContinue SASLData);
     Sent (messages.SASLResponse SASLContinueResponse);
     Received (AuthenticationSASLFinal finalData);
     Received AuthenticationOk ]
   ++ List.map Received drained
   ++ [Received (ReadyForQuery trxStatus)])%list.

(** * Properties *)

(** ** Identifier escaper *)

Lemma last_char_app_single (s : string) (c : ascii) :
  Str.last_char (s ++ String c EmptyString) = Some c.
Proof.
  induction s as [|d s IH]; simpl; [reflexivity|].
  rewrite IH. destruct s; reflexivity.
Qed.

Lemma drop_last_app_single (s : string) (c : ascii) :
  Str.drop_last (s ++ String c EmptyString) = s.
Proof.
  induction s as [|d s IH]; simpl; [reflexivity|].
  rewrite IH. destruct s; reflexivity.
Qed.

Lemma strip_outer_quotes_escape (str : string) :
  Unescape.strip_outer_quotes (escapeSqlIdentifier str)
  = Some (Str.replace_chars quote_or_nul
            (String Str.dquote (String Str.dquote EmptyString)) str).
Proof.
  unfold escapeSqlIdentifier, Unescape.strip_outer_quotes.
  rewrite Ascii.eqb_refl, last_char_app_single, Ascii.eqb_refl.
  now rewrite drop_last_app_single.
Qed.

Lemma collapse_doubled (rest : string) :
  Unescape.collapse_doubled_quotes
    (String Str.dquote (String Str.dquote EmptyString) ++ rest)
  = String Str.dquote (Unescape.collapse_doubled_quotes rest).
Proof. reflexivity. Qed.

Lemma collapse_other (c : ascii) (rest : string) :
  c <> Str.dquote ->
  Unescape.collapse_doubled_quotes (String c rest)
  = String c (Unescape.collapse_doubled_quotes rest).
Proof.
  intros Hc. destruct rest as [|d rest]; [reflexivity|].
  change (Unescape.collapse_doubled_quotes (String c (String d rest)))
    with (if Ascii.eqb c Str.dquote && Ascii.eqb d Str.dquote
          then String Str.dquote (Unescape.collapse_doubled_quotes rest)
          else String c (Unescape.collapse_doubled_quotes (String d rest))).
  apply Ascii.eqb_neq in Hc. now rewrite Hc.
Qed.

Lemma collapse_replace (str : string) :
  Unescape.collapse_doubled_quotes
    (Str.replace_chars quote_or_nul
       (String Str.dquote (String Str.dquote EmptyString)) str)
  = Str.map nul_as_quote str.
Proof.
  induction str as [|c str IH]; [reflexivity|].
  change (Str.map nul_as_quote (String c str))
    with (String (nul_as_quote c) (Str.map nul_as_quote str)).
  change (Str.replace_chars quote_or_nul
            (String Str.dquote (String Str.dquote EmptyString)) (String c str))
    with (if quote_or_nul c
          then String Str.dquote (String Str.dquote EmptyString)
               ++ Str.replace_chars quote_or_nul
                    (String Str.dquote (String Str.dquote EmptyString)) str
          else String c
                 (Str.replace_chars quote_or_nul
                    (String Str.dquote (String Str.dquote EmptyString)) str)).
  unfold quote_or_nul at 1, nul_as_quote at 1.
  destruct (Ascii.eqb_spec c Str.dquote) as [->|Hq].
  - cbn [orb]. rewrite collapse_doubled, IH. reflexivity.
  - destruct (Ascii.eqb_spec c Str.nul) as [->|Hn].
    + cbn [orb]. rewrite collapse_doubled, IH. reflexivity.
    + cbn [orb]. rewrite collapse_other, IH by assumption. reflexivity.
Qed.

Lemma map_nul_as_quote_id (str : string) :
  Str.mem Str.nul str = false -> Str.map nul_as_quote str = str.
Proof.
  induction str as [|c str IH]; [reflexivity|].
  cbn [Str.mem Str.map]. intros H.
  apply orb_false_iff in H as [Hc Hs].
  unfold nul_as_quote at 1. rewrite Ascii.eqb_sym, Hc, IH by assumption.
  reflexivity.
Qed.

(** Un-escaping the escaper's output gives the string back with every NUL
    turned into a double quote. *)
Lemma unescape_escapeSqlIdentifier (str : string) :
  Unescape.unescape (escapeSqlIdentifier str)
  = Some (Str.map nul_as_quote str).
Proof.
  unfold Unescape.unescape.
  rewrite strip_outer_quotes_escape. cbn [option_map].
  now rewrite collapse_replace.
Qed.

(** C4, as stated, fails at the one-character string holding a NUL: the
    escaper writes the NUL as a doubled double quote, and un-escaping yields
    a double quote, not the NUL. *)
Lemma escapeSqlIdentifier_roundtrip_nul_counterexample :
  Unescape.unescape (escapeSqlIdentifier (String Str.nul EmptyString))
  = Some (String Str.dquote EmptyString)
  /\ Unescape.unescape (escapeSqlIdentifier (String Str.nul EmptyString))
     <> Some (String Str.nul EmptyString).
Proof. split; [reflexivity | discriminate]. Qed.

(** C4 (amended): for every string that holds no NUL character, un-escaping
    the output of [escapeSqlIdentifier] (strip the outer double quotes, then
    collapse every doubled double quote) reproduces the string exactly. *)
Theorem escapeSqlIdentifier_roundtrip (str : string) :
  Str.mem Str.nul str = false ->
  Unescape.unescape (escapeSqlIdentifier str) = Some str.
Proof.
  intros H. rewrite unescape_escapeSqlIdentifier.
  now rewrite map_nul_as_quote_id.
Qed.

Lemma escapeSqlIdentifier_roundtrip_witness :
  Str.mem Str.nul ("my" ++ String Str.dquote "col") = false
  /\ Unescape.unescape (escapeSqlIdentifier ("my" ++ String Str.dquote "col"))
     = Some ("my" ++ String Str.dquote "col").
Proof.
  split; [reflexivity|].
  apply (escapeSqlIdentifier_roundtrip ("my" ++ String Str.dquote "col")).
  reflexivity.
Defined.

(** ** MD5 credential hasher *)

Lemma prefix_append (a b : string) : String.prefix a (a ++ b) = true.
Proof.
  induction a as [|c a IH].
  - now destruct b.
  - change (String.prefix (String c a) (String c (a ++ b)) = true).
    cbn [String.prefix].
    destruct (ascii_dec c c) as [_|Hne]; [exact IH | now destruct Hne].
Qed.

(** The password and the user name enter the hash as one concatenated text. *)
Lemma generateHash_concat (u p u' p' s : string) :
  p ++ u = p' ++ u' -> generateHash u' p' s = generateHash u p s.
Proof. unfold generateHash. intros <-. reflexivity. Qed.

(** C7, as stated, fails in its last part.  Moving a character from the user
    name to the password changes both and leaves the hash as it was; and the
    user names [u1] and [u2] below, which differ in one letter, give the same
    hash with the same password and salt, because the two concatenations are
    a collision of MD5. *)
Lemma generateHash_changes_counterexample :
  let s := "salt" in
  let p := "TEXTCOLLBYfGiJUETHQ4h" in
  let u1 := "AcKSMd5zYpgqf1YRDhkmxHkhPWptrkoyz28wnI9V0aHeAuaKnak" in
  let u2 := "EcKSMd5zYpgqf1YRDhkmxHkhPWptrkoyz28wnI9V0aHeAuaKnak" in
  ("bc" <> "c" /\ "a" <> "ab"
   /\ generateHash "bc" "a" s = generateHash "c" "ab" s)
  /\ (u1 <> u2 /\ generateHash u1 p s = generateHash u2 p s).
Proof.
  cbv zeta. split.
  - split; [discriminate|]. split; [discriminate|].
    symmetry. apply generateHash_concat. reflexivity.
  - split; [discriminate|]. vm_compute. reflexivity.
Qed.

(** C7 (amended): for every user name, password and salt, [generateHash] is
    the text md5 followed by the lowercase hexadecimal MD5 of (the lowercase
    hexadecimal MD5 of password+username, followed by the salt bytes);
    consequently it always starts with the prefix md5, and it is determined
    by the salt and the concatenation password+username (so it is
    deterministic; it need not change when the user name or the password
    changes). *)
Theorem generateHash_spec (u p s : string) :
  generateHash u p s
  = "md5" ++ Crypto.hex (Crypto.md5 (Crypto.hex (Crypto.md5 (p ++ u)) ++ s))
  /\ String.prefix "md5" (generateHash u p s) = true
  /\ (forall u' p', p ++ u = p' ++ u' ->
        generateHash u' p' s = generateHash u p s).
Proof.
  split; [reflexivity|]. split.
  - apply prefix_append.
  - intros u' p'. apply generateHash_concat.
Qed.

Lemma generateHash_spec_witness :
  "secret" ++ "alice" = "sec" ++ "retalice"
  /\ generateHash "retalice" "sec" "salt" = generateHash "alice" "secret" "salt".
Proof.
  split; [reflexivity|].
  apply (proj2 (proj2 (generateHash_spec "alice" "secret" "salt"))).
  reflexivity.
Defined.

(** ** Catalog aggregation *)

(** From here on [++] is the append of lists; [+:+] is that of strings. *)
Local Close Scope string_scope.

(** Indexing finds an own entry first, and an inherited member only where
    the object has no entry of its own. *)
Lemma object_get_own (obj : gmap string MappableType) (key : string)
    (v : MappableType) :
  obj !! key = Some v -> object_get obj key = Some v.
Proof. intros H. unfold object_get. now rewrite H. Qed.

Lemma object_get_own_key (obj : gmap string MappableType) (key : string) :
  Js.inherited key = false -> object_get obj key = obj !! key.
Proof. intros H. unfold object_get. rewrite H. now destruct (obj !! key). Qed.

Lemma object_get_not_own (obj : gmap string MappableType) (key : string)
    (v : MappableType) :
  obj !! key = None -> object_get obj key = Some v -> v = Inherited key.
Proof.
  intros H. unfold object_get. rewrite H.
  destruct (Js.inherited key); [now intros [= <-] | discriminate].
Qed.

Lemma catalog_key_inherited (key : string) :
  catalog_key key = true -> Js.inherited key = false.
Proof.
  unfold catalog_key. intros H. apply andb_true_iff in H as [_ H].
  now apply negb_true_iff in H.
Qed.

Section CatalogProperties.

Variable K : string.

Lemma enumTypes_of_snoc (rows : list TypeRow) (r : TypeRow) :
  enumTypes_of K (rows ++ [r])
  = if is_enum_row K r then enumTypes_step (enumTypes_of K rows) r
    else enumTypes_of K rows.
Proof.
  unfold enumTypes_of. rewrite List.filter_app. cbn [List.filter].
  destruct (is_enum_row K r).
  - now rewrite fold_left_app.
  - now rewrite app_nil_r.
Qed.

Lemma enum_rows_of_snoc (o : string) (rows : list TypeRow) (r : TypeRow) :
  enum_rows_of K o (rows ++ [r])
  = enum_rows_of K o rows
    ++ (if is_enum_row K r && String.eqb (oid r) o then [r] else []).
Proof.
  unfold enum_rows_of. rewrite List.filter_app. cbn [List.filter].
  now destruct (is_enum_row K r && String.eqb (oid r) o).
Qed.

Lemma rows_of_snoc (o : string) (rows : list TypeRow) (r : TypeRow) :
  rows_of o (rows ++ [r])
  = rows_of o rows ++ (if String.eqb (oid r) o then [r] else []).
Proof.
  unfold rows_of. rewrite List.filter_app. cbn [List.filter].
  now destruct (String.eqb (oid r) o).
Qed.

(** The first pass: an oid is in the table of enums exactly when it has a
    row of enum type-kind, and then with the labels of those rows in row
    order, under the type name of the last of them. *)
Lemma enumTypes_of_lookup (rows : list TypeRow) (o : string) :
  enumTypes_of K rows !! o
  = (fun r => Enum (typeName r) (List.map enumLabel (enum_rows_of K o rows)))
      <$> last (enum_rows_of K o rows).
Proof.
  induction rows as [|r rows IH] using rev_ind; [reflexivity|].
  rewrite enumTypes_of_snoc, enum_rows_of_snoc.
  destruct (is_enum_row K r) eqn:Er; cbn [andb].
  - unfold enumTypes_step.
    destruct (String.eqb_spec (oid r) o) as [<-|Hne].
    + rewrite lookup_insert_eq, last_snoc. cbn [fmap option_fmap option_map].
      f_equal. f_equal. rewrite List.map_app. cbn [List.map]. f_equal.
      unfold object_get. rewrite IH.
      destruct (last (enum_rows_of K (oid r) rows)) as [r'|] eqn:El;
        cbn [fmap option_fmap option_map default isEnum enumValues_of].
      * reflexivity.
      * apply last_None in El. rewrite El.
        now destruct (Js.inherited (oid r)).
    + rewrite lookup_insert_ne by assumption. now rewrite app_nil_r.
  - now rewrite app_nil_r.
Qed.

Lemma enumTypes_of_is_enum (rows : list TypeRow) (o : string)
    (t : MappableType) :
  enumTypes_of K rows !! o = Some t ->
  exists r, last (enum_rows_of K o rows) = Some r
            /\ t = Enum (typeName r)
                     (List.map enumLabel (enum_rows_of K o rows)).
Proof.
  rewrite enumTypes_of_lookup.
  destruct (last (enum_rows_of K o rows)) as [r|]; [|discriminate].
  cbn. intros [= <-]. eauto.
Qed.

Lemma enum_rows_of_rows_of (o : string) (rows : list TypeRow) (r : TypeRow) :
  In r (enum_rows_of K o rows) -> In r (rows_of o rows) /\ is_enum_row K r = true.
Proof.
  unfold enum_rows_of, rows_of. rewrite !List.filter_In.
  intros [Hin H]. apply andb_true_iff in H. tauto.
Qed.

(** The second pass inserts at the oid of the row, whatever the branch. *)
Lemma typeMap_step_other (E m : gmap string MappableType) (r : TypeRow)
    (o : string) :
  oid r <> o -> typeMap_step E m r !! o = m !! o.
Proof.
  intros Hne. unfold typeMap_step.
  repeat case_match; now rewrite lookup_insert_ne.
Qed.

Lemma typeMap_step_same (E m : gmap string MappableType) (r : TypeRow) :
  typeMap_step E m r !! oid r
  = Some match object_get E (oid r) with
         | Some e => e
         | None =>
             match elementEnum_of E r with
             | Some e => Array (typeName r) e
             | None => default (Scalar (typeName r)) (object_get m (oid r))
             end
         end.
Proof.
  unfold typeMap_step, elementEnum_of.
  repeat case_match; now rewrite lookup_insert_eq.
Qed.

Lemma second_pass_snoc (E : gmap string MappableType) (rows : list TypeRow)
    (r : TypeRow) :
  second_pass E (rows ++ [r]) = typeMap_step E (second_pass E rows) r.
Proof. unfold second_pass. now rewrite fold_left_app. Qed.

Lemma second_pass_dom (E : gmap string MappableType) (rows : list TypeRow)
    (o : string) :
  is_Some (second_pass E rows !! o) <-> rows_of o rows <> [].
Proof.
  induction rows as [|r rows IH] using rev_ind.
  - cbn. rewrite lookup_empty. split; [intros [? ?]; discriminate | tauto].
  - rewrite second_pass_snoc, rows_of_snoc.
    destruct (String.eqb_spec (oid r) o) as [<-|Hne].
    + rewrite typeMap_step_same. split; [|eauto].
      intros _ H. now apply app_eq_nil in H as [_ ?].
    + rewrite typeMap_step_other by assumption. now rewrite app_nil_r.
Qed.

Lemma second_pass_enum (E : gmap string MappableType) (rows : list TypeRow)
    (o : string) (e : MappableType) :
  E !! o = Some e -> rows_of o rows <> [] -> second_pass E rows !! o = Some e.
Proof.
  intros HE. induction rows as [|r rows IH] using rev_ind; [now cbn|].
  rewrite second_pass_snoc, rows_of_snoc.
  destruct (String.eqb_spec (oid r) o) as [<-|Hne].
  - intros _. now rewrite typeMap_step_same, (object_get_own _ _ _ HE).
  - rewrite typeMap_step_other by assumption. now rewrite app_nil_r.
Qed.

Lemma second_pass_single (E : gmap string MappableType)
    (rows : list TypeRow) (o : string) (r : TypeRow) :
  E !! o = None -> Js.inherited o = false -> rows_of o rows = [r] ->
  second_pass E rows !! o
  = Some match elementEnum_of E r with
         | Some e => Array (typeName r) e
         | None => Scalar (typeName r)
         end.
Proof.
  intros HE Ho. induction rows as [|x rows IH] using rev_ind; [discriminate|].
  rewrite second_pass_snoc, rows_of_snoc.
  destruct (String.eqb_spec (oid x) o) as [<-|Hne].
  - intros H.
    destruct (rows_of (oid x) rows) as [|y l] eqn:Ey.
    + injection H as ->.
      rewrite typeMap_step_same, !object_get_own_key, HE by assumption.
      assert (second_pass E rows !! oid r = None) as ->; [|reflexivity].
      apply eq_None_not_Some. rewrite second_pass_dom. tauto.
    + destruct l; discriminate.
  - rewrite typeMap_step_other by assumption. now rewrite app_nil_r.
Qed.

(** Only the table of enums puts an enum into the result. *)
Lemma second_pass_not_enum (E : gmap string MappableType)
    (rows : list TypeRow) (o : string) (t : MappableType) :
  E !! o = None -> second_pass E rows !! o = Some t -> isEnum t = false.
Proof.
  intros HE. revert t.
  induction rows as [|r rows IH] using rev_ind; [now cbn|].
  intros t. rewrite second_pass_snoc.
  destruct (String.eqb_spec (oid r) o) as [<-|Hne].
  - rewrite typeMap_step_same. intros [= <-].
    destruct (object_get E (oid r)) as [e|] eqn:Hg.
    { now rewrite (object_get_not_own _ _ _ HE Hg). }
    destruct (elementEnum_of E r); [reflexivity|].
    destruct (second_pass E rows !! oid r) as [v|] eqn:El.
    + rewrite (object_get_own _ _ _ El). cbn. now apply IH.
    + destruct (object_get (second_pass E rows) (oid r)) as [v|] eqn:Hv;
        [|reflexivity].
      now rewrite (object_get_not_own _ _ _ El Hv).
  - rewrite typeMap_step_other by assumption. apply IH.
Qed.

(** Over rows whose keys are those of the catalog, and a table that holds
    enums only, every entry of the result is a mappable type. *)
Lemma second_pass_mappable (E : gmap string MappableType)
    (rows : list TypeRow) :
  (forall k v, E !! k = Some v -> isEnum v = true) ->
  forallb (catalog_row K) rows = true ->
  forall o t, second_pass E rows !! o = Some t -> mappable t = true.
Proof.
  intros HE. induction rows as [|x rows IH] using rev_ind; intros Hrows o t;
    [now cbn|].
  rewrite forallb_app in Hrows. apply andb_true_iff in Hrows as [Hrows Hx].
  cbn [forallb] in Hx. rewrite andb_true_r in Hx.
  unfold catalog_row in Hx.
  apply andb_true_iff in Hx as [Hx _]. apply andb_true_iff in Hx as [Hk Hel].
  apply catalog_key_inherited in Hk.
  rewrite second_pass_snoc.
  destruct (String.eqb_spec (oid x) o) as [<-|Hne].
  - rewrite typeMap_step_same, !object_get_own_key by assumption.
    intros [= <-].
    destruct (E !! oid x) as [e|] eqn:He.
    { specialize (HE _ _ He). now destruct e. }
    destruct (elementEnum_of E x) as [e|] eqn:Hee.
    + unfold elementEnum_of in Hee.
      destruct (_ && _); [|discriminate].
      destruct (elementTypeOid x) as [k|]; [|discriminate].
      cbn in Hee. apply catalog_key_inherited in Hel.
      rewrite object_get_own_key in Hee by assumption.
      specialize (HE _ _ Hee). now destruct e.
    + destruct (second_pass E rows !! oid x) as [v|] eqn:Hv; [|reflexivity].
      cbn. exact (IH Hrows _ _ Hv).
  - rewrite typeMap_step_other by assumption. now apply IH.
Qed.

End CatalogProperties.

Lemma rows_of_nonempty (o : string) (rows : list TypeRow) :
  rows_of o rows <> [] <-> In o (List.map oid rows).
Proof.
  rewrite List.in_map_iff. split.
  - intros H. destruct (rows_of o rows) as [|r l] eqn:E; [tauto|].
    assert (In r (rows_of o rows)) as Hin by (rewrite E; now left).
    apply List.filter_In in Hin as [Hin Ho].
    apply String.eqb_eq in Ho. eauto.
  - intros (r & Ho & Hin) E.
    assert (In r (rows_of o rows)) as Hr.
    { apply List.filter_In. split; [assumption|]. now apply String.eqb_eq. }
    rewrite E in Hr. destruct Hr.
Qed.

(** An oid of the result is an enum exactly when the table of enums has it. *)
Lemma reduceTypeRows_enum_inv (K : string) (rows : list TypeRow) (o n : string)
    (vs : list string) :
  reduceTypeRows K rows !! o = Some (Enum n vs) ->
  enumTypes_of K rows !! o = Some (Enum n vs).
Proof.
  intros H. change (second_pass (enumTypes_of K rows) rows !! o
                    = Some (Enum n vs)) in H.
  destruct (enumTypes_of K rows !! o) as [e|] eqn:HE.
  - assert (rows_of o rows <> []) as Hne
      by (apply (second_pass_dom (enumTypes_of K rows)); eauto).
    now rewrite (second_pass_enum _ _ _ e HE Hne) in H.
  - now apply second_pass_not_enum in H.
Qed.

Lemma elementEnum_of_None (K : string) (rows : list TypeRow) (r : TypeRow) :
  own_element r = true ->
  ~ is_array_of_enum K rows r ->
  elementEnum_of (enumTypes_of K rows) r = None.
Proof.
  intros Hown Hn. unfold elementEnum_of.
  destruct (bool_decide_reflect (typeCategory r = Some TypeCategory_ARRAY))
    as [Hc|]; [|reflexivity].
  unfold own_element in Hown.
  destruct (elementTypeOid r) as [e|] eqn:He; [|reflexivity].
  destruct (Js.truthy (Some e)) eqn:Ht; [|reflexivity].
  apply negb_true_iff in Hown.
  cbn. rewrite object_get_own_key by assumption.
  destruct (enumTypes_of K rows !! e) as [t|] eqn:HE; [|reflexivity].
  exfalso. apply Hn. split; [assumption|].
  destruct (enumTypes_of_is_enum _ _ _ _ HE) as (r' & Hl & ->).
  exists e, (typeName r'), (List.map enumLabel (enum_rows_of K e rows)).
  split; [assumption|]. split; [intros ->; discriminate|].
  apply second_pass_enum; [assumption|].
  apply last_Some in Hl as [l' Hl].
  assert (In r' (enum_rows_of K e rows)) as Hin
    by (rewrite Hl; apply List.in_or_app; right; now left).
  apply enum_rows_of_rows_of in Hin as [Hin _].
  intros Hnil. rewrite Hnil in Hin. destruct Hin.
Qed.

Lemma catalog_row_In (K : string) (rows : list TypeRow) (o : string)
    (r : TypeRow) :
  forallb (catalog_row K) rows = true ->
  In r (rows_of o rows) ->
  catalog_key o = true
  /\ own_element r = true
  /\ (is_enum_row K r = true -> typeCategory r <> Some TypeCategory_ARRAY).
Proof.
  intros Hrows Hin. apply List.filter_In in Hin as [Hin Ho].
  apply String.eqb_eq in Ho as <-.
  rewrite forallb_forall in Hrows. specialize (Hrows _ Hin).
  unfold catalog_row in Hrows.
  apply andb_true_iff in Hrows as [Hrows Hk].
  apply andb_true_iff in Hrows as [Ho He].
  split; [assumption|]. split.
  - unfold own_element. destruct (elementTypeOid r) as [e|]; [|reflexivity].
    apply catalog_key_inherited in He. now rewrite He.
  - intros Hen Hc. rewrite Hen, bool_decide_eq_true_2 in Hk by assumption.
    discriminate.
Qed.

(** Outside the rows of the catalog the aggregation goes other ways: an oid
    in the table of enums maps to its enum even where its row has the array
    category and an element type that resolved to an enum; an oid that names
    a member of [Object.prototype] maps to that member; and an array row
    whose element type oid names one wraps that member. *)
Lemma reduceTypeRows_outside_catalog :
  reduceTypeRows "e" [SampleRows.odd] !! "1" = Some (Enum "t" ["a"])
  /\ reduceTypeRows "e" [SampleRows.named_constructor] !! "constructor"
     = Some (Inherited "constructor")
  /\ reduceTypeRows "e" [SampleRows.array_of_toString] !! "400"
     = Some (Array "_x" (Inherited "toString")).
Proof. repeat split; vm_compute; reflexivity. Qed.

(** C5: for every list of rows of the types catalog, [reduceTypeRows] maps
    each oid of a row to exactly one mappable type, where: an oid that has
    rows of enum type-kind maps to an Enum whose label sequence lists each of
    those rows' [enumLabel] exactly once in row order; an oid whose single
    row is non-enum and not an array of enum maps to a Scalar named by the
    row's type name; and an oid whose row has type-category A and an element
    type oid that resolved to an Enum maps to an Array wrapping that Enum. *)
Theorem reduceTypeRows_spec (DatabaseTypeKind_Enum : string)
    (typeRows : list TypeRow) :
  forallb (catalog_row DatabaseTypeKind_Enum) typeRows = true ->
  let result := reduceTypeRows DatabaseTypeKind_Enum typeRows in
  (forall o, In o (List.map oid typeRows) ->
     exists t, result !! o = Some t
               /\ mappable t = true
               /\ forall t', result !! o = Some t' -> t' = t)
  /\ (forall o, enum_rows_of DatabaseTypeKind_Enum o typeRows <> [] ->
        exists n,
          result !! o
          = Some (Enum n (List.map enumLabel
                            (enum_rows_of DatabaseTypeKind_Enum o typeRows))))
  /\ (forall o r,
        rows_of o typeRows = [r] ->
        is_enum_row DatabaseTypeKind_Enum r = false ->
        ~ is_array_of_enum DatabaseTypeKind_Enum typeRows r ->
        result !! o = Some (Scalar (typeName r)))
  /\ (forall o r e n vs,
        rows_of o typeRows = [r] ->
        typeCategory r = Some TypeCategory_ARRAY ->
        elementTypeOid r = Some e ->
        result !! e = Some (Enum n vs) ->
        result !! o = Some (Array (typeName r) (Enum n vs))).
Proof.
  set (K := DatabaseTypeKind_Enum). set (rows := typeRows).
  intros Hcat. cbv zeta.
  assert (forall o r, rows_of o rows = [r] -> is_enum_row K r = false ->
                      enumTypes_of K rows !! o = None) as Hnone.
  { intros o r Hr Hk. rewrite enumTypes_of_lookup.
    destruct (last (enum_rows_of K o rows)) as [r'|] eqn:El; [|reflexivity].
    apply last_Some in El as [l' El].
    assert (In r' (enum_rows_of K o rows)) as Hin
      by (rewrite El; apply List.in_or_app; right; now left).
    apply enum_rows_of_rows_of in Hin as [Hin Hk'].
    rewrite Hr in Hin. destruct Hin as [<-|[]]. congruence. }
  assert (forall o r, rows_of o rows = [r] ->
                      catalog_key o = true /\ own_element r = true
                      /\ (is_enum_row K r = true ->
                          typeCategory r <> Some TypeCategory_ARRAY)) as Hrow.
  { intros o r Hr. apply (catalog_row_In K rows); [assumption|].
    rewrite Hr. now left. }
  split; [|split; [|split]].
  - intros o Ho. apply rows_of_nonempty in Ho.
    apply (second_pass_dom (enumTypes_of K rows)) in Ho as [t Ht].
    exists t. split; [exact Ht|]. split.
    + apply (second_pass_mappable K (enumTypes_of K rows) rows) with (o := o);
        [|assumption|assumption].
      intros k v Hv.
      destruct (enumTypes_of_is_enum _ _ _ _ Hv) as (r & _ & ->). reflexivity.
    + intros t' Ht'. change (reduceTypeRows K rows) with
        (second_pass (enumTypes_of K rows) rows) in Ht'. congruence.
  - intros o Hne.
    destruct (last (enum_rows_of K o rows)) as [r|] eqn:El;
      [|now apply last_None in El].
    exists (typeName r). apply second_pass_enum.
    + now rewrite enumTypes_of_lookup, El.
    + apply last_Some in El as [l' El].
      assert (In r (enum_rows_of K o rows)) as Hin
        by (rewrite El; apply List.in_or_app; right; now left).
      apply enum_rows_of_rows_of in Hin as [Hin _].
      intros Hnil. rewrite Hnil in Hin. destruct Hin.
  - intros o r Hr Hk Hna.
    destruct (Hrow o r Hr) as (Ho & Hown & _).
    apply catalog_key_inherited in Ho.
    change (reduceTypeRows K rows) with (second_pass (enumTypes_of K rows) rows).
    rewrite (second_pass_single _ _ _ r) by eauto.
    now rewrite elementEnum_of_None.
  - intros o r e n vs Hr Hc He Hres.
    destruct (Hrow o r Hr) as (Ho & Hown & Hen).
    apply catalog_key_inherited in Ho.
    assert (is_enum_row K r = false) as Hk.
    { destruct (is_enum_row K r); [|reflexivity]. now destruct Hen. }
    assert (catalog_key e = true) as Hke.
    { assert (rows_of e rows <> []) as Hin.
      { apply (second_pass_dom (enumTypes_of K rows)).
        change (is_Some (reduceTypeRows K rows !! e)). rewrite Hres. eauto. }
      destruct (rows_of e rows) as [|r' l'] eqn:Er; [tauto|].
      apply (catalog_row_In K rows e r'); [assumption|].
      rewrite Er. now left. }
    apply reduceTypeRows_enum_inv in Hres.
    change (reduceTypeRows K rows) with (second_pass (enumTypes_of K rows) rows).
    rewrite (second_pass_single _ _ _ r) by eauto.
    unfold elementEnum_of. rewrite Hc, He.
    rewrite bool_decide_eq_true_2 by reflexivity.
    unfold catalog_key in Hke. apply andb_true_iff in Hke as [Hne Hinh].
    apply negb_true_iff in Hinh.
    destruct e; [discriminate|]. cbn.
    now rewrite (object_get_own _ _ _ Hres).
Qed.

Lemma reduceTypeRows_spec_witness :
  forallb (catalog_row "e") SampleRows.rows = true
  /\ (exists t, reduceTypeRows "e" SampleRows.rows !! "23" = Some t
                /\ mappable t = true)
  /\ (enum_rows_of "e" "100" SampleRows.rows <> []
      /\ exists n, reduceTypeRows "e" SampleRows.rows !! "100"
                   = Some (Enum n ["a"; "b"]))
  /\ (rows_of "23" SampleRows.rows = [SampleRows.int4]
      /\ is_enum_row "e" SampleRows.int4 = false
      /\ ~ is_array_of_enum "e" SampleRows.rows SampleRows.int4
      /\ reduceTypeRows "e" SampleRows.rows !! "23" = Some (Scalar "int4"))
  /\ (rows_of "300" SampleRows.rows = [SampleRows.mood_array]
      /\ typeCategory SampleRows.mood_array = Some TypeCategory_ARRAY
      /\ elementTypeOid SampleRows.mood_array = Some "100"
      /\ reduceTypeRows "e" SampleRows.rows !! "100"
         = Some (Enum "mood" ["a"; "b"])
      /\ reduceTypeRows "e" SampleRows.rows !! "300"
         = Some (Array "_mood" (Enum "mood" ["a"; "b"]))).
Proof.
  assert (forallb (catalog_row "e") SampleRows.rows = true) as Hcat
    by reflexivity.
  destruct (reduceTypeRows_spec "e" SampleRows.rows Hcat)
    as (H1 & H2 & H3 & H4).
  assert (enum_rows_of "e" "100" SampleRows.rows <> []) as Hne
    by discriminate.
  assert (~ is_array_of_enum "e" SampleRows.rows SampleRows.int4) as Hna
    by (intros [Hc _]; discriminate).
  assert (reduceTypeRows "e" SampleRows.rows !! "100"
          = Some (Enum "mood" ["a"; "b"])) as He
    by (vm_compute; reflexivity).
  split; [exact Hcat|]. split; [|split; [|split]].
  - destruct (H1 "23") as (t & Ht & Hm & _);
      [right; right; now left | eauto].
  - split; [exact Hne | exact (H2 "100" Hne)].
  - split; [reflexivity|]. split; [reflexivity|]. split; [exact Hna|].
    exact (H3 "23" SampleRows.int4 eq_refl eq_refl Hna).
  - split; [reflexivity|]. split; [reflexivity|]. split; [reflexivity|].
    split; [exact He|].
    exact (H4 "300" SampleRows.mood_array "100" "mood" ["a"; "b"]
              eq_refl eq_refl eq_refl He).
Defined.

(** ** The channel *)

Section ChannelProperties.

Variable unexpectedMessage : list messages.kind -> ServerMessage -> Js.Exn.

Local Abbreviation reply := (reply unexpectedMessage).
Local Abbreviation runQuery := (runQuery unexpectedMessage).
Local Abbreviation getTypeData := (getTypeData unexpectedMessage).
Local Abbreviation explainQuery := (explainQuery unexpectedMessage).

Lemma with_events_nil (w : World) :
  with_events w [] (incoming w) = w.
Proof. destruct w. unfold with_events. cbn. now rewrite app_nil_r. Qed.

Lemma with_events_app (w : World) (evs evs' : list Event)
    (rest rest' : list ServerMessage) :
  with_events (with_events w evs rest) evs' rest'
  = with_events w (evs ++ evs') rest'.
Proof. unfold with_events. cbn. now rewrite app_assoc. Qed.

Lemma send_eq (m : messages.client) (w : World) :
  send m w = (Returned tt, with_events w [Sent m] (incoming w)).
Proof. reflexivity. Qed.

Lemma with_events_incoming (w : World) (evs : list Event)
    (rest : list ServerMessage) :
  incoming (with_events w evs rest) = rest.
Proof. reflexivity. Qed.

Lemma bind_send {B} (m : messages.client) (f : unit -> Async B) (w : World) :
  (send m ≫= f) w = f tt (with_events w [Sent m] (incoming w)).
Proof. reflexivity. Qed.

Lemma reply_cons (types : list messages.kind) (w : World) (m : ServerMessage)
    (rest : list ServerMessage) :
  incoming w = m :: rest ->
  reply types w
  = (if expected m types then Returned m
     else Thrown (unexpectedMessage types m),
     with_events w [Received m] rest).
Proof.
  intros H. unfold reply. rewrite H. now destruct (expected m types).
Qed.

Lemma reply_nil (types : list messages.kind) (w : World) :
  incoming w = [] -> reply types w = (Pending, w).
Proof. intros H. unfold reply. now rewrite H. Qed.

Lemma bind_reply_cons {B} (types : list messages.kind)
    (f : ServerMessage -> Async B) (w : World) (m : ServerMessage)
    (rest : list ServerMessage) :
  incoming w = m :: rest -> expected m types = true ->
  (reply types ≫= f) w = f m (with_events w [Received m] rest).
Proof.
  intros H He. unfold mbind, Async_bind.
  now rewrite (reply_cons _ _ _ _ H), He.
Qed.

Lemma only_receives_ret {A} (a : A) : only_receives (mret a : Async A).
Proof.
  intros w. exists [], (incoming w). split; [|reflexivity].
  cbn. now rewrite with_events_nil.
Qed.

Lemma only_receives_reply (types : list messages.kind) :
  only_receives (reply types).
Proof.
  intros w. destruct (incoming w) as [|m rest] eqn:E.
  - rewrite reply_nil by assumption. exists [], []. split; [|reflexivity].
    cbn. now rewrite <- E, with_events_nil.
  - rewrite (reply_cons _ _ _ _ E). exists [Received m], rest. now split.
Qed.

Lemma only_receives_bind {A B} (m : Async A) (f : A -> Async B) :
  only_receives m -> (forall a, only_receives (f a)) ->
  only_receives (m ≫= f).
Proof.
  intros Hm Hf w. destruct (Hm w) as (evs & rest & Hw & Hr).
  unfold mbind, Async_bind.
  destruct (m w) as [[a| | |] w'] eqn:E; cbn in Hw; subst w';
    try (exists evs, rest; now split).
  destruct (Hf a (with_events w evs rest)) as (evs' & rest' & Hw' & Hr').
  exists (evs ++ evs'), rest'. split.
  - now rewrite Hw', with_events_app.
  - now rewrite forallb_app, Hr, Hr'.
Qed.

(** ** Type prober *)

Lemma expected_parse_reply (m : ServerMessage) :
  expected m [messages.errorResponse; messages.parseComplete] = true ->
  (exists errorFields, m = ErrorResponse errorFields) \/ m = ParseComplete.
Proof. destruct m; try discriminate; eauto. Qed.

(** C3: once the reply to the parse has arrived, be it an error response or
    parse-complete, the next thing [getTypeData] does is to send sync, and it
    sends nothing after it (all later events are arrivals); and when the
    reply was an error response it returns right after that sync, with no
    further reply awaited, the parse error whose errorCode, hint, message
    and position are the fields R, H, M and P of the payload. *)
Theorem getTypeData_sync (query : string) (w : World) (m : ServerMessage)
    (rest : list ServerMessage) :
  incoming w = m :: rest ->
  expected m [messages.errorResponse; messages.parseComplete] = true ->
  (exists evs rest',
     snd (getTypeData query w)
     = with_events w
         (probe_events query ++ [Received m; Sent messages.sync] ++ evs) rest'
     /\ forallb is_received evs = true)
  /\ (forall errorFields,
        m = ErrorResponse errorFields ->
        getTypeData query w
        = (Returned (inl {| errorCode := errorFields !! "R";
                            hint := errorFields !! "H";
                            message := errorFields !! "M";
                            position := errorFields !! "P" |}),
           with_events w
             (probe_events query ++ [Received m; Sent messages.sync]) rest)).
Proof.
  intros Hin Hexp.
  assert (forall k : ServerMessage -> Async TypeData,
            (send (messages.parse (uniqueName_of query) query []);;
             send (messages.describe (uniqueName_of query) Statement);;
             send (messages.close Statement (uniqueName_of query));;
             send messages.flush;;
             parseResult ← reply [messages.errorResponse; messages.parseComplete];
             send messages.sync;;
             k parseResult) w
            = k m (with_events w
                     (probe_events query ++ [Received m; Sent messages.sync])
                     rest)) as Hrun.
  { intros k. rewrite !bind_send.
    rewrite (bind_reply_cons _ _ _ m rest) by assumption.
    rewrite bind_send. cbn [with_events incoming trace console connectError].
    unfold with_events, probe_events. cbn [trace console connectError].
    now rewrite <- !app_assoc. }
  split.
  - unfold getTypeData. rewrite Hrun.
    destruct (expected_parse_reply m Hexp) as [[errorFields ->] | ->].
    + exists [], rest. now rewrite app_nil_r.
    + cbv beta iota.
      match goal with
      | |- context [snd (?k ?w0)] =>
          assert (only_receives k) as Hk;
          [ repeat first [ apply only_receives_bind; [|intros ?]
                         | apply only_receives_reply
                         | apply only_receives_ret ]
          | destruct (Hk w0) as (evs & rest' & Hw & Hr) ]
      end.
      exists evs, rest'. split; [|assumption].
      etransitivity; [exact Hw|].
      rewrite with_events_app. now rewrite <- app_assoc.
  - intros errorFields ->. unfold getTypeData. now rewrite Hrun.
Qed.

(** ** Explain validator *)

Lemma grows_ret {A} (a : A) : grows (mret a : Async A).
Proof. intros w. exists []. cbn. now rewrite app_nil_r. Qed.

Lemma grows_throw {A} (e : Js.Exn) : grows (throw e : Async A).
Proof. intros w. exists []. cbn. now rewrite app_nil_r. Qed.

Lemma grows_send (m : messages.client) : grows (send m).
Proof. intros w. now exists [Sent m]. Qed.

Lemma grows_reply (types : list messages.kind) : grows (reply types).
Proof.
  intros w. destruct (only_receives_reply types w) as (evs & rest & -> & _).
  now exists evs.
Qed.

Lemma grows_console_error (text : string) (value : option Js.Exn) :
  grows (console_error text value).
Proof. intros w. exists []. cbn. now rewrite app_nil_r. Qed.

Lemma grows_bind {A B} (m : Async A) (f : A -> Async B) :
  grows m -> (forall a, grows (f a)) -> grows (m ≫= f).
Proof.
  intros Hm Hf w. destruct (Hm w) as (evs & Hw).
  unfold mbind, Async_bind.
  destruct (m w) as [[a| | |] w'] eqn:E; cbn in Hw; try now exists evs.
  destruct (Hf a w') as (evs' & Hw').
  exists (evs ++ evs'). now rewrite Hw', Hw, app_assoc.
Qed.

Lemma grows_try_catch {A} (m : Async A) (h : Js.Exn -> Async A) :
  grows m -> (forall e, grows (h e)) -> grows (try_catch m h).
Proof.
  intros Hm Hh w. destruct (Hm w) as (evs & Hw).
  unfold try_catch.
  destruct (m w) as [[a|e| |] w'] eqn:E; cbn in Hw; try now exists evs.
  destruct (Hh e w') as (evs' & Hw').
  exists (evs ++ evs'). now rewrite Hw', Hw, app_assoc.
Qed.

Lemma grows_loop_rounds {S A} (body : S -> Async (S + A)) (rounds : nat) :
  (forall s, grows (body s)) -> forall s, grows (loop_rounds rounds body s).
Proof.
  intros Hb. induction rounds as [|n IH]; intros s w.
  - exists []. cbn. now rewrite app_nil_r.
  - destruct (Hb s w) as (evs & Hw). cbn [loop_rounds].
    destruct (body s w) as [[[s'|a]|e| |] w'] eqn:E; cbn in Hw;
      try now exists evs.
    destruct (IH s' w') as (evs' & Hw').
    exists (evs ++ evs'). now rewrite Hw', Hw, app_assoc.
Qed.

Lemma grows_while_true {S A} (body : S -> Async (S + A)) (s : S) :
  (forall s, grows (body s)) -> grows (while_true body s).
Proof. intros Hb w. unfold while_true. now apply grows_loop_rounds. Qed.

Lemma grows_row_round (resultRows : list (list string)) :
  grows (row_round unexpectedMessage resultRows).
Proof.
  apply grows_bind; [apply grows_reply|].
  intros []; first [apply grows_ret | apply grows_throw].
Qed.

Lemma grows_runQuery (query : string) : grows (runQuery query).
Proof.
  unfold runQuery.
  repeat first [ apply grows_bind; [|intros ?]
               | apply grows_send | apply grows_reply
               | apply grows_while_true; intros ?; apply grows_row_round ].
Qed.

Lemma try_finally_returned {A} (body : Async A) (cleanup : Async unit)
    (w w' : World) (v : A) :
  try_finally body cleanup w = (Returned v, w') ->
  exists w2, body w = (Returned v, w2) /\ cleanup w2 = (Returned tt, w').
Proof.
  unfold try_finally.
  destruct (body w) as [[a|e| |] w2]; try discriminate.
  - destruct (cleanup w2) as [[[]|e'| |] w3] eqn:E; try discriminate.
    intros [= -> ->]. eauto.
  - destruct (cleanup w2) as [[[]|e'| |] w3]; discriminate.
Qed.

Lemma expected_closeComplete (m : ServerMessage) :
  expected m [messages.closeComplete] = true -> m = CloseComplete.
Proof. now destruct m. Qed.

Lemma explain_finally_eq (query : string) (w : World) :
  explain_finally unexpectedMessage (uniqueName_of query) w
  = match incoming w with
    | [] =>
        (Pending,
         with_events w
           [ Sent (messages.close Statement (uniqueName_of query));
             Sent messages.flush; Sent messages.sync ] [])
    | m :: rest =>
        (if expected m [messages.closeComplete] then Returned tt
         else Thrown (unexpectedMessage [messages.closeComplete] m),
         with_events w
           [ Sent (messages.close Statement (uniqueName_of query));
             Sent messages.flush; Sent messages.sync; Received m ] rest)
    end.
Proof.
  unfold explain_finally. rewrite !bind_send.
  unfold mbind, Async_bind.
  destruct (incoming w) as [|m rest] eqn:E.
  - rewrite reply_nil by reflexivity.
    unfold with_events. cbn. now rewrite <- !app_assoc.
  - rewrite (reply_cons _ _ m rest) by reflexivity.
    destruct (expected m [messages.closeComplete]);
      unfold with_events; cbn; now rewrite <- !app_assoc.
Qed.

Lemma explain_finally_returned (query : string) (w w' : World) (u : unit) :
  explain_finally unexpectedMessage (uniqueName_of query) w = (Returned u, w') ->
  exists rest, incoming w = CloseComplete :: rest
               /\ w' = with_events w (cleanup_events query) rest.
Proof.
  rewrite explain_finally_eq.
  destruct (incoming w) as [|m rest]; [discriminate|].
  destruct (expected m [messages.closeComplete]) eqn:E; [|discriminate].
  apply expected_closeComplete in E as ->.
  intros [= _ <-]. eauto.
Qed.

Lemma explainQuery_after_parse (query : string) (data : TypeData.t)
    (w : World) (m : ServerMessage) (rest : list ServerMessage) :
  incoming w = m :: rest ->
  expected m [messages.errorResponse; messages.parseComplete] = true ->
  explainQuery query (inr data) w
  = try_finally
      (try_catch
         (explain_body unexpectedMessage (uniqueName_of query) data m)
         explain_catch)
      (explain_finally unexpectedMessage (uniqueName_of query))
      (after_parse query w m rest).
Proof.
  intros Hin Hexp. unfold explainQuery. rewrite !bind_send.
  rewrite (bind_reply_cons _ _ _ m rest) by assumption.
  f_equal. unfold after_parse, with_events. cbn. now rewrite <- !app_assoc.
Qed.

Lemma explainQuery_returned_inv (query : string) (data : TypeData.t)
    (w w' : World) (v : IParseError + list (option string)) :
  explainQuery query (inr data) w = (Returned v, w') ->
  exists m rest,
    incoming w = m :: rest
    /\ expected m [messages.errorResponse; messages.parseComplete] = true.
Proof.
  unfold explainQuery. rewrite !bind_send. unfold mbind at 1, Async_bind at 1.
  destruct (incoming w) as [|m rest] eqn:E.
  - rewrite reply_nil by reflexivity. discriminate.
  - rewrite (reply_cons _ _ m rest) by reflexivity.
    destruct (expected m _) eqn:He; [eauto | discriminate].
Qed.

(** The protected body with its handler: the three ways in which it
    completes, and the two in which it does not. *)
Lemma explain_try_catch_eq (query : string) (data : TypeData.t)
    (m : ServerMessage) (w1 : World) :
  expected m [messages.errorResponse; messages.parseComplete] = true ->
  try_catch (explain_body unexpectedMessage (uniqueName_of query) data m)
            explain_catch w1
  = match m with
    | ErrorResponse errorFields =>
        (Returned (inl (parseError_of errorFields)), w1)
    | _ =>
        match runQuery (explain_text (uniqueName_of query)
                          (length (TypeData.params data))) w1 with
        | (Returned explain, w2) =>
            (Returned (inr (List.map (fun e : list string => head e) explain)),
             w2)
        | (Thrown e, w2) =>
            (Returned (inl (normalized_error e)),
             with_console w2 (explain_console_line e))
        | (Pending, w2) => (Pending, w2)
        | (Exited c, w2) => (Exited c, w2)
        end
    end.
Proof.
  intros Hexp.
  destruct (expected_parse_reply m Hexp) as [[errorFields ->] | ->];
    [reflexivity|].
  unfold try_catch, explain_body, mbind, Async_bind.
  now destruct (runQuery _ w1) as [[explain|e| |] w2].
Qed.

Lemma grows_explain_try_catch (query : string) (data : TypeData.t)
    (m : ServerMessage) :
  grows (try_catch (explain_body unexpectedMessage (uniqueName_of query) data m)
                   explain_catch).
Proof.
  apply grows_try_catch.
  - unfold explain_body. destruct m; try apply grows_ret;
      (apply grows_bind; [apply grows_runQuery | intros ?; apply grows_ret]).
  - intros e. unfold explain_catch.
    apply grows_bind; [apply grows_console_error | intros ?; apply grows_ret].
Qed.

(** The simple query runner waits only for a message that does not come. *)
Lemma waits_ret {A} (a : A) : waits_on_silence (mret a : Async A).
Proof. now intros w. Qed.

Lemma waits_throw {A} (e : Js.Exn) : waits_on_silence (throw e : Async A).
Proof. now intros w. Qed.

Lemma waits_send (m : messages.client) : waits_on_silence (send m).
Proof. now intros w. Qed.

Lemma waits_reply (types : list messages.kind) :
  waits_on_silence (reply types).
Proof.
  intros w. destruct (incoming w) as [|m rest] eqn:E.
  - now rewrite reply_nil.
  - rewrite (reply_cons _ _ _ _ E). now destruct (expected m types).
Qed.

Lemma waits_bind {A B} (m : Async A) (f : A -> Async B) :
  waits_on_silence m -> (forall a, waits_on_silence (f a)) ->
  waits_on_silence (m ≫= f).
Proof.
  intros Hm Hf w. specialize (Hm w). unfold mbind, Async_bind.
  destruct (m w) as [[a|e| |c] w'] eqn:E; cbn in Hm |- *;
    [apply Hf | exact I | exact Hm | exact Hm].
Qed.

Lemma waits_loop_rounds {S A} (body : S -> Async (S + A)) :
  (forall s, waits_on_silence (body s)) ->
  (forall s w s' w',
     body s w = (Returned (inl s'), w') ->
     (length (incoming w') < length (incoming w))%nat) ->
  forall rounds s w,
    (length (incoming w) < rounds)%nat ->
    match fst (loop_rounds rounds body s w) with
    | Pending => incoming (snd (loop_rounds rounds body s w)) = []
    | Exited _ => False
    | _ => True
    end.
Proof.
  intros Hb Hdec. induction rounds as [|n IH]; intros s w Hlt; [lia|].
  cbn [loop_rounds]. specialize (Hb s w).
  destruct (body s w) as [[[s'|a]|e| |c] w'] eqn:E; cbn in Hb |- *;
    try assumption; try exact I.
  apply IH. specialize (Hdec _ _ _ _ E). lia.
Qed.

Lemma row_round_consumes (resultRows s' : list (list string)) (w w' : World) :
  row_round unexpectedMessage resultRows w = (Returned (inl s'), w') ->
  (length (incoming w') < length (incoming w))%nat.
Proof.
  unfold row_round, mbind, Async_bind.
  destruct (incoming w) as [|m rest] eqn:E.
  - rewrite reply_nil by assumption. discriminate.
  - rewrite (reply_cons _ _ _ _ E).
    destruct (expected m _); [|discriminate].
    destruct m; cbn; try discriminate.
    intros [= _ <-]. cbn. lia.
Qed.

Lemma waits_runQuery (query : string) : waits_on_silence (runQuery query).
Proof.
  unfold runQuery.
  apply waits_bind; [apply waits_send | intros _].
  apply waits_bind; [apply waits_reply | intros _].
  intros w. unfold while_true.
  apply waits_loop_rounds;
    [| intros s w0 s' w'; apply row_round_consumes | lia].
  intros s. unfold row_round.
  apply waits_bind; [apply waits_reply|].
  intros []; first [apply waits_ret | apply waits_throw].
Qed.

(** The protected block with its handler ends in one of the three exit
    paths, unless the explain query waits for a message that does not
    come. *)
Lemma explain_try_catch_outcome (query : string) (data : TypeData.t)
    (m : ServerMessage) (w1 : World) :
  expected m [messages.errorResponse; messages.parseComplete] = true ->
  let block :=
    try_catch (explain_body unexpectedMessage (uniqueName_of query) data m)
              explain_catch w1 in
  (fst block = Pending /\ incoming (snd block) = [])
  \/ exists v, fst block = Returned v
               /\ exit_path unexpectedMessage query data m w1 v.
Proof.
  intros Hexp. cbv zeta. rewrite explain_try_catch_eq by assumption.
  unfold exit_path.
  destruct (expected_parse_reply m Hexp) as [[errorFields ->] | ->].
  - right. eexists. split; [reflexivity|]. left. eauto.
  - pose proof (waits_runQuery
                  (explain_text (uniqueName_of query)
                     (length (TypeData.params data))) w1) as Hq.
    destruct (runQuery _ w1) as [[explain|e| |c] w2] eqn:E; cbn in Hq |- *.
    + right. eexists. split; [reflexivity|]. right. left. eauto.
    + right. eexists. split; [reflexivity|]. right. right. eauto.
    + now left.
    + destruct Hq.
Qed.

Lemma explainQuery_finish (query : string) (data : TypeData.t) (w : World)
    (m : ServerMessage) (rest : list ServerMessage)
    (v : IParseError + list (option string)) (w2 : World) :
  incoming w = m :: rest ->
  expected m [messages.errorResponse; messages.parseComplete] = true ->
  try_catch (explain_body unexpectedMessage (uniqueName_of query) data m)
            explain_catch (after_parse query w m rest)
  = (Returned v, w2) ->
  explainQuery query (inr data) w
  = match incoming w2 with
    | [] =>
        (Pending,
         with_events w2
           [ Sent (messages.close Statement (uniqueName_of query));
             Sent messages.flush; Sent messages.sync ] [])
    | m' :: rest' =>
        (if expected m' [messages.closeComplete] then Returned v
         else Thrown (unexpectedMessage [messages.closeComplete] m'),
         with_events w2
           [ Sent (messages.close Statement (uniqueName_of query));
             Sent messages.flush; Sent messages.sync; Received m' ] rest')
    end.
Proof.
  intros Hin Hexp Hbody.
  rewrite (explainQuery_after_parse _ _ _ m rest) by assumption.
  unfold try_finally. rewrite Hbody, explain_finally_eq.
  destruct (incoming w2) as [|m' rest']; [reflexivity|].
  now destruct (expected m' [messages.closeComplete]).
Qed.

(** C2: for type data that is no error, once the reply to the parse is in,
    the cleanup is performed on every exit path.  Unless the server falls
    silent, so that [explainQuery] waits for a message and does not return,
    the protected block ends in one of the three exit paths (parse error,
    plan, normalized exception of the explain query); close of the prepared
    statement, flush and sync are sent next, and a message is awaited.
    [explainQuery] returns only when that message is close-complete, and
    then with the result of the exit path; on another message it throws. *)
Theorem explainQuery_cleanup (query : string) (data : TypeData.t)
    (w : World) (m : ServerMessage) (rest : list ServerMessage) :
  incoming w = m :: rest ->
  expected m [messages.errorResponse; messages.parseComplete] = true ->
  let out := explainQuery query (inr data) w in
  (fst out = Pending /\ incoming (snd out) = [])
  \/ exists evs m',
       trace (snd out)
       = trace w ++ evs ++ cleanup_sent query ++ [Received m']
       /\ ((m' = CloseComplete
            /\ exists v,
                 fst out = Returned v
                 /\ exit_path unexpectedMessage query data m
                      (after_parse query w m rest) v)
           \/ (expected m' [messages.closeComplete] = false
               /\ fst out
                  = Thrown (unexpectedMessage [messages.closeComplete] m'))).
Proof.
  intros Hin Hexp. cbv zeta.
  destruct (explain_try_catch_outcome query data m
              (after_parse query w m rest) Hexp) as [[Hp Hs] | (v & Hv & Hpath)].
  - left. rewrite (explainQuery_after_parse _ _ _ m rest) by assumption.
    unfold try_finally.
    destruct (try_catch _ _ _) as [o w2]. cbn in Hp, Hs. subst o.
    now split.
  - destruct (grows_explain_try_catch query data m
                (after_parse query w m rest)) as (evs & Hevs).
    destruct (try_catch _ _ (after_parse query w m rest)) as [o w2] eqn:Hbody.
    cbn in Hv, Hevs. subst o.
    rewrite (explainQuery_finish query data w m rest v w2 Hin Hexp Hbody).
    destruct (incoming w2) as [|m' rest']; [now left|].
    right.
    exists ([ Sent (messages.parse (uniqueName_of query) query []);
              Sent messages.flush; Received m ] ++ evs), m'.
    split.
    + cbn [snd with_events trace]. rewrite Hevs.
      unfold after_parse, cleanup_sent. cbn [with_events trace].
      now rewrite <- !app_assoc.
    + destruct (expected m' [messages.closeComplete]) eqn:Hm'.
      * left. apply expected_closeComplete in Hm'. split; [assumption|].
        exists v. now split.
      * right. now split.
Qed.

(** C6 (amended): when the parse succeeded and the explain query throws [e],
    the exception is not propagated: once the cleanup has completed (the
    close-complete it awaits arrives), [explainQuery] returns the parse error
    with errorCode _ERROR, the message of [e], no hint and no position. *)
Theorem explainQuery_normalizes_exception (query : string) (data : TypeData.t)
    (w w2 : World) (rest rest' : list ServerMessage) (e : Js.Exn) :
  incoming w = ParseComplete :: rest ->
  runQuery (explain_text (uniqueName_of query) (length (TypeData.params data)))
           (after_parse query w ParseComplete rest)
  = (Thrown e, w2) ->
  incoming w2 = CloseComplete :: rest' ->
  explainQuery query (inr data) w
  = (Returned (inl {| errorCode := Some "_ERROR";
                      hint := None;
                      message := Some (Js.message e);
                      position := None |}),
     with_events (with_console w2 (explain_console_line e))
       (cleanup_events query) rest').
Proof.
  intros Hin Hq Hin2.
  rewrite (explainQuery_finish query data w ParseComplete rest
             (inl (normalized_error e))
             (with_console w2 (explain_console_line e)) Hin eq_refl).
  - cbn [with_console incoming]. now rewrite Hin2.
  - rewrite explain_try_catch_eq by reflexivity. now rewrite Hq.
Qed.

End ChannelProperties.

(** ** Authentication *)

Lemma indexOf_not_In (x : string) (l : list string) :
  Js.indexOf x l = -1 <-> ~ In x l.
Proof.
  assert (forall l, -1 <= Js.indexOf x l) as Hge.
  { intros l0. induction l0 as [|y l0 IH]; cbn; [lia|].
    destruct (String.eqb y x); [lia|].
    destruct (Z.eqb_spec (Js.indexOf x l0) (-1)); lia. }
  induction l as [|y l IH]; cbn.
  - tauto.
  - destruct (String.eqb_spec y x) as [->|Hne].
    + split; [lia | intros H; exfalso; apply H; now left].
    + destruct (Z.eqb_spec (Js.indexOf x l) (-1)) as [Heq|Hneq].
      * split; [|reflexivity]. intros _ [?|?]; [contradiction|].
        now apply IH.
      * split; [specialize (Hge l); lia|].
        intros H. exfalso. apply Hneq, IH. intros ?. apply H. now right.
Qed.

Section StartupProperties.

Variable createInitialSASLResponse : string * string.
Variable createClientSASLContinueResponse :
  string -> string -> string -> Js.Exn + (string * string).
Variable checkServerFinalMessage : string -> string -> option Js.Exn.
Variable unexpectedMessage : list messages.kind -> ServerMessage -> Js.Exn.

Local Abbreviation startup :=
  (startup createInitialSASLResponse createClientSASLContinueResponse
           checkServerFinalMessage unexpectedMessage).

(** The handshake with no usable password, on a request for one. *)
Lemma startup_password_required (options : Options.t) (w : World)
    (m : ServerMessage) (rest : list ServerMessage) :
  Js.truthy (Options.password options) = false ->
  connectError w = None ->
  incoming w = m :: rest ->
  requests_authentication m = true ->
  startup options w
  = (Exited 1,
     startup_failed options w m rest "password required for hash auth").
Proof.
  intros Hpw Hc Hin Hm.
  unfold startup, try_catch, connect, mbind at 1, Async_bind at 1.
  rewrite Hc, bind_send.
  rewrite (bind_reply_cons unexpectedMessage _ _ _ m rest)
    by (first [exact Hin | now destruct m]).
  rewrite Hpw.
  destruct m; try discriminate; cbn [negb];
    unfold startup_failed, with_console, with_events, startup_events;
    cbn; now rewrite <- !app_assoc.
Qed.

(** C9: with the empty string as password [startup] does what it does with
    no password at all; and whenever the server asks for authentication
    (cleartext, MD5 or SASL) the handshake fails fatally, with the password
    required error on the console and nothing sent after the startup
    message. *)
Theorem startup_empty_password (options : Options.t) (w : World) :
  Options.password options = Some EmptyString ->
  startup options w = startup (without_password options) w
  /\ (forall m rest,
        connectError w = None ->
        incoming w = m :: rest ->
        requests_authentication m = true ->
        startup options w
        = (Exited 1,
           startup_failed options w m rest "password required for hash auth")).
Proof.
  intros Hpw. split.
  - unfold startup, without_password. rewrite Hpw. reflexivity.
  - intros m rest Hc Hin Hm. apply startup_password_required; try assumption.
    now rewrite Hpw.
Qed.

(** C8 (amended): when the server requests SASL authentication and
    advertises a list of mechanisms (the empty list included) that does not
    contain SCRAM-SHA-256, [startup] fails fatally: it logs the failure and
    exits with code 1, having sent nothing after the startup message, so no
    SASL initial response. *)
Theorem startup_sasl_unsupported (options : Options.t) (w : World)
    (SASLMechanisms : list string) (rest : list ServerMessage) :
  connectError w = None ->
  incoming w = AuthenticationSASL (Some SASLMechanisms) :: rest ->
  ~ In "SCRAM-SHA-256" SASLMechanisms ->
  exists reason,
    startup options w
    = (Exited 1,
       startup_failed options w (AuthenticationSASL (Some SASLMechanisms))
         rest reason)
    /\ forallb (fun ev => negb (is_SASLInitialResponse ev))
         (startup_events options (AuthenticationSASL (Some SASLMechanisms)))
       = true.
Proof.
  intros Hc Hin Hnot.
  destruct (Js.truthy (Options.password options)) eqn:Hpw.
  - exists "SASL: Only mechanism SCRAM-SHA-256 is currently supported".
    split; [|reflexivity].
    unfold startup, try_catch, connect, mbind at 1, Async_bind at 1.
    rewrite Hc, bind_send.
    rewrite (bind_reply_cons unexpectedMessage _ _ _ _ rest)
      by (first [exact Hin | reflexivity]).
    rewrite Hpw. cbn [negb]. unfold startup_sasl.
    apply indexOf_not_In in Hnot. unfold SCRAM_SHA_256. rewrite Hnot.
    unfold startup_failed, with_console, with_events, startup_events.
    cbn. now rewrite <- !app_assoc.
  - exists "password required for hash auth". split; [|reflexivity].
    now apply startup_password_required.
Qed.

End StartupProperties.

(** ** Decimal text of integers *)

Lemma digits_string_of_uint (d : Decimal.uint) :
  Scan.all_chars Scan.digit_or_minus (NilEmpty.string_of_uint d) = true.
Proof. induction d; cbn [NilEmpty.string_of_uint Scan.all_chars]; auto. Qed.

Lemma to_uint_head (p : positive) :
  exists c rest,
    NilZero.string_of_uint (Pos.to_uint p) = String c rest
    /\ Scan.nonzero_digit c = true
    /\ Scan.all_chars Scan.digit_or_minus rest = true.
Proof.
  pose proof (DecimalPos.Unsigned.to_uint_nonzero p) as Hnz.
  pose proof (DecimalPos.Unsigned.to_of (Pos.to_uint p)) as Hn.
  rewrite DecimalPos.Unsigned.of_to in Hn. cbn [N.to_uint] in Hn.
  assert (Decimal.nzhead (Pos.to_uint p) = Pos.to_uint p) as Hhd.
  { unfold Decimal.unorm in Hn.
    destruct (Decimal.nzhead (Pos.to_uint p)) eqn:E; try (now symmetry);
      now destruct Hnz. }
  pose proof (DecimalFacts.nzhead_nonzero (Pos.to_uint p)) as Hd0.
  rewrite Hhd in Hd0.
  destruct (Pos.to_uint p) as [|d|d|d|d|d|d|d|d|d|d] eqn:E;
    try (eexists _, _; split; [reflexivity|]; split;
         [reflexivity | apply digits_string_of_uint]).
  - discriminate Hhd || (exfalso; now apply (DecimalPos.Unsigned.to_uint_nonnil p)).
  - exfalso. now apply (Hd0 d).
Qed.

Lemma string_of_Z_pos (z : Z) :
  0 < z ->
  exists c rest,
    Js.string_of_Z z = String c rest
    /\ Scan.nonzero_digit c = true
    /\ Scan.all_chars Scan.digit_or_minus rest = true.
Proof.
  destruct z as [|p|p]; try lia. intros _. apply to_uint_head.
Qed.

Lemma string_of_Z_nonpos (z : Z) :
  z <= 0 ->
  exists c rest,
    Js.string_of_Z z = String c rest /\ Scan.nonzero_digit c = false.
Proof.
  destruct z as [|p|p]; try lia; intros _.
  - now exists "0"%char, EmptyString.
  - exists "-"%char, (NilZero.string_of_uint (Pos.to_uint p)). now split.
Qed.

Lemma string_of_Z_chars (z : Z) :
  Scan.all_chars Scan.digit_or_minus (Js.string_of_Z z) = true.
Proof.
  destruct z as [|p|p]; [reflexivity| |].
  - destruct (to_uint_head p) as (c & rest & Heq & Hc & Hr).
    unfold Js.string_of_Z. cbn [Z.to_int NilZero.string_of_int].
    rewrite Heq. cbn [Scan.all_chars]. rewrite Hr, andb_true_r.
    unfold Scan.nonzero_digit in Hc. unfold Scan.digit_or_minus.
    apply andb_true_iff in Hc as [H1 H2]. rewrite H2.
    apply Nat.leb_le in H1.
    replace (48 <=? nat_of_ascii c)%nat with true
      by (symmetry; apply Nat.leb_le; lia).
    reflexivity.
  - destruct (to_uint_head p) as (c & rest & Heq & Hc & Hr).
    unfold Js.string_of_Z. cbn [Z.to_int NilZero.string_of_int].
    rewrite Heq. cbn [Scan.all_chars]. rewrite Hr, andb_true_r.
    unfold Scan.nonzero_digit in Hc. unfold Scan.digit_or_minus.
    apply andb_true_iff in Hc as [H1 H2]. rewrite H2.
    apply Nat.leb_le in H1.
    replace (48 <=? nat_of_ascii c)%nat with true
      by (symmetry; apply Nat.leb_le; lia).
    reflexivity.
Qed.

(** ** Keys that are numbers *)

(** The name of a member of [Object.prototype] begins with a letter or an
    underscore, the decimal text of a number with a digit or the minus sign:
    so the keys under which the actions read the type map, the attributes
    and the comments name no such member, and the reads find own entries
    only. *)
Lemma inherited_head (key : string) :
  Js.inherited key = true ->
  exists c rest, key = String c rest /\ Scan.digit_or_minus c = false.
Proof.
  unfold Js.inherited, Js.Object_prototype. cbn [existsb]. intros H.
  repeat (apply orb_true_iff in H as [H|H]); try discriminate;
    apply String.eqb_eq in H; subst key; eexists _, _; split; reflexivity.
Qed.

Lemma string_of_Z_head (z : Z) :
  exists c rest,
    Js.string_of_Z z = String c rest /\ Scan.digit_or_minus c = true.
Proof.
  pose proof (string_of_Z_chars z) as H.
  destruct (Z_lt_le_dec 0 z) as [Hz|Hz].
  - destruct (string_of_Z_pos z Hz) as (c & rest & Heq & _).
    rewrite Heq in H. cbn [Scan.all_chars] in H.
    apply andb_true_iff in H as [H _]. eauto.
  - destruct (string_of_Z_nonpos z Hz) as (c & rest & Heq & _).
    rewrite Heq in H. cbn [Scan.all_chars] in H.
    apply andb_true_iff in H as [H _]. eauto.
Qed.

Lemma inherited_string_of_Z (z : Z) : Js.inherited (Js.string_of_Z z) = false.
Proof.
  destruct (Js.inherited (Js.string_of_Z z)) eqn:E; [|reflexivity].
  destruct (inherited_head _ E) as (c & rest & Heq & Hc).
  destruct (string_of_Z_head z) as (c' & rest' & Heq' & Hc').
  congruence.
Qed.

Lemma inherited_getAttid (f : TypeField) : Js.inherited (getAttid f) = false.
Proof.
  destruct (Js.inherited (getAttid f)) eqn:E; [|reflexivity].
  destruct (inherited_head _ E) as (c & rest & Heq & Hc).
  destruct (string_of_Z_head (tableOID f)) as (c' & rest' & Heq' & Hc').
  unfold getAttid in Heq. rewrite Heq' in Heq.
  change (String c' (rest' +:+ ":" +:+ Js.string_of_Z (columnAttrNumber f))
          = String c rest) in Heq.
  congruence.
Qed.

Lemma object_get_string_of_Z (obj : gmap string MappableType) (z : Z) :
  object_get obj (Js.string_of_Z z) = obj !! Js.string_of_Z z.
Proof. apply object_get_own_key, inherited_string_of_Z. Qed.

(** The decimal text of a number is a key of the catalog. *)
Lemma catalog_key_string_of_Z (z : Z) : catalog_key (Js.string_of_Z z) = true.
Proof.
  unfold catalog_key. rewrite inherited_string_of_Z.
  destruct (string_of_Z_head z) as (c & rest & -> & _). reflexivity.
Qed.

(** ** Scanning *)

Lemma append_assoc (a b c : string) : (a +:+ b) +:+ c = a +:+ (b +:+ c).
Proof.
  induction a as [|x a IH]; [reflexivity|].
  change (String x ((a +:+ b) +:+ c) = String x (a +:+ (b +:+ c))).
  now rewrite IH.
Qed.

Lemma run_app (q : option nat) (a b : string) :
  Scan.run q (a +:+ b) = Scan.run (Scan.run q a) b.
Proof.
  revert q. induction a as [|x a IH]; intros q; [reflexivity|].
  change (Scan.run (q ≫= fun k => Scan.step k x) (a +:+ b)
          = Scan.run (Scan.run (q ≫= fun k => Scan.step k x) a) b).
  apply IH.
Qed.

Lemma run_None (s : string) : Scan.run None s = None.
Proof. induction s as [|c s IH]; [reflexivity | exact IH]. Qed.

Lemma run_digits (s : string) :
  Scan.all_chars Scan.digit_or_minus s = true ->
  Scan.run (Some 0%nat) s = Some 0%nat.
Proof.
  induction s as [|c s IH]; [reflexivity|].
  cbn [Scan.all_chars]. intros H. apply andb_true_iff in H as [Hc Hs].
  cbn [Scan.run]. rewrite <- (IH Hs) at 2. f_equal.
  cbn [mbind option_bind]. unfold Scan.step.
  assert (c <> "b"%char) as Hb by (intros ->; discriminate).
  rewrite bool_decide_eq_false_2 by (cbn; congruence).
  apply Ascii.eqb_neq in Hb. now rewrite Hb.
Qed.

Lemma run_bid (k : nat) :
  Scan.run (Some k) "bid=" = Some 4%nat \/ Scan.run (Some k) "bid=" = None.
Proof.
  do 5 (destruct k as [|k]; [first [now left | now right]|]).
  now left.
Qed.

(** The four characters followed by something else than a digit from 1 to 9
    make the scanner fail, wherever they stand. *)
Lemma run_bad (q : option nat) (c : ascii) (rest : string) :
  Scan.nonzero_digit c = false ->
  Scan.run q ("bid=" +:+ String c rest) = None.
Proof.
  intros Hc. rewrite run_app.
  assert (Scan.run q "bid=" = Some 4%nat \/ Scan.run q "bid=" = None) as [->| ->].
  { destruct q as [k|]; [apply run_bid | now right]. }
  - cbn [Scan.run mbind option_bind]. unfold Scan.step. rewrite Hc.
    apply run_None.
  - apply run_None.
Qed.

Lemma run_commentMatcher (f : TypeField) :
  0 < columnAttrNumber f ->
  Scan.run (Some 0%nat) (commentMatcher f) = Some 0%nat.
Proof.
  intros Hpos. unfold commentMatcher.
  destruct (string_of_Z_pos _ Hpos) as (c & rest & -> & Hc & Hr).
  rewrite run_app.
  change (Scan.run (Some 0%nat) "(objoid=") with (Some 0%nat).
  rewrite run_app, (run_digits _ (string_of_Z_chars _)).
  rewrite run_app.
  change (Scan.run (Some 0%nat) " and objsubid=") with (Some 4%nat).
  change (String c rest +:+ ")") with (String c (rest +:+ ")")).
  cbn [Scan.run mbind option_bind]. unfold Scan.step at 1. rewrite Hc.
  rewrite run_app, (run_digits _ Hr). reflexivity.
Qed.

Lemma run_join_commentMatcher (columnFields : list TypeField) :
  Forall (fun f => 0 < columnAttrNumber f) columnFields ->
  Scan.run (Some 0%nat)
    (Str.join " or " (List.map commentMatcher columnFields))
  = Some 0%nat.
Proof.
  induction 1 as [|f l Hf Hl IH]; [reflexivity|].
  cbn [List.map Str.join].
  destruct (List.map commentMatcher l) as [|p ps] eqn:E.
  - now apply run_commentMatcher.
  - rewrite run_app, (run_commentMatcher _ Hf), run_app.
    change (Scan.run (Some 0%nat) " or ") with (Some 0%nat).
    exact IH.
Qed.

Lemma run_comments_text (columnFields : list TypeField) :
  Forall (fun f => 0 < columnAttrNumber f) columnFields ->
  Scan.run (Some 0%nat) (comments_text columnFields) = Some 0%nat.
Proof.
  intros H. unfold comments_text. cbv zeta.
  rewrite !run_app.
  change (Scan.run (Some 0%nat) "SELECT") with (Some 0%nat).
  change (Scan.run (Some 0%nat) Str.nl) with (Some 0%nat).
  change (Scan.run (Some 0%nat) "      objoid, objsubid, description")
    with (Some 0%nat).
  change (Scan.run (Some 0%nat) Str.nl) with (Some 0%nat).
  change (Scan.run (Some 0%nat) "     FROM pg_description WHERE ")
    with (Some 0%nat).
  now rewrite (run_join_commentMatcher _ H).
Qed.

(** A comment lookup over real columns has no predicate for a field that is
    not a real column. *)
Lemma comments_text_excludes (columnFields : list TypeField) (f : TypeField) :
  Forall (fun g => 0 < columnAttrNumber g) columnFields ->
  columnAttrNumber f <= 0 ->
  ~ Str.occurs (commentMatcher f) (comments_text columnFields).
Proof.
  intros Hcf Hf (pre & post & Heq).
  pose proof (run_comments_text _ Hcf) as Hrun.
  rewrite Heq in Hrun. unfold commentMatcher in Hrun.
  destruct (string_of_Z_nonpos _ Hf) as (c & rest & Hdec & Hc).
  rewrite Hdec in Hrun.
  rewrite run_app, !append_assoc, run_app, run_app in Hrun.
  change (" and objsubid=" +:+ String c rest +:+ ")" +:+ post)
    with (" and objsu" +:+ "bid=" +:+ String c (rest +:+ ")" +:+ post))
    in Hrun.
  rewrite run_app, run_bad in Hrun by assumption. discriminate.
Qed.

(** ** Column metadata and type inference *)

Lemma append_nil_r (s : string) : s +:+ EmptyString = s.
Proof.
  induction s as [|c s IH]; [reflexivity|].
  change (String c (s +:+ EmptyString) = String c s). now rewrite IH.
Qed.

Lemma occurs_refl (s : string) : Str.occurs s s.
Proof.
  exists EmptyString, EmptyString.
  change (s = s +:+ EmptyString). now rewrite append_nil_r.
Qed.

Lemma occurs_append (needle a hay b : string) :
  Str.occurs needle hay -> Str.occurs needle (a +:+ hay +:+ b).
Proof.
  intros (pre & post & ->). exists (a +:+ pre), (post +:+ b).
  now rewrite !append_assoc.
Qed.

Lemma occurs_append_l (needle hay b : string) :
  Str.occurs needle hay -> Str.occurs needle (hay +:+ b).
Proof. intros H. exact (occurs_append needle EmptyString hay b H). Qed.

Lemma occurs_append_r (needle a hay : string) :
  Str.occurs needle hay -> Str.occurs needle (a +:+ hay).
Proof.
  intros (pre & post & ->). exists (a +:+ pre), post.
  now rewrite !append_assoc.
Qed.

Lemma occurs_join (sep p : string) (parts : list string) :
  In p parts -> Str.occurs p (Str.join sep parts).
Proof.
  induction parts as [|x l IH]; [intros []|].
  intros [->|Hin]; cbn [Str.join]; destruct l as [|y l'].
  - apply occurs_refl.
  - apply occurs_append_l, occurs_refl.
  - destruct Hin.
  - apply occurs_append_r, occurs_append_r, IH, Hin.
Qed.

(** The attribute lookup has a predicate for every field. *)
Lemma attributes_text_includes (fields : list TypeField) (f : TypeField) :
  In f fields -> Str.occurs (attrMatcher f) (attributes_text fields).
Proof.
  intros Hin. unfold attributes_text, attrSelection.
  destruct fields as [|g l]; [destruct Hin|].
  cbn [length Nat.ltb Nat.leb].
  do 5 apply occurs_append_r. apply occurs_append_l.
  apply occurs_join, List.in_map, Hin.
Qed.

Lemma bind_returned {A B} (m : Async A) (f : A -> Async B) (w w' : World)
    (b : B) :
  (m ≫= f) w = (Returned b, w') ->
  exists a w1, m w = (Returned a, w1) /\ f a w1 = (Returned b, w').
Proof.
  unfold mbind, Async_bind.
  destruct (m w) as [[a| | |] w1]; try discriminate. eauto.
Qed.

Lemma only_receives_throw {A} (e : Js.Exn) : only_receives (throw e : Async A).
Proof.
  intros w. exists [], (incoming w). split; [|reflexivity].
  cbn. now rewrite with_events_nil.
Qed.

Lemma only_receives_loop_rounds {S A} (body : S -> Async (S + A))
    (rounds : nat) :
  (forall s, only_receives (body s)) ->
  forall s, only_receives (loop_rounds rounds body s).
Proof.
  intros Hb. induction rounds as [|n IH]; intros s w.
  - exists [], (incoming w). split; [|reflexivity].
    cbn. now rewrite with_events_nil.
  - destruct (Hb s w) as (evs & rest & Hw & Hr). cbn [loop_rounds].
    destruct (body s w) as [[[s'|a]|e| |] w'] eqn:E; cbn in Hw; subst w';
      try (exists evs, rest; now split).
    destruct (IH s' (with_events w evs rest)) as (evs' & rest' & Hw' & Hr').
    exists (evs ++ evs'), rest'. split.
    + now rewrite Hw', with_events_app.
    + now rewrite forallb_app, Hr, Hr'.
Qed.

Lemma sent_queries_received (evs : list Event) :
  forallb is_received evs = true -> sent_queries evs = [].
Proof.
  induction evs as [|ev evs IH]; [reflexivity|].
  cbn [forallb]. intros H. apply andb_true_iff in H as [Hev Hevs].
  destruct ev; try discriminate. cbn. now apply IH.
Qed.

Lemma sent_queries_app (evs evs' : list Event) :
  sent_queries (evs ++ evs') = sent_queries evs ++ sent_queries evs'.
Proof.
  induction evs as [|ev evs IH]; [reflexivity|].
  destruct ev as [| [] |]; cbn; now rewrite ?IH.
Qed.

Section InferenceProperties.

Variable DatabaseTypeKind_Enum : string.
Variable unexpectedMessage : list messages.kind -> ServerMessage -> Js.Exn.
Variable QueryParameter : Type.
Variable JsNumber : Type.
Variable Number : option string -> JsNumber.
Variable string_of_Number : JsNumber -> string.

Local Abbreviation runQuery := (runQuery unexpectedMessage).
Local Abbreviation getComments :=
  (getComments unexpectedMessage JsNumber Number).
Local Abbreviation getTypes :=
  (getTypes DatabaseTypeKind_Enum unexpectedMessage QueryParameter JsNumber
            Number string_of_Number).

(** A simple query sends its text and then only lets messages arrive. *)
Lemma runQuery_events (query : string) (w : World) :
  exists evs rest,
    snd (runQuery query w) = with_events w (Sent (messages.query query) :: evs) rest
    /\ forallb is_received evs = true.
Proof.
  unfold runQuery. rewrite bind_send.
  match goal with
  | |- context [snd (?k ?w0)] =>
      assert (only_receives k) as Hk;
      [ apply only_receives_bind; [apply only_receives_reply|];
        intros _; unfold while_true; intros w1;
        apply only_receives_loop_rounds; intros rows;
        apply only_receives_bind; [apply only_receives_reply|];
        intros []; first [apply only_receives_ret | apply only_receives_throw]
      | destruct (Hk w0) as (evs & rest & Hw & Hr) ]
  end.
  exists evs, rest. split; [|assumption].
  etransitivity; [exact Hw|]. now rewrite with_events_app.
Qed.

(** The comment lookup sends at most one query, over the fields that are
    real columns. *)
Lemma getComments_queries (fields : list TypeField) (w : World) :
  exists evs rest,
    snd (getComments fields w) = with_events w evs rest
    /\ (sent_queries evs = []
        \/ sent_queries evs
           = [comments_text
                (List.filter (fun f => 0 <? columnAttrNumber f) fields)]).
Proof.
  unfold getComments.
  destruct (Nat.eqb _ 0).
  - exists [], (incoming w). split; [|now left].
    cbn. now rewrite with_events_nil.
  - destruct (runQuery_events
                (comments_text
                   (List.filter (fun f => 0 <? columnAttrNumber f) fields)) w)
      as (evs & rest & Hw & Hr).
    exists (Sent (messages.query
                    (comments_text
                       (List.filter (fun f => 0 <? columnAttrNumber f) fields)))
            :: evs), rest.
    split.
    + unfold mbind, Async_bind.
      destruct (runQuery _ w) as [[rows| | |] w1]; exact Hw.
    + right. cbn [sent_queries]. now rewrite sent_queries_received.
Qed.

(** C1 (amended): a field with columnAttrNumber at most 0 is excluded from
    the comment lookup: no query that [getComments] sends has a predicate
    for the pair of the field.  The attribute lookup of [getTypes] is over
    all the fields: its query has a predicate for every field, this one
    included. *)
Theorem nonpositive_columnAttrNumber_lookups (fields : list TypeField)
    (f : TypeField) :
  In f fields ->
  columnAttrNumber f <= 0 ->
  (forall w, exists evs rest,
      snd (getComments fields w) = with_events w evs rest
      /\ forall q, In q (sent_queries evs) ->
                   ~ Str.occurs (commentMatcher f) q)
  /\ Str.occurs (attrMatcher f) (attributes_text fields).
Proof.
  intros Hin Hf. split; [|now apply attributes_text_includes].
  intros w. destruct (getComments_queries fields w) as (evs & rest & Hw & Hq).
  exists evs, rest. split; [assumption|].
  intros q Hinq. destruct Hq as [Hq|Hq]; rewrite Hq in Hinq; [destruct Hinq|].
  destruct Hinq as [<-|[]].
  apply comments_text_excludes; [|assumption].
  apply List.Forall_forall. intros g Hg.
  apply List.filter_In in Hg as [_ Hg]. now apply Z.ltb_lt in Hg.
Qed.

Lemma attrMap_of_snoc (rows : list (list string)) (row : list string) :
  attrMap_of (rows ++ [row])
  = <[ attid_of row :=
         {| attr_columnName := row !! 1%nat;
            attr_nullable := negb (bool_decide (row !! 2%nat = Some "t")) |} ]>
      (attrMap_of rows).
Proof. unfold attrMap_of. now rewrite fold_left_app. Qed.

(** A key that no row of the attribute query carries is not in the
    attribute map. *)
Lemma attrMap_of_unmatched (rows : list (list string)) (key : string) :
  (forall row, In row rows -> attid_of row <> key) ->
  attrMap_of rows !! key = None.
Proof.
  induction rows as [|row rows IH] using rev_ind; intros H; [reflexivity|].
  rewrite attrMap_of_snoc, lookup_insert_ne.
  - apply IH. intros r Hr. apply H, List.in_or_app. now left.
  - apply H, List.in_or_app. right. now left.
Qed.

Lemma returnType_of_unmatched (typeMap : gmap string MappableType)
    (attributeRows : list (list string))
    (commentMap : gmap string (option string)) (f : TypeField) :
  (forall row, In row attributeRows -> attid_of row <> getAttid f) ->
  let entry :=
    returnType_of typeMap (attrMap_of attributeRows) commentMap f in
  columnName entry = None /\ nullable entry = None
  /\ returnName entry = name f
  /\ type entry = typeMap !! Js.string_of_Z (typeOID f).
Proof.
  intros H. cbv zeta. unfold returnType_of.
  cbn [columnName nullable returnName type].
  now rewrite (attrMap_of_unmatched _ _ H).
Qed.

(** What has happened when [getTypes] returns the types of a query. *)
Lemma getTypes_returned_inv (queryData : InterpolatedQuery QueryParameter)
    (w w' : World) (result : IQueryTypes QueryParameter) :
  getTypes queryData w = (Returned (inr result), w') ->
  exists data w1 plan w2 typeRows w3 commentRows w4 attributeRows,
    getTypeData unexpectedMessage (iq_query queryData) w
    = (Returned (inr data), w1)
    /\ explainQuery unexpectedMessage (iq_query queryData) (inr data) w1
       = (Returned (inr plan), w2)
    /\ runTypesCatalogQuery unexpectedMessage
         (TypeData.params data ++ List.map typeOID (TypeData.fields data)) w2
       = (Returned typeRows, w3)
    /\ getComments (TypeData.fields data) w3 = (Returned commentRows, w4)
    /\ runQuery (attributes_text (TypeData.fields data)) w4
       = (Returned attributeRows, w')
    /\ returnTypes result
       = List.map
           (returnType_of (reduceTypeRows DatabaseTypeKind_Enum typeRows)
              (attrMap_of attributeRows)
              (commentMap_of string_of_Number commentRows))
           (TypeData.fields data).
Proof.
  unfold getTypes. intros H.
  apply bind_returned in H as ([err|data] & w1 & Hprobe & H);
    [discriminate|].
  unfold doTestRuns in H.
  apply bind_returned in H as ([err|plan] & w2 & Hexplain & H);
    [discriminate|].
  unfold getTypes_resolve in H.
  apply bind_returned in H as (typeRows & w3 & Hrows & H).
  apply bind_returned in H as (commentRows & w4 & Hcomments & H).
  apply bind_returned in H as (attributeRows & w5 & Hattr & H).
  injection H as <- <-.
  exists data, w1, plan, w2, typeRows, w3, commentRows, w4, attributeRows.
  repeat (split; [assumption|]). reflexivity.
Qed.

(** C10: when [getTypes] returns the types of a query, the entry of
    returnTypes for a field whose key tableOID:columnAttrNumber is the key of
    no row returned by the attribute query has no columnName and no
    nullable, while its returnName is the name of the field and its type is
    what the catalog type map has for the type oid of the field. *)
Theorem getTypes_unmatched_field
    (queryData : InterpolatedQuery QueryParameter) (w w' : World)
    (result : IQueryTypes QueryParameter) :
  getTypes queryData w = (Returned (inr result), w') ->
  exists data w1 plan w2 typeRows w3 commentRows w4 attributeRows,
    getTypeData unexpectedMessage (iq_query queryData) w
    = (Returned (inr data), w1)
    /\ explainQuery unexpectedMessage (iq_query queryData) (inr data) w1
       = (Returned (inr plan), w2)
    /\ runTypesCatalogQuery unexpectedMessage
         (TypeData.params data ++ List.map typeOID (TypeData.fields data)) w2
       = (Returned typeRows, w3)
    /\ getComments (TypeData.fields data) w3 = (Returned commentRows, w4)
    /\ runQuery (attributes_text (TypeData.fields data)) w4
       = (Returned attributeRows, w')
    /\ forall i f,
         TypeData.fields data !! i = Some f ->
         (forall row, In row attributeRows -> attid_of row <> getAttid f) ->
         exists entry,
           returnTypes result !! i = Some entry
           /\ columnName entry = None /\ nullable entry = None
           /\ returnName entry = name f
           /\ type entry
              = reduceTypeRows DatabaseTypeKind_Enum typeRows
                  !! Js.string_of_Z (typeOID f).
Proof.
  intros H.
  destruct (getTypes_returned_inv _ _ _ _ H)
    as (data & w1 & plan & w2 & typeRows & w3 & commentRows & w4
        & attributeRows & H1 & H2 & H3 & H4 & H5 & Hret).
  exists data, w1, plan, w2, typeRows, w3, commentRows, w4, attributeRows.
  repeat (split; [assumption|]).
  intros i f Hi Hno. rewrite Hret, list_lookup_fmap, Hi.
  eexists. split; [reflexivity|].
  now apply returnType_of_unmatched.
Qed.

End InferenceProperties.

Lemma getTypeData_sync_witness :
  let w := Sample.world [ErrorResponse Sample.syntax_error; ReadyForQuery "I"] in
  incoming w = [ErrorResponse Sample.syntax_error; ReadyForQuery "I"]
  /\ expected (ErrorResponse Sample.syntax_error)
       [messages.errorResponse; messages.parseComplete] = true
  /\ getTypeData Sample.unexpected "select" w
     = (Returned (inl {| errorCode := Sample.syntax_error !! "R";
                         hint := Sample.syntax_error !! "H";
                         message := Sample.syntax_error !! "M";
                         position := Sample.syntax_error !! "P" |}),
        with_events w
          (probe_events "select"
           ++ [Received (ErrorResponse Sample.syntax_error);
               Sent messages.sync])
          [ReadyForQuery "I"]).
Proof.
  cbv zeta. split; [reflexivity|]. split; [reflexivity|].
  exact (proj2 (getTypeData_sync Sample.unexpected "select"
                  (Sample.world [ErrorResponse Sample.syntax_error;
                                 ReadyForQuery "I"])
                  (ErrorResponse Sample.syntax_error) [ReadyForQuery "I"]
                  eq_refl eq_refl)
               Sample.syntax_error eq_refl).
Defined.

Lemma explainQuery_cleanup_witness :
  let script :=
    [ParseComplete; ErrorResponse Sample.permission_denied; CloseComplete] in
  let w := Sample.world script in
  let out :=
    explainQuery Sample.unexpected "select 1" (inr Sample.no_params) w in
  incoming w
  = ParseComplete :: [ErrorResponse Sample.permission_denied; CloseComplete]
  /\ expected ParseComplete [messages.errorResponse; messages.parseComplete]
     = true
  /\ fst out
     = Returned
         (inl (normalized_error
                 (Js.Error "permission denied for table user_emails")))
  /\ ((fst out = Pending /\ incoming (snd out) = [])
      \/ exists evs m',
           trace (snd out)
           = trace w ++ evs ++ cleanup_sent "select 1" ++ [Received m']
           /\ ((m' = CloseComplete
                /\ exists v,
                     fst out = Returned v
                     /\ exit_path Sample.unexpected "select 1"
                          Sample.no_params ParseComplete
                          (after_parse "select 1" w ParseComplete
                             [ ErrorResponse Sample.permission_denied;
                               CloseComplete ]) v)
               \/ (expected m' [messages.closeComplete] = false
                   /\ fst out
                      = Thrown
                          (Sample.unexpected [messages.closeComplete] m')))).
Proof.
  cbv zeta.
  split; [reflexivity|]. split; [reflexivity|].
  split; [vm_compute; reflexivity|].
  exact (explainQuery_cleanup Sample.unexpected "select 1" Sample.no_params
           (Sample.world
              [ ParseComplete; ErrorResponse Sample.permission_denied;
                CloseComplete ])
           ParseComplete
           [ErrorResponse Sample.permission_denied; CloseComplete]
           eq_refl eq_refl).
Defined.

(** C6, as stated, fails when the cleanup does not complete: here the parse
    succeeds, the explain query throws on the server's error response, and
    the close-complete awaited by the cleanup does not come next, so that
    [explainQuery] throws instead of returning a parse error. *)
Lemma explainQuery_cleanup_throws_counterexample :
  let script :=
    [ParseComplete; ErrorResponse Sample.permission_denied; ReadyForQuery "I"] in
  let w := Sample.world script in
  fst (runQuery Sample.unexpected
         (explain_text (uniqueName_of "select 1") 0)
         (after_parse "select 1" w ParseComplete
            [ErrorResponse Sample.permission_denied; ReadyForQuery "I"]))
  = Thrown (Js.Error "permission denied for table user_emails")
  /\ fst (explainQuery Sample.unexpected "select 1" (inr Sample.no_params) w)
     = Thrown (Js.Error "unexpected message").
Proof. cbv zeta. split; vm_compute; reflexivity. Qed.

Lemma explainQuery_normalizes_exception_witness :
  let script :=
    [ParseComplete; ErrorResponse Sample.permission_denied; CloseComplete] in
  let w := Sample.world script in
  let thrown :=
    runQuery Sample.unexpected
      (explain_text (uniqueName_of "select 1")
         (length (TypeData.params Sample.no_params)))
      (after_parse "select 1" w ParseComplete
         [ErrorResponse Sample.permission_denied; CloseComplete]) in
  let e := Js.Error "permission denied for table user_emails" in
  incoming w = ParseComplete
               :: [ErrorResponse Sample.permission_denied; CloseComplete]
  /\ thrown = (Thrown e, snd thrown)
  /\ incoming (snd thrown) = [CloseComplete]
  /\ fst (explainQuery Sample.unexpected "select 1" (inr Sample.no_params) w)
     = Returned (inl {| errorCode := Some "_ERROR";
                        hint := None;
                        message := Some "permission denied for table user_emails";
                        position := None |}).
Proof.
  intros script w thrown e.
  assert (thrown = (Thrown e, snd thrown)) as Hq by (vm_compute; reflexivity).
  assert (incoming (snd thrown) = [CloseComplete]) as Hc
    by (vm_compute; reflexivity).
  split; [reflexivity|]. split; [exact Hq|]. split; [exact Hc|].
  rewrite (explainQuery_normalizes_exception Sample.unexpected "select 1"
             Sample.no_params w (snd thrown)
             [ErrorResponse Sample.permission_denied; CloseComplete] [] e
             eq_refl Hq Hc).
  reflexivity.
Defined.

Lemma startup_empty_password_witness :
  let options := SampleSASL.options (Some EmptyString) in
  let w := Sample.world [AuthenticationMD5Password "salt"] in
  Options.password options = Some EmptyString
  /\ SampleSASL.startup options w
     = SampleSASL.startup (without_password options) w
  /\ SampleSASL.startup options w
     = (Exited 1,
        startup_failed options w (AuthenticationMD5Password "salt") []
          "password required for hash auth").
Proof.
  intros options w.
  destruct (startup_empty_password
              SampleSASL.createInitialSASLResponse
              SampleSASL.createClientSASLContinueResponse
              SampleSASL.checkServerFinalMessage Sample.unexpected
              options w eq_refl) as [Heq Hfail].
  split; [reflexivity|]. split; [exact Heq|].
  exact (Hfail (AuthenticationMD5Password "salt") [] eq_refl eq_refl eq_refl).
Defined.

(** C8, as stated, fails for an absent mechanism list: the check of the
    list is skipped, the SASL initial response is sent, and with a server
    that plays the exchange to its end the handshake succeeds. *)
Lemma startup_sasl_absent_list_counterexample :
  let w :=
    Sample.world
      [ AuthenticationSASL None; SASLContinue "r=nonce-server";
        AuthenticationSASLFinal "v=signature"; AuthenticationOk;
        ParameterStatus; BackendKeyData; ReadyForQuery "I" ] in
  let run := SampleSASL.startup (SampleSASL.options (Some "secret")) w in
  fst run = Returned tt
  /\ existsb is_SASLInitialResponse (trace (snd run)) = true.
Proof. cbv zeta. split; vm_compute; reflexivity. Qed.

Lemma startup_sasl_unsupported_witness :
  let options := SampleSASL.options (Some "secret") in
  let w := Sample.world [AuthenticationSASL (Some ["PLAIN"; "SCRAM-SHA-1"])] in
  connectError w = None
  /\ incoming w = AuthenticationSASL (Some ["PLAIN"; "SCRAM-SHA-1"]) :: []
  /\ ~ In "SCRAM-SHA-256" ["PLAIN"; "SCRAM-SHA-1"]
  /\ exists reason,
       SampleSASL.startup options w
       = (Exited 1,
          startup_failed options w
            (AuthenticationSASL (Some ["PLAIN"; "SCRAM-SHA-1"])) [] reason).
Proof.
  intros options w.
  assert (~ In "SCRAM-SHA-256" ["PLAIN"; "SCRAM-SHA-1"]) as Hnot
    by (intros [H|[H|[]]]; discriminate).
  split; [reflexivity|]. split; [reflexivity|]. split; [exact Hnot|].
  destruct (startup_sasl_unsupported
              SampleSASL.createInitialSASLResponse
              SampleSASL.createClientSASLContinueResponse
              SampleSASL.checkServerFinalMessage Sample.unexpected
              options w ["PLAIN"; "SCRAM-SHA-1"] [] eq_refl eq_refl Hnot)
    as (reason & Hrun & _).
  exists reason. exact Hrun.
Defined.

(** C1, as stated, fails for the attribute lookup: in the sample run the
    field [one] is a computed column (columnAttrNumber 0), and the last
    query [getTypes] sends, the one over pg_attribute, has the predicate for
    its pair. *)
Lemma getTypes_attribute_query_counterexample :
  let fields := [SampleQuery.one; SampleQuery.id] in
  let run :=
    SampleQuery.getTypes SampleQuery.queryData
      (Sample.world SampleQuery.script) in
  In SampleQuery.one fields
  /\ columnAttrNumber SampleQuery.one <= 0
  /\ last (sent_queries (trace (snd run))) = Some (attributes_text fields)
  /\ attrMatcher SampleQuery.one = "(attrelid = 0 and attnum = 0)"
  /\ Str.occurs "(attrelid = 0 and attnum = 0)" (attributes_text fields).
Proof.
  cbv zeta. split; [now left|]. split; [discriminate|].
  split; [vm_compute; reflexivity|]. split; [reflexivity|].
  apply (attributes_text_includes [SampleQuery.one; SampleQuery.id]
           SampleQuery.one).
  now left.
Qed.

Lemma nonpositive_columnAttrNumber_lookups_witness :
  let fields := [SampleQuery.one; SampleQuery.id] in
  In SampleQuery.one fields
  /\ columnAttrNumber SampleQuery.one <= 0
  /\ (forall w, exists evs rest,
        snd (getComments Sample.unexpected (option Z) SampleQuery.Number
               fields w)
        = with_events w evs rest
        /\ forall q, In q (sent_queries evs) ->
                     ~ Str.occurs (commentMatcher SampleQuery.one) q)
  /\ Str.occurs (attrMatcher SampleQuery.one) (attributes_text fields).
Proof.
  cbv zeta.
  assert (In SampleQuery.one [SampleQuery.one; SampleQuery.id]) as Hin
    by now left.
  assert (columnAttrNumber SampleQuery.one <= 0) as Hle by discriminate.
  split; [exact Hin|]. split; [exact Hle|].
  exact (nonpositive_columnAttrNumber_lookups Sample.unexpected (option Z)
           SampleQuery.Number [SampleQuery.one; SampleQuery.id]
           SampleQuery.one Hin Hle).
Defined.

Lemma getTypes_unmatched_field_witness :
  SampleQuery.getTypes SampleQuery.queryData SampleRun.w0
  = (Returned (inr SampleRun.result),
     snd (SampleQuery.getTypes SampleQuery.queryData SampleRun.w0))
  /\ exists entry,
       returnTypes SampleRun.result !! 0%nat = Some entry
       /\ columnName entry = None /\ nullable entry = None
       /\ returnName entry = "one"
       /\ type entry = Some (Scalar "int4").
Proof.
  assert (SampleQuery.getTypes SampleQuery.queryData SampleRun.w0
          = (Returned (inr SampleRun.result),
             snd (SampleQuery.getTypes SampleQuery.queryData SampleRun.w0)))
    as Hrun by (vm_compute; reflexivity).
  split; [exact Hrun|].
  destruct (getTypes_unmatched_field "e" Sample.unexpected unit (option Z)
              SampleQuery.Number SampleQuery.string_of_Number
              SampleQuery.queryData SampleRun.w0
              (snd (SampleQuery.getTypes SampleQuery.queryData SampleRun.w0))
              SampleRun.result Hrun)
    as (data & w1 & plan & w2 & typeRows & w3 & commentRows & w4
        & attributeRows & H1 & H2 & H3 & H4 & H5 & Hentries).
  assert (getTypeData Sample.unexpected (iq_query SampleQuery.queryData)
            SampleRun.w0
          = (Returned (inr SampleRun.data), SampleRun.w1)) as E1
    by (vm_compute; reflexivity).
  rewrite E1 in H1. injection H1 as <- <-.
  assert (explainQuery Sample.unexpected (iq_query SampleQuery.queryData)
            (inr SampleRun.data) SampleRun.w1
          = (Returned (inr [Some "Seq Scan on users"]), SampleRun.w2)) as E2
    by (vm_compute; reflexivity).
  rewrite E2 in H2. injection H2 as <- <-.
  assert (runTypesCatalogQuery Sample.unexpected
            (TypeData.params SampleRun.data
             ++ List.map typeOID (TypeData.fields SampleRun.data))
            SampleRun.w2
          = (Returned SampleRun.typeRows, SampleRun.w3)) as E3
    by (vm_compute; reflexivity).
  rewrite E3 in H3. injection H3 as <- <-.
  assert (getComments Sample.unexpected (option Z) SampleQuery.Number
            (TypeData.fields SampleRun.data) SampleRun.w3
          = (Returned [], SampleRun.w4)) as E4
    by (vm_compute; reflexivity).
  rewrite E4 in H4. injection H4 as <- <-.
  assert (fst (runQuery Sample.unexpected
                 (attributes_text (TypeData.fields SampleRun.data))
                 SampleRun.w4)
          = Returned SampleRun.attributeRows) as E5
    by (vm_compute; reflexivity).
  rewrite H5 in E5. injection E5 as ->.
  destruct (Hentries 0%nat SampleQuery.one eq_refl)
    as (entry & He & Hc & Hn & Hr & Ht).
  - intros row [<-|[]]. vm_compute. discriminate.
  - exists entry. repeat (split; [assumption|]).
    rewrite Ht. vm_compute. reflexivity.
Defined.

(** * Further properties *)

(** ** The escaper and the statement name *)

Lemma string_length_append (a b : string) :
  String.length (a +:+ b) = (String.length a + String.length b)%nat.
Proof.
  induction a as [|c a IH]; [reflexivity|].
  change (S (String.length (a +:+ b))
          = S (String.length a + String.length b)%nat).
  now rewrite IH.
Qed.

Lemma replace_chars_cons (p : ascii -> bool) (by_ : string) (c : ascii)
    (s : string) :
  Str.replace_chars p by_ (String c s)
  = if p c then by_ +:+ Str.replace_chars p by_ s
    else String c (Str.replace_chars p by_ s).
Proof. reflexivity. Qed.

Lemma replace_quote_or_nul_length (s : string) :
  String.length
    (Str.replace_chars quote_or_nul
       (String Str.dquote (String Str.dquote EmptyString)) s)
  = (String.length s + count_chars quote_or_nul s)%nat.
Proof.
  induction s as [|c s IH]; [reflexivity|].
  rewrite replace_chars_cons. cbn [count_chars String.length].
  destruct (quote_or_nul c).
  - rewrite string_length_append, IH. cbn [String.length]. lia.
  - cbn [String.length]. rewrite IH. lia.
Qed.

(** X1: the escaped identifier is as long as the identifier, plus the two
    outer quotes, plus one for every double quote and every NUL of it. *)
Theorem escapeSqlIdentifier_length (str : string) :
  String.length (escapeSqlIdentifier str)
  = (String.length str + 2 + count_chars quote_or_nul str)%nat.
Proof.
  unfold escapeSqlIdentifier. cbn [String.length].
  rewrite string_length_append, replace_quote_or_nul_length.
  cbn [String.length]. lia.
Qed.

Lemma replace_quote_or_nul_paired (s : string) :
  quotes_paired
    (Str.replace_chars quote_or_nul
       (String Str.dquote (String Str.dquote EmptyString)) s) = true
  /\ Str.mem Str.nul
       (Str.replace_chars quote_or_nul
          (String Str.dquote (String Str.dquote EmptyString)) s) = false.
Proof.
  induction s as [|c s [IHq IHn]]; [split; reflexivity|].
  rewrite replace_chars_cons.
  destruct (quote_or_nul c) eqn:E.
  - change (String Str.dquote (String Str.dquote EmptyString) +:+ ?x)
      with (String Str.dquote (String Str.dquote x)).
    split; [exact IHq | exact IHn].
  - unfold quote_or_nul in E. apply orb_false_iff in E as [Hq Hn].
    split.
    + cbn [quotes_paired]. now rewrite Hq.
    + cbn [Str.mem]. now rewrite IHn, orb_false_r, Ascii.eqb_sym.
Qed.

(** X2: the escaped identifier is one quoted token: it is a double quote, a
    body and a double quote, where the body holds no NUL and every double
    quote of the body stands in a pair, so that no character of the
    identifier can end the quoting. *)
Theorem escapeSqlIdentifier_quoted (str : string) :
  exists body,
    escapeSqlIdentifier str
    = String Str.dquote (body +:+ String Str.dquote EmptyString)
    /\ quotes_paired body = true
    /\ Str.mem Str.nul body = false.
Proof.
  eexists. split; [reflexivity|]. apply replace_quote_or_nul_paired.
Qed.

Lemma string_of_list_ascii_length (l : list ascii) :
  String.length (string_of_list_ascii l) = List.length l.
Proof. induction l as [|c l IH]; [reflexivity|]. cbn. now rewrite IH. Qed.

Lemma le_bytes_length (n : nat) (x : Z) :
  List.length (Crypto.le_bytes n x) = n.
Proof.
  revert x. induction n as [|n IH]; intros x; [reflexivity|].
  cbn [Crypto.le_bytes List.length]. now rewrite IH.
Qed.

(** An MD5 digest has 16 bytes, whatever was hashed. *)
Lemma md5_length (msg : string) : String.length (Crypto.md5 msg) = 16%nat.
Proof.
  unfold Crypto.md5.
  destruct (Crypto.blocks _ _ _) as [a b c d].
  unfold Crypto.string_of_bytes.
  rewrite string_of_list_ascii_length, List.length_map, !List.length_app,
    !le_bytes_length.
  reflexivity.
Qed.

Lemma hex_length (s : string) :
  String.length (Crypto.hex s) = (2 * String.length s)%nat.
Proof.
  induction s as [|c s IH]; [reflexivity|].
  cbn [Crypto.hex String.length]. rewrite IH. lia.
Qed.

Lemma hex_digits (c : ascii) :
  is_lower_hex (Crypto.hex_digit (N_of_ascii c / 16)) = true
  /\ is_lower_hex (Crypto.hex_digit (N_of_ascii c mod 16)) = true.
Proof. destruct c as [[] [] [] [] [] [] [] []]; split; reflexivity. Qed.

Lemma hex_chars (s : string) :
  Scan.all_chars is_lower_hex (Crypto.hex s) = true.
Proof.
  induction s as [|c s IH]; [reflexivity|].
  cbn [Crypto.hex Scan.all_chars].
  destruct (hex_digits c) as [-> ->]. exact IH.
Qed.

Lemma lower_hex_not_quote_or_nul (c : ascii) :
  is_lower_hex c = true -> quote_or_nul c = false.
Proof.
  destruct c as [[] [] [] [] [] [] [] []]; vm_compute; congruence.
Qed.

Lemma replace_chars_none (p : ascii -> bool) (by_ s : string) :
  count_chars p s = 0%nat -> Str.replace_chars p by_ s = s.
Proof.
  induction s as [|c s IH]; [reflexivity|].
  rewrite replace_chars_cons. cbn [count_chars].
  destruct (p c); [discriminate|]. intros H. now rewrite IH.
Qed.

Lemma count_chars_lower_hex (s : string) :
  Scan.all_chars is_lower_hex s = true -> count_chars quote_or_nul s = 0%nat.
Proof.
  induction s as [|c s IH]; [reflexivity|].
  cbn [Scan.all_chars count_chars]. intros H.
  apply andb_true_iff in H as [Hc Hs].
  now rewrite (lower_hex_not_quote_or_nul c Hc), IH.
Qed.

(** X3: the statement name of a query is 32 lowercase hexadecimal digits,
    whatever the query; so the escaper leaves it as it is between the two
    quotes, and the explain query names the statement that was parsed. *)
Theorem uniqueName_of_hex (query : string) :
  String.length (uniqueName_of query) = 32%nat
  /\ Scan.all_chars is_lower_hex (uniqueName_of query) = true
  /\ escapeSqlIdentifier (uniqueName_of query)
     = String Str.dquote
         (uniqueName_of query +:+ String Str.dquote EmptyString).
Proof.
  unfold uniqueName_of, Crypto.digest_hex.
  split; [now rewrite hex_length, md5_length|].
  split; [apply hex_chars|].
  unfold escapeSqlIdentifier.
  now rewrite replace_chars_none
    by (apply count_chars_lower_hex, hex_chars).
Qed.

(** X4: the MD5 credential is always 35 characters: the prefix md5 and 32
    lowercase hexadecimal digits, whatever the user name, the password and
    the salt are. *)
Theorem generateHash_format (username password salt : string) :
  String.length (generateHash username password salt) = 35%nat
  /\ exists digits,
       generateHash username password salt = ("md5" +:+ digits)%string
       /\ String.length digits = 32%nat
       /\ Scan.all_chars is_lower_hex digits = true.
Proof.
  unfold generateHash, Crypto.digest_hex.
  split.
  - rewrite string_length_append, hex_length, md5_length. reflexivity.
  - eexists. split; [reflexivity|]. split.
    + now rewrite hex_length, md5_length.
    + apply hex_chars.
Qed.

(** ** The simple query runner *)

Section RunnerProperties.

Variable unexpectedMessage : list messages.kind -> ServerMessage -> Js.Exn.

Local Abbreviation runQuery := (runQuery unexpectedMessage).

(** The row loop over the data rows the server has ready, up to the
    command-complete that ends them. *)
Lemma row_loop (tag : string) (rest : list ServerMessage)
    (rows : list (list string)) :
  forall (acc : list (list string)) (w : World) (rounds : nat),
    incoming w = List.map DataRow rows ++ CommandComplete tag :: rest ->
    (List.length rows < rounds)%nat ->
    loop_rounds rounds (row_round unexpectedMessage) acc w
    = (Returned (acc ++ rows),
       with_events w
         (List.map (fun r => Received (DataRow r)) rows
          ++ [Received (CommandComplete tag)]) rest).
Proof.
  induction rows as [|r rows IH]; intros acc w rounds Hin Hlt;
    (destruct rounds as [|n]; [cbn in Hlt; lia|]); cbn [loop_rounds].
  - unfold row_round.
    rewrite (bind_reply_cons unexpectedMessage _ _ _ (CommandComplete tag) rest)
      by (first [exact Hin | reflexivity]).
    cbn. now rewrite app_nil_r.
  - unfold row_round at 1.
    rewrite (bind_reply_cons unexpectedMessage _ _ _ (DataRow r)
               (List.map DataRow rows ++ CommandComplete tag :: rest))
      by (first [exact Hin | reflexivity]).
    cbn [mret Async_ret].
    rewrite (IH (acc ++ [r])
               (with_events w [Received (DataRow r)]
                  (List.map DataRow rows ++ CommandComplete tag :: rest))
               n eq_refl) by (cbn in Hlt; lia).
    rewrite with_events_app, <- app_assoc. reflexivity.
Qed.

Lemma runQuery_script (query : string) (w : World) (fields : list TypeField)
    (rows : list (list string)) (tag : string) (rest : list ServerMessage) :
  incoming w
  = RowDescription fields
    :: List.map DataRow rows ++ CommandComplete tag :: rest ->
  runQuery query w
  = (Returned rows,
     with_events w
       (Sent (messages.query query) :: Received (RowDescription fields)
        :: List.map (fun r => Received (DataRow r)) rows
        ++ [Received (CommandComplete tag)]) rest).
Proof.
  intros Hin. unfold runQuery. rewrite bind_send.
  rewrite (bind_reply_cons unexpectedMessage _ _ _ (RowDescription fields)
             (List.map DataRow rows ++ CommandComplete tag :: rest))
    by (first [exact Hin | reflexivity]).
  unfold while_true.
  rewrite (row_loop tag rest rows []) by
    (cbn [with_events incoming];
     first [reflexivity | rewrite List.length_app, List.length_map; cbn; lia]).
  rewrite !with_events_app. reflexivity.
Qed.

(** X5: when the server answers a query with a row description, data rows
    and command-complete, [runQuery] returns the texts of the rows in the
    order of their arrival, however many there are, and leaves what follows
    command-complete on the channel. *)
Theorem runQuery_rows (query : string) (w : World) (fields : list TypeField)
    (rows : list (list string)) (tag : string) (rest : list ServerMessage) :
  incoming w
  = RowDescription fields
    :: List.map DataRow rows ++ CommandComplete tag :: rest ->
  runQuery query w
  = (Returned rows,
     with_events w
       (Sent (messages.query query) :: Received (RowDescription fields)
        :: List.map (fun r => Received (DataRow r)) rows
        ++ [Received (CommandComplete tag)]) rest).
Proof. apply runQuery_script. Qed.

(** X6: when the first message after the query is not a row description
    (an error response, say), [runQuery] throws the error of the channel,
    having used up that one message and sent nothing but the query: it does
    not sync. *)
Theorem runQuery_unexpected (query : string) (w : World) (m : ServerMessage)
    (rest : list ServerMessage) :
  incoming w = m :: rest ->
  expected m [messages.rowDescription] = false ->
  runQuery query w
  = (Thrown (unexpectedMessage [messages.rowDescription] m),
     with_events w [Sent (messages.query query); Received m] rest).
Proof.
  intros Hin Hexp. unfold runQuery. rewrite bind_send.
  unfold mbind, Async_bind.
  rewrite (reply_cons unexpectedMessage _ _ m rest) by exact Hin.
  rewrite Hexp. now rewrite with_events_app.
Qed.

(** X7: whatever the server does, the only message [runQuery] sends is the
    query itself; every other event it adds is an arrival, and it writes
    nothing on the console. *)
Theorem runQuery_sends_only_query (query : string) (w : World) :
  exists evs,
    trace (snd (runQuery query w))
    = trace w ++ Sent (messages.query query) :: evs
    /\ forallb is_received evs = true
    /\ console (snd (runQuery query w)) = console w.
Proof.
  destruct (runQuery_events unexpectedMessage query w)
    as (evs & rest & Hw & Hr).
  exists evs. rewrite Hw. now repeat split.
Qed.

End RunnerProperties.

Lemma runQuery_rows_witness :
  let w :=
    Sample.world
      [ RowDescription []; DataRow ["1"; "a"]; DataRow ["2"; "b"];
        CommandComplete "SELECT 2"; ReadyForQuery "I" ] in
  incoming w
  = RowDescription []
    :: List.map DataRow [["1"; "a"]; ["2"; "b"]]
    ++ CommandComplete "SELECT 2" :: [ReadyForQuery "I"]
  /\ fst (runQuery Sample.unexpected "select id, name from t" w)
     = Returned [["1"; "a"]; ["2"; "b"]]
  /\ incoming (snd (runQuery Sample.unexpected "select id, name from t" w))
     = [ReadyForQuery "I"].
Proof.
  intros w.
  assert (incoming w
          = RowDescription []
            :: List.map DataRow [["1"; "a"]; ["2"; "b"]]
            ++ CommandComplete "SELECT 2" :: [ReadyForQuery "I"]) as Hin
    by reflexivity.
  split; [exact Hin|].
  rewrite (runQuery_rows Sample.unexpected "select id, name from t" w []
             [["1"; "a"]; ["2"; "b"]] "SELECT 2" [ReadyForQuery "I"] Hin).
  split; reflexivity.
Defined.

Lemma runQuery_unexpected_witness :
  let w := Sample.world [ErrorResponse Sample.permission_denied] in
  incoming w = ErrorResponse Sample.permission_denied :: []
  /\ expected (ErrorResponse Sample.permission_denied)
       [messages.rowDescription] = false
  /\ runQuery Sample.unexpected "select 1" w
     = (Thrown (Sample.unexpected [messages.rowDescription]
                  (ErrorResponse Sample.permission_denied)),
        with_events w
          [ Sent (messages.query "select 1");
            Received (ErrorResponse Sample.permission_denied) ] []).
Proof.
  intros w. split; [reflexivity|]. split; [reflexivity|].
  exact (runQuery_unexpected Sample.unexpected "select 1" w
           (ErrorResponse Sample.permission_denied) [] eq_refl eq_refl).
Defined.

(** ** The prober, the validator and the orchestrator *)

Section PipelineProperties.

Variable DatabaseTypeKind_Enum : string.
Variable unexpectedMessage : list messages.kind -> ServerMessage -> Js.Exn.
Variable QueryParameter : Type.
Variable JsNumber : Type.
Variable Number : option string -> JsNumber.
Variable string_of_Number : JsNumber -> string.

Local Abbreviation reply := (reply unexpectedMessage).
Local Abbreviation runQuery := (runQuery unexpectedMessage).
Local Abbreviation getTypeData := (getTypeData unexpectedMessage).
Local Abbreviation explainQuery := (explainQuery unexpectedMessage).
Local Abbreviation getComments :=
  (getComments unexpectedMessage JsNumber Number).
Local Abbreviation runTypesCatalogQuery :=
  (runTypesCatalogQuery unexpectedMessage).
Local Abbreviation getTypes_resolve :=
  (getTypes_resolve DatabaseTypeKind_Enum unexpectedMessage QueryParameter
                    JsNumber Number string_of_Number).
Local Abbreviation getTypes :=
  (getTypes DatabaseTypeKind_Enum unexpectedMessage QueryParameter JsNumber
            Number string_of_Number).

(** The probe up to the sync that follows the reply to the parse. *)
Lemma getTypeData_probe (query : string) (w : World) (m : ServerMessage)
    (rest : list ServerMessage) (k : ServerMessage -> Async TypeData) :
  incoming w = m :: rest ->
  expected m [messages.errorResponse; messages.parseComplete] = true ->
  (send (messages.parse (uniqueName_of query) query []);;
   send (messages.describe (uniqueName_of query) Statement);;
   send (messages.close Statement (uniqueName_of query));;
   send messages.flush;;
   parseResult ← reply [messages.errorResponse; messages.parseComplete];
   send messages.sync;;
   k parseResult) w
  = k m (with_events w
           (probe_events query ++ [Received m; Sent messages.sync]) rest).
Proof.
  intros Hin Hexp. rewrite !bind_send.
  rewrite (bind_reply_cons unexpectedMessage _ _ _ m rest) by assumption.
  rewrite bind_send. cbn [with_events incoming trace console connectError].
  unfold with_events, probe_events. cbn [trace console connectError].
  now rewrite <- !app_assoc.
Qed.

Lemma getTypeData_script (query : string) (w : World)
    (paramsResult fieldsResult : ServerMessage) (rest : list ServerMessage) :
  incoming w
  = ParseComplete :: paramsResult :: fieldsResult :: CloseComplete :: rest ->
  expected paramsResult [messages.parameterDescription; messages.noData] = true ->
  expected fieldsResult [messages.rowDescription; messages.noData] = true ->
  getTypeData query w
  = (Returned (inr {| TypeData.fields := fields_of fieldsResult;
                      TypeData.params := params_of paramsResult |}),
     with_events w
       (probe_events query
        ++ [ Received ParseComplete; Sent messages.sync;
             Received paramsResult; Received fieldsResult;
             Received CloseComplete ]) rest).
Proof.
  intros Hin Hp Hf. unfold getTypeData.
  rewrite (getTypeData_probe query w ParseComplete
             (paramsResult :: fieldsResult :: CloseComplete :: rest))
    by (first [exact Hin | reflexivity]).
  cbv beta iota.
  rewrite (bind_reply_cons unexpectedMessage _ _ _ paramsResult
             (fieldsResult :: CloseComplete :: rest))
    by (first [reflexivity | exact Hp]).
  rewrite (bind_reply_cons unexpectedMessage _ _ _ fieldsResult
             (CloseComplete :: rest))
    by (first [reflexivity | exact Hf]).
  rewrite (bind_reply_cons unexpectedMessage _ _ _ CloseComplete rest)
    by reflexivity.
  rewrite !with_events_app, <- !app_assoc. reflexivity.
Qed.

(** X8: when the parse succeeds, [getTypeData] reads the parameters and the
    fields off the next two replies, taking an empty sequence for a reply
    that is no-data, awaits close-complete and returns them, having sent
    nothing after the sync. *)
Theorem getTypeData_described (query : string) (w : World)
    (paramsResult fieldsResult : ServerMessage) (rest : list ServerMessage) :
  incoming w
  = ParseComplete :: paramsResult :: fieldsResult :: CloseComplete :: rest ->
  expected paramsResult [messages.parameterDescription; messages.noData] = true ->
  expected fieldsResult [messages.rowDescription; messages.noData] = true ->
  getTypeData query w
  = (Returned (inr {| TypeData.fields := fields_of fieldsResult;
                      TypeData.params := params_of paramsResult |}),
     with_events w
       (probe_events query
        ++ [ Received ParseComplete; Sent messages.sync;
             Received paramsResult; Received fieldsResult;
             Received CloseComplete ]) rest)
  /\ (paramsResult = NoData -> params_of paramsResult = [])
  /\ (fieldsResult = NoData -> fields_of fieldsResult = []).
Proof.
  intros Hin Hp Hf. split; [now apply getTypeData_script|].
  split; now intros ->.
Qed.

Lemma getTypeData_parse_error (query : string) (w : World)
    (errorFields : gmap string string) (rest : list ServerMessage) :
  incoming w = ErrorResponse errorFields :: rest ->
  getTypeData query w
  = (Returned (inl (parseError_of errorFields)),
     with_events w
       (probe_events query
        ++ [Received (ErrorResponse errorFields); Sent messages.sync]) rest).
Proof.
  intros Hin. unfold getTypeData.
  now rewrite (getTypeData_probe query w (ErrorResponse errorFields) rest)
    by (first [exact Hin | reflexivity]).
Qed.

(** X9: when the probe of a query meets an error response, [getTypes]
    returns the parse error of that response and stops there: the last
    thing it sent is the sync of the probe, so that no explain and no
    catalog query follows. *)
Theorem getTypes_parse_error (queryData : InterpolatedQuery QueryParameter)
    (w : World) (errorFields : gmap string string)
    (rest : list ServerMessage) :
  incoming w = ErrorResponse errorFields :: rest ->
  getTypes queryData w
  = (Returned (inl {| errorCode := errorFields !! "R";
                      hint := errorFields !! "H";
                      message := errorFields !! "M";
                      position := errorFields !! "P" |}),
     with_events w
       (probe_events (iq_query queryData)
        ++ [Received (ErrorResponse errorFields); Sent messages.sync]) rest).
Proof.
  intros Hin. unfold getTypes, mbind at 1, Async_bind at 1.
  now rewrite (getTypeData_parse_error _ _ _ _ Hin).
Qed.

(** X10: when the explain validator returns a parse error for the probed
    type data, [getTypes] returns that error in the world the validator
    left: nothing of the catalog is queried. *)
Theorem getTypes_explain_error (queryData : InterpolatedQuery QueryParameter)
    (w w1 w2 : World) (data : TypeData.t) (err : IParseError) :
  getTypeData (iq_query queryData) w = (Returned (inr data), w1) ->
  explainQuery (iq_query queryData) (inr data) w1 = (Returned (inl err), w2) ->
  getTypes queryData w = (Returned (inl err), w2).
Proof.
  intros Hprobe Hexplain. unfold getTypes, mbind at 1, Async_bind at 1.
  rewrite Hprobe. unfold doTestRuns, mbind at 1, Async_bind at 1.
  now rewrite Hexplain.
Qed.

(** X11: the lookups that have nothing to look up send nothing: the types
    catalog is not queried for no oid, and the comments are not queried
    when no field is a real column (every columnAttrNumber at most 0); both
    return the empty sequence in the world as it was. *)
Theorem empty_lookups (fields : list TypeField) (w : World) :
  Forall (fun f => columnAttrNumber f <= 0) fields ->
  runTypesCatalogQuery [] w = (Returned [], w)
  /\ getComments fields w = (Returned [], w).
Proof.
  intros Hall. split; [reflexivity|].
  unfold getComments.
  assert (List.filter (fun f => 0 <? columnAttrNumber f) fields = []) as ->;
    [|reflexivity].
  induction Hall as [|f l Hf Hl IH]; [reflexivity|].
  cbn [List.filter]. destruct (Z.ltb_spec 0 (columnAttrNumber f)); [lia|].
  exact IH.
Qed.

End PipelineProperties.

Section ResolveProperties.

Variable DatabaseTypeKind_Enum : string.
Variable unexpectedMessage : list messages.kind -> ServerMessage -> Js.Exn.
Variable QueryParameter : Type.
Variable JsNumber : Type.
Variable Number : option string -> JsNumber.
Variable string_of_Number : JsNumber -> string.

Local Abbreviation runQuery := (runQuery unexpectedMessage).
Local Abbreviation getTypeData := (getTypeData unexpectedMessage).
Local Abbreviation explainQuery := (explainQuery unexpectedMessage).
Local Abbreviation getTypes_resolve :=
  (getTypes_resolve DatabaseTypeKind_Enum unexpectedMessage QueryParameter
                    JsNumber Number string_of_Number).
Local Abbreviation getTypes :=
  (getTypes DatabaseTypeKind_Enum unexpectedMessage QueryParameter JsNumber
            Number string_of_Number).

(** X12: when the parse succeeds, the explain query is answered with rows
    and the cleanup meets close-complete, [explainQuery] returns the first
    column of every row of the plan, in order (nothing for a row without
    columns), and what it did on the channel is the parse, the explain
    query over the statement name and the cleanup. *)
Theorem explainQuery_plan (query : string) (data : TypeData.t) (w : World)
    (fields : list TypeField) (rows : list (list string)) (tag : string)
    (rest : list ServerMessage) :
  incoming w
  = ParseComplete :: RowDescription fields
    :: List.map DataRow rows
    ++ CommandComplete tag :: CloseComplete :: rest ->
  explainQuery query (inr data) w
  = (Returned (inr (List.map (fun row : list string => head row) rows)),
     with_events w (explain_events query data fields rows tag) rest).
Proof.
  intros Hin.
  rewrite (explainQuery_finish unexpectedMessage query data w ParseComplete
             (RowDescription fields
              :: List.map DataRow rows
              ++ CommandComplete tag :: CloseComplete :: rest)
             (inr (List.map (fun row : list string => head row) rows))
             (with_events
                (after_parse query w ParseComplete
                   (RowDescription fields
                    :: List.map DataRow rows
                    ++ CommandComplete tag :: CloseComplete :: rest))
                (Sent (messages.query
                         (explain_text (uniqueName_of query)
                            (length (TypeData.params data))))
                 :: Received (RowDescription fields)
                 :: List.map (fun r => Received (DataRow r)) rows
                 ++ [Received (CommandComplete tag)])
                (CloseComplete :: rest))
             Hin eq_refl).
  - cbn [with_events incoming].
    change (expected CloseComplete [messages.closeComplete]) with true.
    cbv iota. unfold after_parse, explain_events, received_rows,
      cleanup_events.
    rewrite !with_events_app. f_equal. f_equal.
    cbn [app]. rewrite <- !app_assoc. reflexivity.
  - rewrite explain_try_catch_eq by reflexivity.
    now rewrite (runQuery_script unexpectedMessage _
                   (after_parse query w ParseComplete
                      (RowDescription fields
                       :: List.map DataRow rows
                       ++ CommandComplete tag :: CloseComplete :: rest))
                   fields rows tag (CloseComplete :: rest) eq_refl).
Qed.

(** X13: for a statement with no parameter and no result column the types
    catalog and the comments are not queried, but the attribute lookup is
    still sent, with the predicate false; once it is answered the result
    has no parameter types and no return types, and the mapping of the
    caller. *)
Theorem getTypes_resolve_no_types
    (queryData : InterpolatedQuery QueryParameter) (w : World)
    (fields : list TypeField) (rows : list (list string)) (tag : string)
    (rest : list ServerMessage) :
  incoming w
  = RowDescription fields
    :: List.map DataRow rows ++ CommandComplete tag :: rest ->
  getTypes_resolve queryData no_types w
  = (Returned
       (inr {| paramMetadata :=
                 {| mapping := iq_mapping queryData; params := [] |};
               returnTypes := [] |}),
     with_events w
       (Sent (messages.query (attributes_text [])) :: Received (RowDescription fields)
        :: List.map (fun r => Received (DataRow r)) rows
        ++ [Received (CommandComplete tag)]) rest)
  /\ attributes_text []
     = ("SELECT" +:+ Str.nl
        +:+ "      (attrelid || ':' || attnum) AS attid, attname, attnotnull"
        +:+ Str.nl +:+ "     FROM pg_attribute WHERE false;")%string.
Proof.
  intros Hin. split; [|reflexivity].
  unfold getTypes_resolve, no_types.
  cbn [TypeData.fields TypeData.params app List.map].
  unfold runTypesCatalogQuery, getComments.
  cbn [length Nat.ltb Nat.leb List.filter Nat.eqb].
  unfold mbind, Async_bind. cbn [mret Async_ret].
  now rewrite (runQuery_script unexpectedMessage _ _ fields rows tag rest Hin).
Qed.

(** What has happened when [getTypes] returns the types of a query, with
    the whole result. *)
Lemma getTypes_returned_result (queryData : InterpolatedQuery QueryParameter)
    (w w' : World) (result : IQueryTypes QueryParameter) :
  getTypes queryData w = (Returned (inr result), w') ->
  exists data w1 typeRows commentRows attributeRows,
    getTypeData (iq_query queryData) w = (Returned (inr data), w1)
    /\ result
       = {| paramMetadata :=
              {| params :=
                   List.map
                     (fun oid =>
                        reduceTypeRows DatabaseTypeKind_Enum typeRows
                          !! Js.string_of_Z oid)
                     (TypeData.params data);
                 mapping := iq_mapping queryData |};
            returnTypes :=
              List.map
                (returnType_of (reduceTypeRows DatabaseTypeKind_Enum typeRows)
                   (attrMap_of attributeRows)
                   (commentMap_of string_of_Number commentRows))
                (TypeData.fields data) |}.
Proof.
  unfold getTypes. intros H.
  apply bind_returned in H as ([err|data] & w1 & Hprobe & H);
    [discriminate|].
  unfold doTestRuns in H.
  apply bind_returned in H as ([err|plan] & w2 & Hexplain & H);
    [discriminate|].
  unfold getTypes_resolve in H.
  apply bind_returned in H as (typeRows & w3 & Hrows & H).
  apply bind_returned in H as (commentRows & w4 & Hcomments & H).
  apply bind_returned in H as (attributeRows & w5 & Hattr & H).
  injection H as <- <-.
  exists data, w1, typeRows, commentRows, attributeRows. now split.
Qed.

(** X14: when [getTypes] returns the types of a query, the result follows
    the probe: one return type per probed field, named after the fields in
    their order; one parameter type per probed parameter; the mapping of
    the caller unchanged; and no return type carries an empty comment. *)
Theorem getTypes_result_shape (queryData : InterpolatedQuery QueryParameter)
    (w w' : World) (result : IQueryTypes QueryParameter) :
  getTypes queryData w = (Returned (inr result), w') ->
  exists data w1,
    getTypeData (iq_query queryData) w = (Returned (inr data), w1)
    /\ List.map returnName (returnTypes result)
       = List.map name (TypeData.fields data)
    /\ length (params (paramMetadata result))
       = length (TypeData.params data)
    /\ mapping (paramMetadata result) = iq_mapping queryData
    /\ Forall (fun entry => comment entry <> Some EmptyString)
         (returnTypes result).
Proof.
  intros H.
  destruct (getTypes_returned_result _ _ _ _ H)
    as (data & w1 & typeRows & commentRows & attributeRows & Hprobe & ->).
  exists data, w1. split; [assumption|].
  cbn [returnTypes paramMetadata params mapping].
  split; [now rewrite List.map_map|].
  split; [now rewrite List.length_map|].
  split; [reflexivity|].
  apply List.Forall_forall. intros entry Hentry.
  apply List.in_map_iff in Hentry as (f & <- & _).
  unfold returnType_of. cbn [comment].
  destruct (mjoin _) as [[|c s]|]; cbn; discriminate.
Qed.

End ResolveProperties.

Lemma getTypeData_described_witness :
  let w := Sample.world SampleMore.no_data_script in
  incoming w = ParseComplete :: NoData :: NoData :: CloseComplete :: []
  /\ expected NoData [messages.parameterDescription; messages.noData] = true
  /\ expected NoData [messages.rowDescription; messages.noData] = true
  /\ fst (getTypeData Sample.unexpected "BEGIN" w) = Returned (inr no_types).
Proof.
  intros w. split; [reflexivity|]. split; [reflexivity|].
  split; [reflexivity|].
  rewrite (proj1 (getTypeData_described Sample.unexpected "BEGIN" w
                    NoData NoData [] eq_refl eq_refl eq_refl)).
  reflexivity.
Defined.

Lemma getTypes_parse_error_witness :
  let w := Sample.world [ErrorResponse Sample.syntax_error; ReadyForQuery "I"] in
  incoming w = ErrorResponse Sample.syntax_error :: [ReadyForQuery "I"]
  /\ fst (SampleQuery.getTypes SampleQuery.queryData w)
     = Returned (inl (parseError_of Sample.syntax_error))
  /\ incoming (snd (SampleQuery.getTypes SampleQuery.queryData w))
     = [ReadyForQuery "I"].
Proof.
  intros w. split; [reflexivity|].
  rewrite (getTypes_parse_error "e" Sample.unexpected unit (option Z)
             SampleQuery.Number SampleQuery.string_of_Number
             SampleQuery.queryData w Sample.syntax_error [ReadyForQuery "I"]
             eq_refl).
  split; reflexivity.
Defined.

Lemma getTypes_explain_error_witness :
  let w := Sample.world SampleMore.refused_script in
  getTypeData Sample.unexpected (iq_query SampleMore.begin_query) w
  = (Returned (inr no_types), SampleMore.refused_w1)
  /\ explainQuery Sample.unexpected (iq_query SampleMore.begin_query)
       (inr no_types) SampleMore.refused_w1
     = (Returned (inl (parseError_of Sample.syntax_error)),
        SampleMore.refused_w2)
  /\ SampleQuery.getTypes SampleMore.begin_query w
     = (Returned (inl (parseError_of Sample.syntax_error)),
        SampleMore.refused_w2).
Proof.
  intros w.
  assert (getTypeData Sample.unexpected (iq_query SampleMore.begin_query) w
          = (Returned (inr no_types), SampleMore.refused_w1)) as H1
    by (vm_compute; reflexivity).
  assert (explainQuery Sample.unexpected (iq_query SampleMore.begin_query)
            (inr no_types) SampleMore.refused_w1
          = (Returned (inl (parseError_of Sample.syntax_error)),
             SampleMore.refused_w2)) as H2
    by (vm_compute; reflexivity).
  split; [exact H1|]. split; [exact H2|].
  exact (getTypes_explain_error "e" Sample.unexpected unit (option Z)
           SampleQuery.Number SampleQuery.string_of_Number
           SampleMore.begin_query w SampleMore.refused_w1
           SampleMore.refused_w2 no_types
           (parseError_of Sample.syntax_error) H1 H2).
Defined.

Lemma empty_lookups_witness :
  let w := Sample.world [ReadyForQuery "I"] in
  Forall (fun f => columnAttrNumber f <= 0) [SampleQuery.one]
  /\ runTypesCatalogQuery Sample.unexpected [] w = (Returned [], w)
  /\ getComments Sample.unexpected (option Z) SampleQuery.Number
       [SampleQuery.one] w
     = (Returned [], w).
Proof.
  intros w.
  assert (Forall (fun f => columnAttrNumber f <= 0) [SampleQuery.one]) as H
    by (constructor; [discriminate | constructor]).
  split; [exact H|].
  exact (empty_lookups Sample.unexpected (option Z) SampleQuery.Number
           [SampleQuery.one] w H).
Defined.

Lemma explainQuery_plan_witness :
  let w := Sample.world SampleMore.plan_script in
  incoming w
  = ParseComplete :: RowDescription []
    :: List.map DataRow [["Seq Scan on users"]; []]
    ++ CommandComplete "EXPLAIN" :: CloseComplete :: [ReadyForQuery "I"]
  /\ fst (explainQuery Sample.unexpected "select 1" (inr no_types) w)
     = Returned (inr [Some "Seq Scan on users"; None]).
Proof.
  intros w. split; [reflexivity|].
  rewrite (explainQuery_plan Sample.unexpected "select 1" no_types w []
             [["Seq Scan on users"]; []] "EXPLAIN" [ReadyForQuery "I"]
             eq_refl).
  reflexivity.
Defined.

Lemma getTypes_resolve_no_types_witness :
  let w := Sample.world [RowDescription []; CommandComplete "SELECT 0"] in
  incoming w
  = RowDescription [] :: List.map DataRow [] ++ CommandComplete "SELECT 0" :: []
  /\ fst (getTypes_resolve "e" Sample.unexpected unit (option Z)
            SampleQuery.Number SampleQuery.string_of_Number
            SampleMore.begin_query no_types w)
     = Returned
         (inr {| paramMetadata := {| mapping := [tt]; params := [] |};
                 returnTypes := [] |}).
Proof.
  intros w. split; [reflexivity|].
  rewrite (proj1 (getTypes_resolve_no_types "e" Sample.unexpected unit
                    (option Z) SampleQuery.Number SampleQuery.string_of_Number
                    SampleMore.begin_query w [] [] "SELECT 0" [] eq_refl)).
  reflexivity.
Defined.

Lemma getTypes_result_shape_witness :
  SampleQuery.getTypes SampleQuery.queryData SampleRun.w0
  = (Returned (inr SampleRun.result),
     snd (SampleQuery.getTypes SampleQuery.queryData SampleRun.w0))
  /\ exists data w1,
       getTypeData Sample.unexpected (iq_query SampleQuery.queryData)
         SampleRun.w0
       = (Returned (inr data), w1)
       /\ List.map returnName (returnTypes SampleRun.result)
          = List.map name (TypeData.fields data)
       /\ length (params (paramMetadata SampleRun.result))
          = length (TypeData.params data)
       /\ mapping (paramMetadata SampleRun.result)
          = iq_mapping SampleQuery.queryData
       /\ Forall (fun entry => comment entry <> Some EmptyString)
            (returnTypes SampleRun.result).
Proof.
  assert (SampleQuery.getTypes SampleQuery.queryData SampleRun.w0
          = (Returned (inr SampleRun.result),
             snd (SampleQuery.getTypes SampleQuery.queryData SampleRun.w0)))
    as Hrun by (vm_compute; reflexivity).
  split; [exact Hrun|].
  exact (getTypes_result_shape "e" Sample.unexpected unit (option Z)
           SampleQuery.Number SampleQuery.string_of_Number
           SampleQuery.queryData SampleRun.w0
           (snd (SampleQuery.getTypes SampleQuery.queryData SampleRun.w0))
           SampleRun.result Hrun).
Defined.

(** ** Attributes of the return types *)

Lemma attrMap_of_last (before after : list (list string))
    (row : list string) :
  (forall r, In r after -> attid_of r <> attid_of row) ->
  attrMap_of (before ++ row :: after) !! attid_of row
  = Some {| attr_columnName := row !! 1%nat;
            attr_nullable := negb (bool_decide (row !! 2%nat = Some "t")) |}.
Proof.
  induction after as [|x after IH] using rev_ind; intros Hno.
  - change (before ++ [row]) with (before ++ [row]).
    rewrite attrMap_of_snoc. apply lookup_insert_eq.
  - replace (before ++ row :: after ++ [x])
      with ((before ++ row :: after) ++ [x])
      by (now rewrite <- app_assoc).
    rewrite attrMap_of_snoc, lookup_insert_ne.
    + apply IH. intros r Hr. apply Hno, List.in_or_app. now left.
    + apply Hno, List.in_or_app. right. now left.
Qed.

(** X15: for a field whose key is carried by rows of the attribute query,
    the last such row decides: the entry takes its column name from the
    second column of that row, and it is not nullable exactly when the third
    column is the text t. *)
Theorem returnType_of_matched (typeMap : gmap string MappableType)
    (commentMap : gmap string (option string)) (f : TypeField)
    (before after : list (list string)) (row : list string) :
  attid_of row = getAttid f ->
  (forall r, In r after -> attid_of r <> getAttid f) ->
  let entry :=
    returnType_of typeMap (attrMap_of (before ++ row :: after)) commentMap f in
  columnName entry = row !! 1%nat
  /\ (row !! 2%nat = Some "t" -> nullable entry = Some false)
  /\ (row !! 2%nat <> Some "t" -> nullable entry = Some true).
Proof.
  intros Hkey Hno. cbv zeta. unfold returnType_of.
  cbn [columnName nullable]. rewrite <- Hkey in *.
  rewrite (attrMap_of_last before after row Hno).
  cbn. split; [reflexivity|]. split; intros H.
  - now rewrite bool_decide_eq_true_2.
  - now rewrite bool_decide_eq_false_2.
Qed.

Lemma returnType_of_matched_witness :
  let rows := [["16384:1"; "old"; "f"]; ["16384:1"; "id"; "t"]; ["16384:2"; "name"; "f"]] in
  let entry :=
    returnType_of ∅ (attrMap_of rows) ∅ SampleQuery.id in
  attid_of ["16384:1"; "id"; "t"] = getAttid SampleQuery.id
  /\ (forall r, In r [["16384:2"; "name"; "f"]] ->
                attid_of r <> getAttid SampleQuery.id)
  /\ columnName entry = Some "id"
  /\ nullable entry = Some false.
Proof.
  intros rows entry.
  assert (attid_of ["16384:1"; "id"; "t"] = getAttid SampleQuery.id) as Hk
    by reflexivity.
  assert (forall r, In r [["16384:2"; "name"; "f"]] ->
                    attid_of r <> getAttid SampleQuery.id) as Hno
    by (intros r [<-|[]]; vm_compute; discriminate).
  split; [exact Hk|]. split; [exact Hno|].
  destruct (returnType_of_matched ∅ ∅ SampleQuery.id
              [["16384:1"; "old"; "f"]] [["16384:2"; "name"; "f"]]
              ["16384:1"; "id"; "t"] Hk Hno) as (Hc & Ht & _).
  split; [exact Hc | exact (Ht eq_refl)].
Defined.

(** ** More on the catalog aggregation *)

(** X16: the result has an entry for an oid exactly when some row carries
    that oid: no row is dropped and no oid is made up (the element type oid
    of an array row gets no entry of its own). *)
Theorem reduceTypeRows_dom (DatabaseTypeKind_Enum : string)
    (typeRows : list TypeRow) (o : string) :
  is_Some (reduceTypeRows DatabaseTypeKind_Enum typeRows !! o)
  <-> In o (List.map oid typeRows).
Proof.
  rewrite <- rows_of_nonempty.
  apply (second_pass_dom (enumTypes_of DatabaseTypeKind_Enum typeRows)).
Qed.

Lemma second_pass_first (E : gmap string MappableType) (rows : list TypeRow)
    (o : string) :
  E !! o = None -> Js.inherited o = false ->
  (forall r, In r (rows_of o rows) -> elementEnum_of E r = None) ->
  forall r0 l, rows_of o rows = r0 :: l ->
  second_pass E rows !! o = Some (Scalar (typeName r0)).
Proof.
  intros HE Ho. induction rows as [|x rows IH] using rev_ind;
    intros Hel r0 l Hrows; [discriminate|].
  rewrite second_pass_snoc. rewrite rows_of_snoc in Hrows, Hel.
  destruct (String.eqb_spec (oid x) o) as [<-|Hne].
  - rewrite typeMap_step_same, !object_get_own_key, HE by assumption.
    rewrite (Hel x) by (apply List.in_or_app; right; now left).
    destruct (rows_of (oid x) rows) as [|y l'] eqn:Ey.
    + injection Hrows as -> _.
      assert (second_pass E rows !! oid r0 = None) as ->; [|reflexivity].
      apply eq_None_not_Some. rewrite second_pass_dom. tauto.
    + injection Hrows as -> _.
      rewrite (IH (fun r Hr => Hel r (List.in_or_app _ _ _ (or_introl Hr)))
                 r0 l' eq_refl).
      reflexivity.
  - rewrite app_nil_r in Hrows, Hel.
    rewrite typeMap_step_other by assumption. now apply (IH Hel r0 l).
Qed.

(** X17: an oid that has no row of enum type-kind and none that is an array
    of enum maps to a Scalar named by the type name of its first row, however
    many rows carry it: later rows do not rename it.  This is so where
    neither the oid nor an element type oid of its rows names a member of
    [Object.prototype], as is the case of the decimal text of a number. *)
Theorem reduceTypeRows_first_name (DatabaseTypeKind_Enum : string)
    (typeRows : list TypeRow) (o : string) (r0 : TypeRow)
    (l : list TypeRow) :
  Js.inherited o = false ->
  rows_of o typeRows = r0 :: l ->
  (forall r, In r (rows_of o typeRows) -> own_element r = true) ->
  enum_rows_of DatabaseTypeKind_Enum o typeRows = [] ->
  (forall r, In r (rows_of o typeRows) ->
             ~ is_array_of_enum DatabaseTypeKind_Enum typeRows r) ->
  reduceTypeRows DatabaseTypeKind_Enum typeRows !! o
  = Some (Scalar (typeName r0)).
Proof.
  intros Ho Hrows Hown Henum Hna.
  change (reduceTypeRows DatabaseTypeKind_Enum typeRows)
    with (second_pass (enumTypes_of DatabaseTypeKind_Enum typeRows) typeRows).
  apply (second_pass_first _ _ o) with (l := l); [|assumption| |assumption].
  - now rewrite enumTypes_of_lookup, Henum.
  - intros r Hr. apply elementEnum_of_None; [now apply Hown | now apply Hna].
Qed.

(** X18: an oid that has rows of enum type-kind maps to an Enum named by the
    type name of the last of them, with their labels in row order; rows of
    another type-kind that carry the oid add nothing. *)
Theorem reduceTypeRows_enum_name (DatabaseTypeKind_Enum : string)
    (typeRows : list TypeRow) (o : string) (r : TypeRow) :
  last (enum_rows_of DatabaseTypeKind_Enum o typeRows) = Some r ->
  reduceTypeRows DatabaseTypeKind_Enum typeRows !! o
  = Some (Enum (typeName r)
               (List.map enumLabel
                  (enum_rows_of DatabaseTypeKind_Enum o typeRows))).
Proof.
  intros Hlast.
  apply (second_pass_enum (enumTypes_of DatabaseTypeKind_Enum typeRows)).
  - now rewrite enumTypes_of_lookup, Hlast.
  - apply last_Some in Hlast as [l' Hl].
    assert (In r (enum_rows_of DatabaseTypeKind_Enum o typeRows)) as Hin
      by (rewrite Hl; apply List.in_or_app; right; now left).
    apply enum_rows_of_rows_of in Hin as [Hin _].
    intros Hnil. rewrite Hnil in Hin. destruct Hin.
Qed.

Lemma second_pass_well_shaped (E : gmap string MappableType)
    (rows : list TypeRow) :
  (forall k v, E !! k = Some v -> isEnum v = true) ->
  forallb own_element rows = true ->
  forall o t, second_pass E rows !! o = Some t -> well_shaped t = true.
Proof.
  intros HE. induction rows as [|x rows IH] using rev_ind; intros Hrows o t;
    [now cbn|].
  rewrite forallb_app in Hrows. apply andb_true_iff in Hrows as [Hrows Hx].
  cbn [forallb] in Hx. rewrite andb_true_r in Hx.
  rewrite second_pass_snoc.
  destruct (String.eqb_spec (oid x) o) as [<-|Hne].
  - rewrite typeMap_step_same. intros [= <-].
    destruct (object_get E (oid x)) as [e|] eqn:Hg.
    { destruct (E !! oid x) as [e'|] eqn:He.
      - rewrite (object_get_own _ _ _ He) in Hg. injection Hg as <-.
        specialize (HE _ _ He). now destruct e'.
      - now rewrite (object_get_not_own _ _ _ He Hg). }
    destruct (elementEnum_of E x) as [e|] eqn:Hel.
    + unfold elementEnum_of in Hel.
      destruct (_ && _); [|discriminate].
      unfold own_element in Hx.
      destruct (elementTypeOid x) as [k|]; [|discriminate].
      apply negb_true_iff in Hx.
      cbn in Hel. rewrite object_get_own_key in Hel by assumption.
      exact (HE _ _ Hel).
    + destruct (second_pass E rows !! oid x) as [v|] eqn:Hv.
      * rewrite (object_get_own _ _ _ Hv). cbn. exact (IH Hrows _ _ Hv).
      * destruct (object_get (second_pass E rows) (oid x)) as [v|] eqn:Hv';
          [|reflexivity].
        now rewrite (object_get_not_own _ _ _ Hv Hv').
  - rewrite typeMap_step_other by assumption. now apply IH.
Qed.

(** X19: where no element type oid of a row names a member of
    [Object.prototype], as is the case of the decimal text of a number, an
    array of the result wraps an enum: every entry is then a scalar, an
    enum, an inherited member, or an array whose element type is an enum. *)
Theorem reduceTypeRows_well_shaped (DatabaseTypeKind_Enum : string)
    (typeRows : list TypeRow) (o n : string) (e : MappableType) :
  forallb own_element typeRows = true ->
  reduceTypeRows DatabaseTypeKind_Enum typeRows !! o = Some (Array n e) ->
  isEnum e = true.
Proof.
  intros Hown H.
  apply (second_pass_well_shaped
           (enumTypes_of DatabaseTypeKind_Enum typeRows) typeRows) in H.
  - exact H.
  - intros k v Hv.
    destruct (enumTypes_of_is_enum _ _ _ _ Hv) as (r & _ & ->). reflexivity.
  - assumption.
Qed.

Lemma second_pass_inherited (E : gmap string MappableType)
    (rows : list TypeRow) (o : string) :
  E !! o = None -> Js.inherited o = true -> rows_of o rows <> [] ->
  second_pass E rows !! o = Some (Inherited o).
Proof.
  intros HE Ho. induction rows as [|x rows IH] using rev_ind; [now cbn|].
  rewrite second_pass_snoc, rows_of_snoc.
  destruct (String.eqb_spec (oid x) o) as [<-|Hne].
  - intros _. rewrite typeMap_step_same.
    unfold object_get at 1. now rewrite HE, Ho.
  - rewrite typeMap_step_other by assumption. now rewrite app_nil_r.
Qed.

(** X29: an oid that names a member of [Object.prototype] and has no row of
    enum type-kind does not map to a type: the test [oid in enumTypes] finds
    the inherited member, and the result holds that member under the oid,
    whatever the rows of the oid say. *)
Theorem reduceTypeRows_inherited_oid (DatabaseTypeKind_Enum : string)
    (typeRows : list TypeRow) (o : string) :
  Js.inherited o = true ->
  In o (List.map oid typeRows) ->
  enum_rows_of DatabaseTypeKind_Enum o typeRows = [] ->
  reduceTypeRows DatabaseTypeKind_Enum typeRows !! o = Some (Inherited o).
Proof.
  intros Ho Hin Henum.
  apply (second_pass_inherited (enumTypes_of DatabaseTypeKind_Enum typeRows));
    [|assumption|now apply rows_of_nonempty].
  now rewrite enumTypes_of_lookup, Henum.
Qed.

Lemma reduceTypeRows_inherited_oid_witness :
  Js.inherited "constructor" = true
  /\ In "constructor"
       (List.map oid [SampleRows.int4; SampleRows.named_constructor])
  /\ enum_rows_of "e" "constructor"
       [SampleRows.int4; SampleRows.named_constructor] = []
  /\ reduceTypeRows "e" [SampleRows.int4; SampleRows.named_constructor]
       !! "constructor"
     = Some (Inherited "constructor").
Proof.
  assert (In "constructor"
            (List.map oid [SampleRows.int4; SampleRows.named_constructor]))
    as Hin by (right; now left).
  split; [reflexivity|]. split; [exact Hin|]. split; [reflexivity|].
  exact (reduceTypeRows_inherited_oid "e"
           [SampleRows.int4; SampleRows.named_constructor] "constructor"
           eq_refl Hin eq_refl).
Defined.

Lemma reduceTypeRows_first_name_witness :
  Js.inherited "23" = false
  /\ rows_of "23" SampleRows2.rows = SampleRows.int4 :: [SampleRows2.renamed]
  /\ (forall r, In r (rows_of "23" SampleRows2.rows) -> own_element r = true)
  /\ enum_rows_of "e" "23" SampleRows2.rows = []
  /\ (forall r, In r (rows_of "23" SampleRows2.rows) ->
                ~ is_array_of_enum "e" SampleRows2.rows r)
  /\ reduceTypeRows "e" SampleRows2.rows !! "23" = Some (Scalar "int4").
Proof.
  assert (forall r, In r (rows_of "23" SampleRows2.rows) ->
                    own_element r = true) as Hown
    by (intros r [<-|[<-|[]]]; reflexivity).
  assert (forall r, In r (rows_of "23" SampleRows2.rows) ->
                    ~ is_array_of_enum "e" SampleRows2.rows r) as Hna
    by (intros r [<-|[<-|[]]] [Hc _]; discriminate).
  split; [reflexivity|]. split; [reflexivity|]. split; [exact Hown|].
  split; [reflexivity|]. split; [exact Hna|].
  exact (reduceTypeRows_first_name "e" SampleRows2.rows "23" SampleRows.int4
           [SampleRows2.renamed] eq_refl eq_refl Hown eq_refl Hna).
Defined.

Lemma reduceTypeRows_enum_name_witness :
  last (enum_rows_of "e" "100" SampleRows.rows) = Some (SampleRows.mood "b")
  /\ reduceTypeRows "e" SampleRows.rows !! "100"
     = Some (Enum "mood" ["a"; "b"]).
Proof.
  split; [reflexivity|].
  exact (reduceTypeRows_enum_name "e" SampleRows.rows "100"
           (SampleRows.mood "b") eq_refl).
Defined.

Lemma reduceTypeRows_well_shaped_witness :
  forallb own_element SampleRows.rows = true
  /\ reduceTypeRows "e" SampleRows.rows !! "300"
     = Some (Array "_mood" (Enum "mood" ["a"; "b"]))
  /\ isEnum (Enum "mood" ["a"; "b"]) = true.
Proof.
  assert (reduceTypeRows "e" SampleRows.rows !! "300"
          = Some (Array "_mood" (Enum "mood" ["a"; "b"]))) as H
    by (vm_compute; reflexivity).
  split; [reflexivity|]. split; [exact H|].
  exact (reduceTypeRows_well_shaped "e" SampleRows.rows "300" "_mood"
           (Enum "mood" ["a"; "b"]) eq_refl H).
Defined.

(** ** More on the handshake *)

Lemma quiet_ret {A} (a : A) : quiet (mret a : Async A).
Proof. intros w. split; [reflexivity | discriminate]. Qed.

Lemma quiet_throw {A} (e : Js.Exn) : quiet (throw e : Async A).
Proof. intros w. split; [reflexivity | discriminate]. Qed.

Lemma quiet_send (m : messages.client) : quiet (send m).
Proof. intros w. split; [reflexivity | discriminate]. Qed.

Lemma quiet_connect (options : Options.t) : quiet (connect options).
Proof.
  intros w. unfold connect.
  destruct (connectError w); split; solve [reflexivity | discriminate].
Qed.

Lemma quiet_bind {A B} (m : Async A) (f : A -> Async B) :
  quiet m -> (forall a, quiet (f a)) -> quiet (m ≫= f).
Proof.
  intros Hm Hf w. destruct (Hm w) as [Hc He].
  unfold mbind, Async_bind.
  destruct (m w) as [[a|e| |c] w'] eqn:E; cbn [fst snd] in *.
  - destruct (Hf a w') as [Hc' He']. split; [congruence | assumption].
  - split; [assumption | discriminate].
  - split; [assumption | discriminate].
  - now destruct (He c).
Qed.

Lemma quiet_loop_rounds {S A} (body : S -> Async (S + A)) (rounds : nat) :
  (forall s, quiet (body s)) -> forall s, quiet (loop_rounds rounds body s).
Proof.
  intros Hb. induction rounds as [|n IH]; intros s w.
  - split; [reflexivity | discriminate].
  - destruct (Hb s w) as [Hc He]. cbn [loop_rounds].
    destruct (body s w) as [[[s'|a]|e| |c] w'] eqn:E; cbn [fst snd] in *.
    + destruct (IH s' w') as [Hc' He']. split; [congruence | assumption].
    + split; [assumption | discriminate].
    + split; [assumption | discriminate].
    + split; [assumption | discriminate].
    + now destruct (He c).
Qed.

Section HandshakeProperties.

Variable createInitialSASLResponse : string * string.
Variable createClientSASLContinueResponse :
  string -> string -> string -> Js.Exn + (string * string).
Variable checkServerFinalMessage : string -> string -> option Js.Exn.
Variable unexpectedMessage : list messages.kind -> ServerMessage -> Js.Exn.

Local Abbreviation reply := (reply unexpectedMessage).
Local Abbreviation startup_sasl :=
  (startup_sasl createInitialSASLResponse createClientSASLContinueResponse
                checkServerFinalMessage unexpectedMessage).
Local Abbreviation startup :=
  (startup createInitialSASLResponse createClientSASLContinueResponse
           checkServerFinalMessage unexpectedMessage).

Lemma quiet_reply (types : list messages.kind) : quiet (reply types).
Proof.
  intros w. unfold reply.
  destruct (incoming w) as [|m rest]; [split; [reflexivity|discriminate]|].
  destruct (expected m types); split; solve [reflexivity | discriminate].
Qed.

Lemma quiet_startup_sasl (password : string)
    (SASLMechanisms : option (list string)) :
  quiet (startup_sasl password SASLMechanisms).
Proof.
  unfold startup_sasl.
  destruct (match SASLMechanisms with Some _ => _ | None => _ end);
    [apply quiet_throw|].
  destruct createInitialSASLResponse as [clientNonce initialSASLResponse].
  apply quiet_bind; [apply quiet_send | intros _].
  apply quiet_bind; [apply quiet_reply | intros SASLContinueResult].
  destruct (match SASLContinueResult with SASLContinue _ => _ | _ => _ end)
    as [e|[SASLContinueResponse calculatedServerSignature]];
    [apply quiet_throw|].
  apply quiet_bind; [apply quiet_send | intros _].
  apply quiet_bind; [apply quiet_reply | intros finalSASL].
  apply quiet_bind; [apply quiet_reply | intros _].
  apply quiet_bind.
  - intros w. apply quiet_loop_rounds. intros []. unfold drain_round.
    apply quiet_bind; [apply quiet_reply|].
    intros []; apply quiet_ret.
  - intros _. destruct finalSASL; try apply quiet_throw.
    destruct (checkServerFinalMessage _ _);
      [apply quiet_throw | apply quiet_ret].
Qed.

(** X20: [startup] never throws and never ends the process with another
    code than 1.  Either it returns or waits for a message that does not
    come, with nothing written on the console; or it has exited with code 1
    after one line on the console that says the connection failed, with the
    message of what went wrong. *)
Theorem startup_fatal (options : Options.t) (w : World) :
  let out := startup options w in
  ((fst out = Returned tt \/ fst out = Pending)
   /\ console (snd out) = console w)
  \/ (exists e, fst out = Exited 1
                /\ console (snd out) = console w ++ [connection_failed e]).
Proof.
  cbv zeta. unfold startup, try_catch.
  match goal with
  | |- context [match ?body w with _ => _ end] =>
      assert (quiet body) as Hq
  end.
  { apply quiet_bind; [apply quiet_connect | intros _].
    apply quiet_bind; [apply quiet_send | intros _].
    apply quiet_bind; [apply quiet_reply | intros result].
    destruct result; try apply quiet_ret;
      (destruct (negb _); [apply quiet_throw|]);
      try apply quiet_startup_sasl;
      repeat first [ apply quiet_bind; [|intros ?]
                   | apply quiet_send | apply quiet_reply | apply quiet_ret ]. }
  match goal with
  | |- context [match ?body w with _ => _ end] =>
      destruct (Hq w) as [Hc He]; destruct (body w) as [[[]|e| |c] w']
  end; cbn [fst snd] in *.
  - left. split; [now left | assumption].
  - right. exists e. split; [reflexivity|].
    change (console w' ++ [connection_failed e]
            = console w ++ [connection_failed e]).
    now rewrite Hc.
  - left. split; [now right | assumption].
  - now destruct (He c).
Qed.

End HandshakeProperties.

Section HandshakePaths.

Variable createInitialSASLResponse : string * string.
Variable createClientSASLContinueResponse :
  string -> string -> string -> Js.Exn + (string * string).
Variable checkServerFinalMessage : string -> string -> option Js.Exn.
Variable unexpectedMessage : list messages.kind -> ServerMessage -> Js.Exn.

Local Abbreviation startup :=
  (startup createInitialSASLResponse createClientSASLContinueResponse
           checkServerFinalMessage unexpectedMessage).

(** The handshake up to the first message of the server. *)
Lemma startup_first (options : Options.t) (w : World) (m : ServerMessage)
    (rest : list ServerMessage) (k : ServerMessage -> Async unit) :
  connectError w = None ->
  incoming w = m :: rest ->
  expected m [ messages.readyForQuery;
               messages.authenticationCleartextPassword;
               messages.authenticationMD5Password;
               messages.authenticationSASL ] = true ->
  (connect options;;
   send (messages.startupMessage
           {| user := Options.user options;
              database := Options.dbName options;
              client_encoding := "'utf-8'";
              application_name := "pgtyped" |});;
   result ← reply unexpectedMessage
              [ messages.readyForQuery;
                messages.authenticationCleartextPassword;
                messages.authenticationMD5Password;
                messages.authenticationSASL ];
   k result) w
  = k m (with_events w (startup_events options m) rest).
Proof.
  intros Hc Hin Hexp.
  unfold connect, mbind at 1, Async_bind at 1. rewrite Hc, bind_send.
  rewrite (bind_reply_cons unexpectedMessage _ _ _ m rest)
    by (first [exact Hin | exact Hexp]).
  f_equal. unfold with_events, startup_events. cbn. now rewrite <- !app_assoc.
Qed.

(** X21: when the server is ready for queries at once, [startup] returns
    having sent the startup message only: no password leaves the client,
    whether one is configured or not. *)
Theorem startup_no_auth (options : Options.t) (w : World)
    (trxStatus : string) (rest : list ServerMessage) :
  connectError w = None ->
  incoming w = ReadyForQuery trxStatus :: rest ->
  startup options w
  = (Returned tt,
     with_events w (startup_events options (ReadyForQuery trxStatus)) rest).
Proof.
  intros Hc Hin. unfold startup, try_catch.
  now rewrite (startup_first options w (ReadyForQuery trxStatus) rest _ Hc Hin).
Qed.

(** X22: on a request for a cleartext password [startup] sends the password
    as it is, and on a request for an MD5 password it sends the credential
    hashed with the salt of the request, not the password; once the server
    has answered authentication-ok and ready-for-query it returns. *)
Theorem startup_password (options : Options.t) (w : World)
    (password trxStatus : string) (m : ServerMessage)
    (rest : list ServerMessage) :
  connectError w = None ->
  Options.password options = Some password ->
  password <> EmptyString ->
  requests_password m = true ->
  incoming w = m :: AuthenticationOk :: ReadyForQuery trxStatus :: rest ->
  startup options w
  = (Returned tt,
     with_events w
       (startup_events options m
        ++ [ Sent (messages.passwordMessage (password_for options password m));
             Received AuthenticationOk;
             Received (ReadyForQuery trxStatus) ]) rest).
Proof.
  intros Hc Hpw Hne Hm Hin. unfold startup, try_catch.
  rewrite (startup_first options w m
             (AuthenticationOk :: ReadyForQuery trxStatus :: rest) _ Hc Hin)
    by (now destruct m).
  rewrite Hpw.
  assert (Js.truthy (Some password) = true) as ->
    by (now destruct password).
  destruct m; try discriminate; cbn [negb default password_for];
    rewrite bind_send;
    rewrite (bind_reply_cons unexpectedMessage _ _ _ AuthenticationOk
               (ReadyForQuery trxStatus :: rest)) by reflexivity;
    rewrite (bind_reply_cons unexpectedMessage _ _ _ (ReadyForQuery trxStatus)
               rest) by reflexivity;
    rewrite !with_events_app; reflexivity.
Qed.

(** X23: when the transport refuses the connection, [startup] logs the
    failure and exits with code 1 without having sent anything. *)
Theorem startup_connect_refused (options : Options.t) (w : World)
    (e : Js.Exn) :
  connectError w = Some e ->
  startup options w = (Exited 1, with_console w (connection_failed e)).
Proof.
  intros Hc. unfold startup, try_catch, connect, mbind at 1, Async_bind at 1.
  now rewrite Hc.
Qed.

Lemma drain_loop (trxStatus : string) (rest : list ServerMessage)
    (drained : list ServerMessage) :
  forall (w : World) (rounds : nat),
    incoming w = drained ++ ReadyForQuery trxStatus :: rest ->
    forallb is_drained drained = true ->
    (length drained < rounds)%nat ->
    loop_rounds rounds (drain_round unexpectedMessage) tt w
    = (Returned tt,
       with_events w
         (List.map Received drained ++ [Received (ReadyForQuery trxStatus)])
         rest).
Proof.
  induction drained as [|m drained IH]; intros w rounds Hin Hd Hlt;
    (destruct rounds as [|n]; [cbn in Hlt; lia|]); cbn [loop_rounds].
  - unfold drain_round.
    now rewrite (bind_reply_cons unexpectedMessage _ _ _
                   (ReadyForQuery trxStatus) rest)
      by (first [exact Hin | reflexivity]).
  - cbn [forallb] in Hd. apply andb_true_iff in Hd as [Hm Hd].
    assert (length drained < n)%nat as Hn by (cbn in Hlt; lia).
    unfold drain_round at 1.
    destruct m; try discriminate Hm.
    + rewrite (bind_reply_cons unexpectedMessage _ _ _ ParameterStatus
                 (drained ++ ReadyForQuery trxStatus :: rest))
        by (first [exact Hin | reflexivity]).
      cbn [mret Async_ret].
      rewrite (IH (with_events w [Received ParameterStatus]
                     (drained ++ ReadyForQuery trxStatus :: rest))
                 n eq_refl Hd Hn).
      now rewrite with_events_app.
    + rewrite (bind_reply_cons unexpectedMessage _ _ _ BackendKeyData
                 (drained ++ ReadyForQuery trxStatus :: rest))
        by (first [exact Hin | reflexivity]).
      cbn [mret Async_ret].
      rewrite (IH (with_events w [Received BackendKeyData]
                     (drained ++ ReadyForQuery trxStatus :: rest))
                 n eq_refl Hd Hn).
      now rewrite with_events_app.
Qed.

(** X24: the SASL exchange.  When the server offers SCRAM-SHA-256, answers
    the initial response with a challenge for which the helper has a
    response, and then sends its final message, authentication-ok, any
    number of parameter-status and backend-key-data messages and
    ready-for-query, [startup] passes over all of them and then lets the
    check of the server's final message decide: it returns if the check
    passes, and exits with code 1 after logging the failure if it does
    not. *)
Theorem startup_sasl_exchange (options : Options.t) (w : World)
    (password clientNonce initialSASLResponse : string)
    (SASLMechanisms : list string) (SASLData finalData : string)
    (SASLContinueResponse calculatedServerSignature trxStatus : string)
    (drained rest : list ServerMessage) :
  connectError w = None ->
  Options.password options = Some password ->
  password <> EmptyString ->
  In "SCRAM-SHA-256" SASLMechanisms ->
  createInitialSASLResponse = (clientNonce, initialSASLResponse) ->
  createClientSASLContinueResponse password clientNonce SASLData
  = inr (SASLContinueResponse, calculatedServerSignature) ->
  forallb is_drained drained = true ->
  incoming w
  = AuthenticationSASL (Some SASLMechanisms) :: SASLContinue SASLData
    :: AuthenticationSASLFinal finalData :: AuthenticationOk
    :: drained ++ ReadyForQuery trxStatus :: rest ->
  let done :=
    with_events w
      (startup_events options (AuthenticationSASL (Some SASLMechanisms))
       ++ sasl_events initialSASLResponse SASLContinueResponse SASLData
            finalData drained trxStatus) rest in
  startup options w
  = match checkServerFinalMessage finalData calculatedServerSignature with
    | None => (Returned tt, done)
    | Some e => (Exited 1, with_console done (connection_failed e))
    end.
Proof.
  intros Hc Hpw Hne Hmech Hinit Hcont Hd Hin. cbv zeta.
  unfold startup, try_catch.
  rewrite (startup_first options w _ _ _ Hc Hin) by reflexivity.
  rewrite Hpw.
  assert (Js.truthy (Some password) = true) as ->
    by (now destruct password).
  cbn [negb default]. unfold startup_sasl.
  assert ((Js.indexOf SCRAM_SHA_256 SASLMechanisms =? -1) = false) as ->.
  { apply Z.eqb_neq. intros H. now apply indexOf_not_In in H. }
  rewrite Hinit, bind_send.
  rewrite (bind_reply_cons unexpectedMessage _ _ _ (SASLContinue SASLData)
             (AuthenticationSASLFinal finalData :: AuthenticationOk
              :: drained ++ ReadyForQuery trxStatus :: rest))
    by reflexivity.
  cbv beta iota. change (id password) with password.
  rewrite Hcont, bind_send.
  rewrite (bind_reply_cons unexpectedMessage _ _ _
             (AuthenticationSASLFinal finalData)
             (AuthenticationOk
              :: drained ++ ReadyForQuery trxStatus :: rest))
    by reflexivity.
  rewrite (bind_reply_cons unexpectedMessage _ _ _ AuthenticationOk
             (drained ++ ReadyForQuery trxStatus :: rest))
    by reflexivity.
  unfold mbind at 1, Async_bind at 1, while_true.
  rewrite (drain_loop trxStatus rest drained)
    by (cbn [with_events incoming];
        first [ reflexivity | exact Hd
              | rewrite List.length_app; cbn; lia ]).
  rewrite !with_events_app.
  destruct (checkServerFinalMessage finalData calculatedServerSignature)
    as [e|]; cbn [throw mret Async_ret];
    unfold sasl_events, startup_events; cbn [app];
    rewrite <- ?app_assoc; reflexivity.
Qed.

End HandshakePaths.

Lemma startup_no_auth_witness :
  let w := Sample.world [ReadyForQuery "I"] in
  let options := SampleSASL.options (Some "secret") in
  connectError w = None
  /\ incoming w = ReadyForQuery "I" :: []
  /\ SampleSASL.startup options w
     = (Returned tt,
        with_events w (startup_events options (ReadyForQuery "I")) []).
Proof.
  intros w options. split; [reflexivity|]. split; [reflexivity|].
  exact (startup_no_auth SampleSASL.createInitialSASLResponse
           SampleSASL.createClientSASLContinueResponse
           SampleSASL.checkServerFinalMessage Sample.unexpected
           options w "I" [] eq_refl eq_refl).
Defined.

Lemma startup_password_witness :
  let m := AuthenticationMD5Password "salt" in
  let w := Sample.world [m; AuthenticationOk; ReadyForQuery "I"] in
  let options := SampleSASL.options (Some "secret") in
  connectError w = None
  /\ Options.password options = Some "secret"
  /\ "secret" <> EmptyString
  /\ requests_password m = true
  /\ incoming w = m :: AuthenticationOk :: ReadyForQuery "I" :: []
  /\ SampleSASL.startup options w
     = (Returned tt,
        with_events w
          (startup_events options m
           ++ [ Sent (messages.passwordMessage
                        (generateHash "postgres" "secret" "salt"));
                Received AuthenticationOk;
                Received (ReadyForQuery "I") ]) []).
Proof.
  intros m w options.
  assert ("secret" <> EmptyString) as Hne by discriminate.
  split; [reflexivity|]. split; [reflexivity|]. split; [exact Hne|].
  split; [reflexivity|]. split; [reflexivity|].
  exact (startup_password SampleSASL.createInitialSASLResponse
           SampleSASL.createClientSASLContinueResponse
           SampleSASL.checkServerFinalMessage Sample.unexpected
           options w "secret" "I" m [] eq_refl eq_refl Hne eq_refl eq_refl).
Defined.

Lemma startup_connect_refused_witness :
  let w :=
    {| incoming := []; trace := []; console := [];
       connectError := Some (Js.Error "connect ECONNREFUSED") |} in
  connectError w = Some (Js.Error "connect ECONNREFUSED")
  /\ SampleSASL.startup (SampleSASL.options None) w
     = (Exited 1,
        with_console w (connection_failed (Js.Error "connect ECONNREFUSED"))).
Proof.
  intros w. split; [reflexivity|].
  exact (startup_connect_refused SampleSASL.createInitialSASLResponse
           SampleSASL.createClientSASLContinueResponse
           SampleSASL.checkServerFinalMessage Sample.unexpected
           (SampleSASL.options None) w (Js.Error "connect ECONNREFUSED")
           eq_refl).
Defined.

Lemma startup_sasl_exchange_witness :
  let script :=
    [ AuthenticationSASL (Some ["SCRAM-SHA-256-PLUS"; "SCRAM-SHA-256"]);
      SASLContinue "r=nonce-server"; AuthenticationSASLFinal "v=forged";
      AuthenticationOk; ParameterStatus; BackendKeyData; ParameterStatus;
      ReadyForQuery "I" ] in
  let w := Sample.world script in
  let options := SampleSASL.options (Some "secret") in
  connectError w = None
  /\ Options.password options = Some "secret"
  /\ "secret" <> EmptyString
  /\ In "SCRAM-SHA-256" ["SCRAM-SHA-256-PLUS"; "SCRAM-SHA-256"]
  /\ SampleSASL.createInitialSASLResponse = ("nonce", "n,,n=*,r=nonce")
  /\ SampleSASL.createClientSASLContinueResponse "secret" "nonce"
       "r=nonce-server"
     = inr ("c=biws,r=nonce-server,p=proof", "signature")
  /\ forallb is_drained [ParameterStatus; BackendKeyData; ParameterStatus]
     = true
  /\ fst (SampleSASL.startup options w) = Exited 1.
Proof.
  intros script w options.
  assert ("secret" <> EmptyString) as Hne by discriminate.
  assert (In "SCRAM-SHA-256" ["SCRAM-SHA-256-PLUS"; "SCRAM-SHA-256"]) as Hin
    by (right; now left).
  split; [reflexivity|]. split; [reflexivity|]. split; [exact Hne|].
  split; [exact Hin|]. split; [reflexivity|]. split; [reflexivity|].
  split; [reflexivity|].
  unfold SampleSASL.startup.
  rewrite (startup_sasl_exchange SampleSASL.createInitialSASLResponse
             SampleSASL.createClientSASLContinueResponse
             SampleSASL.checkServerFinalMessage Sample.unexpected
             options w "secret" "nonce" "n,,n=*,r=nonce"
             ["SCRAM-SHA-256-PLUS"; "SCRAM-SHA-256"] "r=nonce-server"
             "v=forged" "c=biws,r=nonce-server,p=proof" "signature" "I"
             [ParameterStatus; BackendKeyData; ParameterStatus] []
             eq_refl eq_refl Hne Hin eq_refl eq_refl eq_refl eq_refl).
  reflexivity.
Defined.

(** ** More on the lookups and the validator *)

Section LookupProperties.

Variable unexpectedMessage : list messages.kind -> ServerMessage -> Js.Exn.
Variable JsNumber : Type.
Variable Number : option string -> JsNumber.

Local Abbreviation getComments :=
  (getComments unexpectedMessage JsNumber Number).
Local Abbreviation runTypesCatalogQuery :=
  (runTypesCatalogQuery unexpectedMessage).
Local Abbreviation explainQuery := (explainQuery unexpectedMessage).

(** X25: when some field is a real column, [getComments] sends one query,
    whose predicates are those of the real columns in the order of the
    fields, and turns every row of the answer, in order, into a comment:
    the numbers of the first two columns and the text of the third. *)
Theorem getComments_rows (fields : list TypeField) (w : World)
    (g : TypeField) (l : list TypeField) (described : list TypeField)
    (rows : list (list string)) (tag : string) (rest : list ServerMessage) :
  List.filter (fun f => 0 <? columnAttrNumber f) fields = g :: l ->
  incoming w
  = RowDescription described
    :: List.map DataRow rows ++ CommandComplete tag :: rest ->
  getComments fields w
  = (Returned
       (List.map
          (fun row : list string =>
             {| cc_tableOID := Number (row !! 0%nat);
                cc_columnAttrNumber := Number (row !! 1%nat);
                cc_comment := row !! 2%nat |})
          rows),
     with_events w
       (Sent (messages.query (comments_text (g :: l)))
        :: Received (RowDescription described)
        :: List.map (fun r => Received (DataRow r)) rows
        ++ [Received (CommandComplete tag)]) rest).
Proof.
  intros Hf Hin. unfold getComments. rewrite Hf. cbn [length Nat.eqb].
  unfold mbind, Async_bind.
  now rewrite (runQuery_script unexpectedMessage _ w described rows tag rest
                 Hin).
Qed.

(** X26: for at least one oid, [runTypesCatalogQuery] sends one query over
    the oids and turns every row of the answer, in order, into a catalog
    row: oid, type name, type kind and enum label from the first four
    columns, the element type oid from the fifth and the category from the
    sixth. *)
Theorem runTypesCatalogQuery_rows (o : Z) (os : list Z) (w : World)
    (described : list TypeField) (rows : list (list string)) (tag : string)
    (rest : list ServerMessage) :
  incoming w
  = RowDescription described
    :: List.map DataRow rows ++ CommandComplete tag :: rest ->
  runTypesCatalogQuery (o :: os) w
  = (Returned (List.map typeRow_of rows),
     with_events w
       (Sent (messages.query (typesCatalog_text (o :: os)))
        :: Received (RowDescription described)
        :: List.map (fun r => Received (DataRow r)) rows
        ++ [Received (CommandComplete tag)]) rest)
  /\ forall c0 c1 c2 c3 c4 c5,
       typeRow_of [c0; c1; c2; c3; c4; c5]
       = {| oid := c0; typeName := c1; typeKind := c2; enumLabel := c3;
            typeCategory := Some c5; elementTypeOid := Some c4 |}.
Proof.
  intros Hin. split; [|reflexivity].
  unfold runTypesCatalogQuery. cbn [length Nat.ltb Nat.leb].
  unfold mbind, Async_bind.
  now rewrite (runQuery_script unexpectedMessage _ w described rows tag rest
                 Hin).
Qed.

(** X27: when the second parse is refused, [explainQuery] sends no explain
    query: it runs the cleanup and returns the parse error of the
    response. *)
Theorem explainQuery_parse_error (query : string) (data : TypeData.t)
    (w : World) (errorFields : gmap string string)
    (rest : list ServerMessage) :
  incoming w = ErrorResponse errorFields :: CloseComplete :: rest ->
  explainQuery query (inr data) w
  = (Returned (inl (parseError_of errorFields)),
     with_events w
       ([ Sent (messages.parse (uniqueName_of query) query []);
          Sent messages.flush;
          Received (ErrorResponse errorFields) ]
        ++ cleanup_events query) rest).
Proof.
  intros Hin.
  rewrite (explainQuery_finish unexpectedMessage query data w
             (ErrorResponse errorFields) (CloseComplete :: rest)
             (inl (parseError_of errorFields))
             (after_parse query w (ErrorResponse errorFields)
                (CloseComplete :: rest))
             Hin eq_refl eq_refl).
  cbn [after_parse with_events incoming].
  change (expected CloseComplete [messages.closeComplete]) with true.
  cbv iota. unfold after_parse, cleanup_events.
  now rewrite with_events_app.
Qed.

(** X28: when the message that follows the answer to the explain query is
    not close-complete, the plan is lost: [explainQuery] has sent the
    cleanup, and throws the error of the channel instead of returning. *)
Theorem explainQuery_cleanup_failure (query : string) (data : TypeData.t)
    (w : World) (described : list TypeField) (rows : list (list string))
    (tag : string) (m : ServerMessage) (rest : list ServerMessage) :
  expected m [messages.closeComplete] = false ->
  incoming w
  = ParseComplete :: RowDescription described
    :: List.map DataRow rows ++ CommandComplete tag :: m :: rest ->
  fst (explainQuery query (inr data) w)
  = Thrown (unexpectedMessage [messages.closeComplete] m)
  /\ exists evs,
       trace (snd (explainQuery query (inr data) w))
       = trace w ++ evs
         ++ [ Sent (messages.close Statement (uniqueName_of query));
              Sent messages.flush; Sent messages.sync; Received m ].
Proof.
  intros Hm Hin.
  rewrite (explainQuery_finish unexpectedMessage query data w ParseComplete
             (RowDescription described
              :: List.map DataRow rows ++ CommandComplete tag :: m :: rest)
             (inr (List.map (fun row : list string => head row) rows))
             (with_events
                (after_parse query w ParseComplete
                   (RowDescription described
                    :: List.map DataRow rows
                    ++ CommandComplete tag :: m :: rest))
                (Sent (messages.query
                         (explain_text (uniqueName_of query)
                            (length (TypeData.params data))))
                 :: Received (RowDescription described)
                 :: List.map (fun r => Received (DataRow r)) rows
                 ++ [Received (CommandComplete tag)])
                (m :: rest))
             Hin eq_refl).
  - cbn [with_events incoming]. rewrite Hm. split; [reflexivity|].
    cbn [snd with_events trace after_parse].
    exists ([ Sent (messages.parse (uniqueName_of query) query []);
              Sent messages.flush; Received ParseComplete ]
            ++ Sent (messages.query
                       (explain_text (uniqueName_of query)
                          (length (TypeData.params data))))
               :: Received (RowDescription described)
               :: List.map (fun r => Received (DataRow r)) rows
               ++ [Received (CommandComplete tag)]).
    now rewrite <- !app_assoc.
  - rewrite explain_try_catch_eq by reflexivity.
    now rewrite (runQuery_script unexpectedMessage _
                   (after_parse query w ParseComplete
                      (RowDescription described
                       :: List.map DataRow rows
                       ++ CommandComplete tag :: m :: rest))
                   described rows tag (m :: rest) eq_refl).
Qed.

End LookupProperties.

Lemma getComments_rows_witness :
  let w :=
    Sample.world
      [ RowDescription []; DataRow ["16384"; "1"; "primary key"];
        CommandComplete "SELECT 1" ] in
  List.filter (fun f => 0 <? columnAttrNumber f)
    [SampleQuery.one; SampleQuery.id]
  = SampleQuery.id :: []
  /\ incoming w
     = RowDescription []
       :: List.map DataRow [["16384"; "1"; "primary key"]]
       ++ CommandComplete "SELECT 1" :: []
  /\ fst (getComments Sample.unexpected (option Z) SampleQuery.Number
            [SampleQuery.one; SampleQuery.id] w)
     = Returned [ {| cc_tableOID := Some 16384;
                     cc_columnAttrNumber := Some 1;
                     cc_comment := Some "primary key" |} ].
Proof.
  intros w. split; [reflexivity|]. split; [reflexivity|].
  rewrite (getComments_rows Sample.unexpected (option Z) SampleQuery.Number
             [SampleQuery.one; SampleQuery.id] w SampleQuery.id [] []
             [["16384"; "1"; "primary key"]] "SELECT 1" [] eq_refl eq_refl).
  reflexivity.
Defined.

Lemma runTypesCatalogQuery_rows_witness :
  let w :=
    Sample.world
      [ RowDescription [];
        DataRow ["23"; "int4"; "b"; EmptyString; "0"; "N"];
        CommandComplete "SELECT 1" ] in
  incoming w
  = RowDescription []
    :: List.map DataRow [["23"; "int4"; "b"; EmptyString; "0"; "N"]]
    ++ CommandComplete "SELECT 1" :: []
  /\ fst (runTypesCatalogQuery Sample.unexpected (23 :: []) w)
     = Returned [SampleRows.int4].
Proof.
  intros w. split; [reflexivity|].
  rewrite (proj1 (runTypesCatalogQuery_rows Sample.unexpected 23 [] w []
                    [["23"; "int4"; "b"; EmptyString; "0"; "N"]]
                    "SELECT 1" [] eq_refl)).
  reflexivity.
Defined.

Lemma explainQuery_parse_error_witness :
  let w :=
    Sample.world [ErrorResponse Sample.syntax_error; CloseComplete] in
  incoming w = ErrorResponse Sample.syntax_error :: CloseComplete :: []
  /\ fst (explainQuery Sample.unexpected "select" (inr no_types) w)
     = Returned (inl (parseError_of Sample.syntax_error)).
Proof.
  intros w. split; [reflexivity|].
  rewrite (explainQuery_parse_error Sample.unexpected "select" no_types w
             Sample.syntax_error [] eq_refl).
  reflexivity.
Defined.

Lemma explainQuery_cleanup_failure_witness :
  let w :=
    Sample.world
      [ ParseComplete; RowDescription []; DataRow ["Result"];
        CommandComplete "EXPLAIN"; ReadyForQuery "I" ] in
  expected (ReadyForQuery "I") [messages.closeComplete] = false
  /\ incoming w
     = ParseComplete :: RowDescription []
       :: List.map DataRow [["Result"]]
       ++ CommandComplete "EXPLAIN" :: ReadyForQuery "I" :: []
  /\ fst (explainQuery Sample.unexpected "select 1" (inr no_types) w)
     = Thrown (Js.Error "unexpected message").
Proof.
  intros w. split; [reflexivity|]. split; [reflexivity|].
  exact (proj1 (explainQuery_cleanup_failure Sample.unexpected "select 1"
                  no_types w [] [["Result"]] "EXPLAIN" (ReadyForQuery "I")
                  [] eq_refl eq_refl)).
Defined.
